(** * Repeat-motion segmentation: a shallow embedding and its properties

    The development follows the two Python modules of the repository:

    - [utils.py]: the Sakoe-Chiba mask builder and the stratified sampler;
    - [segmentation.py]: the two lower bounds of the warped distance, the
      average warped distance to the action groups, the length search
      [search_subsequence], the threshold calibration
      [find_distance_thresholds] and the greedy driver
      [segment_repeat_sequences].

    The Python code computes on [float64] values.  The embedding is written
    once over an interface [Arith] of the arithmetic the code uses, and is
    instantiated twice: with the kernel's binary64 floats (the values the
    code really computes, NaN and overflow included), and with exact real
    arithmetic extended by [+inf] (the reading under which the lower bounds
    are mathematical lower bounds). *)

From Stdlib Require Import ZArith List Bool Lia Reals Lra Permutation Sorted.
From Stdlib Require Floats.
Import ListNotations.

Set Implicit Arguments.

Local Open Scope Z_scope.

(** ** Outcomes of a Python call *)

(** The exceptions the modelled code can raise. *)
Inductive exn : Type :=
| IndexError
| ZeroDivisionError
| ValueError.

(** A call returns a value, raises, or (for the [while] loops of the driver
    and of the sampler, which are run with a budget of iterations) exhausts
    its budget. *)
Inductive outcome (A : Type) : Type :=
| Ok (a : A)
| Raise (e : exn)
| OutOfFuel.

Arguments Ok {A} a.
Arguments Raise {A} e.
Arguments OutOfFuel {A}.

Definition bind {A B : Type} (m : outcome A) (k : A -> outcome B) : outcome B :=
  match m with
  | Ok a => k a
  | Raise e => Raise e
  | OutOfFuel => OutOfFuel
  end.

Notation "x <- m ;; k" := (bind m (fun x => k))
  (at level 61, m at next level, right associativity).
Notation "' p <- m ;; k" := (bind m (fun p => k))
  (at level 61, p pattern, m at next level, right associativity).

(** ** The arithmetic interface *)

(** The operations of [float64] the program uses.  [of_int] is Python's
    conversion of an [int]; [ceil_int x] is [int(np.ceil(x))]. *)
Class Arith (F : Type) : Type := {
  fzero : F;
  finf : F;
  fadd : F -> F -> F;
  fsub : F -> F -> F;
  fmul : F -> F -> F;
  fdiv : F -> F -> F;
  fsqrt : F -> F;
  fltb : F -> F -> bool;
  fleb : F -> F -> bool;
  of_int : Z -> F;
  ceil_int : F -> Z;
  isfinite : F -> bool
}.

(** *** Binary64 floats *)

Definition float_of_Z (z : Z) : PrimFloat.float :=
  FloatOps.SF2Prim
    (SpecFloat.binary_normalize FloatOps.prec FloatOps.emax z 0 false).

(** [int(np.ceil(x))] of a finite float; the value on NaN and on the
    infinities (where Python raises and numba is unspecified) is 0. *)
Definition float_ceil_Z (x : PrimFloat.float) : Z :=
  match FloatOps.Prim2SF x with
  | SpecFloat.S754_finite s m e =>
      let mz := if s then Z.neg m else Z.pos m in
      if 0 <=? e then mz * 2 ^ e else - ((- mz) / 2 ^ (- e))
  | _ => 0
  end.

#[export] Instance Float64 : Arith PrimFloat.float := {|
  fzero := PrimFloat.zero;
  finf := PrimFloat.infinity;
  fadd := PrimFloat.add;
  fsub := PrimFloat.sub;
  fmul := PrimFloat.mul;
  fdiv := PrimFloat.div;
  fsqrt := PrimFloat.sqrt;
  fltb := PrimFloat.ltb;
  fleb := PrimFloat.leb;
  of_int := float_of_Z;
  ceil_int := float_ceil_Z;
  isfinite := PrimFloat.is_finite
|}.

(** *** Exact arithmetic: the reals with [+inf] *)

Inductive xreal : Type :=
| Fin (r : R)
| Inf.

Definition xlift2 (f : R -> R -> R) (x y : xreal) : xreal :=
  match x, y with
  | Fin a, Fin b => Fin (f a b)
  | _, _ => Inf
  end.

Definition xdiv (x y : xreal) : xreal :=
  match x, y with
  | Fin a, Fin b => Fin (a / b)
  | Fin _, Inf => Fin 0
  | Inf, _ => Inf
  end.

Definition xsqrt (x : xreal) : xreal :=
  match x with
  | Fin a => Fin (sqrt a)
  | Inf => Inf
  end.

Definition xltb (x y : xreal) : bool :=
  match x, y with
  | Fin a, Fin b => if Rlt_dec a b then true else false
  | Fin _, Inf => true
  | Inf, _ => false
  end.

Definition xleb (x y : xreal) : bool :=
  match x, y with
  | Fin a, Fin b => if Rle_dec a b then true else false
  | _, Inf => true
  | Inf, Fin _ => false
  end.

Definition xceil (x : xreal) : Z :=
  match x with
  | Fin a => - Int_part (- a)
  | Inf => 0
  end.

Definition xisfinite (x : xreal) : bool :=
  match x with
  | Fin _ => true
  | Inf => false
  end.

#[export] Instance Exact : Arith xreal := {|
  fzero := Fin 0;
  finf := Inf;
  fadd := xlift2 Rplus;
  fsub := xlift2 Rminus;
  fmul := xlift2 Rmult;
  fdiv := xdiv;
  fsqrt := xsqrt;
  fltb := xltb;
  fleb := xleb;
  of_int := fun z => Fin (IZR z);
  ceil_int := xceil;
  isfinite := xisfinite
|}.

(** What the arguments about pruning use of the arithmetic: nothing lies
    above [+inf]. *)
Class ArithOk {F : Type} (AR : Arith F) : Prop :=
  inf_not_below : forall x : F, fltb finf x = false.

(** The order of the extended reals, as a proposition. *)
Definition xle (x y : xreal) : Prop :=
  match x, y with
  | Fin a, Fin b => (a <= b)%R
  | _, Inf => True
  | Inf, Fin _ => False
  end.

(** ** The pseudo-random source *)

(** [np.random] is a global generator: [np.random.seed] overwrites its state
    with a function of the seed, and [np.random.permutation(n)] returns a
    shuffled [range(n)] and advances the state. *)
Class RandomSource (rng : Type) : Type := {
  np_seed : Z -> rng;
  np_permutation : rng -> nat -> list nat * rng
}.

(** The law of [np.random.permutation]: the result is a rearrangement of
    [range(n)]. *)
Class RandomSourceOk {rng : Type} (RS : RandomSource rng) : Prop :=
  permutation_law :
    forall (g : rng) (n : nat), Permutation (fst (np_permutation g n)) (seq 0 n).

(** A scripted source for running the model on concrete inputs: the state is
    the list of the shuffles still to be handed out (the identity shuffle when
    the script is over or its next entry is not a shuffle of [range(n)]). *)
Definition is_shuffle (p : list nat) (n : nat) : bool :=
  Nat.eqb (length p) n
  && forallb (fun k => existsb (Nat.eqb k) p) (seq 0 n).

Definition scripted_permutation (s : list (list nat)) (n : nat)
  : list nat * list (list nat) :=
  match s with
  | p :: s' => if is_shuffle p n then (p, s') else (seq 0 n, s')
  | [] => (seq 0 n, [])
  end.

#[export] Instance Scripted : RandomSource (list (list nat)) := {|
  np_seed := fun _ => [];
  np_permutation := scripted_permutation
|}.

(** ** Python helpers *)

Module Py.

(** [x[i]] on a list, for [0 <= i] (no wrap-around of negative indices). *)
Definition get {A : Type} (d : A) (l : list A) (i : Z) : A :=
  nth (Z.to_nat i) l d.

(** A slice bound brought into [0 .. len], as Python does. *)
Definition clip (len i : Z) : Z :=
  if i <? 0 then Z.max 0 (i + len) else Z.min i len.

(** [x[a:b]], [x[a:]] and [x[:b]]. *)
Definition slice {A : Type} (l : list A) (a b : Z) : list A :=
  let len := Z.of_nat (length l) in
  let a' := clip len a in
  let b' := clip len b in
  firstn (Z.to_nat (b' - a')) (skipn (Z.to_nat a') l).

Definition slice_from {A : Type} (l : list A) (a : Z) : list A :=
  skipn (Z.to_nat (clip (Z.of_nat (length l)) a)) l.

Definition slice_to {A : Type} (l : list A) (b : Z) : list A :=
  firstn (Z.to_nat (clip (Z.of_nat (length l)) b)) l.

(** [x[i]] with Python's wrap-around of a negative index and its
    [IndexError]. *)
Definition index {A : Type} (l : list A) (i : Z) : outcome A :=
  let len := Z.of_nat (length l) in
  let j := if i <? 0 then i + len else i in
  if (0 <=? j) && (j <? len)
  then match nth_error l (Z.to_nat j) with
       | Some x => Ok x
       | None => Raise IndexError
       end
  else Raise IndexError.

(** [int(np.round(0.5 * s))] for an integer [s]: halves go to the even
    neighbour. *)
Definition round_half (s : Z) : Z :=
  let k := s / 2 in
  if Z.even s then k else if Z.even k then k else k + 1.

(** [range(n)] as integers. *)
Definition range (n : Z) : list Z := map Z.of_nat (seq 0 (Z.to_nat n)).

(** [np.arange(a, b, step)] for a positive step; a step of 0 is an error and
    a negative step between [a <= b] gives the empty array. *)
Definition arange (a b step : Z) : outcome (list Z) :=
  if step =? 0 then Raise ValueError
  else if step <? 0 then Ok []
  else Ok (map (fun i => a + Z.of_nat i * step)
               (seq 0 (Z.to_nat ((b - a + step - 1) / step)))).

Fixpoint zip_with {A B C : Type} (f : A -> B -> C) (l : list A) (l' : list B)
  : list C :=
  match l, l' with
  | x :: t, y :: t' => f x y :: zip_with f t t'
  | _, _ => []
  end.

Fixpoint mapi_from {A B : Type} (k : nat) (f : nat -> A -> B) (l : list A)
  : list B :=
  match l with
  | [] => []
  | x :: t => f k x :: mapi_from (S k) f t
  end.

Definition mapi {A B : Type} (f : nat -> A -> B) (l : list A) : list B :=
  mapi_from 0 f l.

End Py.

(** ** The program *)

Section Program.

Context {F : Type} {AR : Arith F}.

(** Python's [max(a, b)] and [min(a, b)] on floats: the first argument unless
    the second is strictly larger (smaller). *)
Definition pymax (a b : F) : F := if fltb a b then b else a.
Definition pymin (a b : F) : F := if fltb b a then b else a.

(** [min(a, b, c)]. *)
Definition pymin3 (a b c : F) : F := pymin (pymin a b) c.

Definition fone : F := of_int 1.

(** A point is a row of [d] values, a series an array of shape [(N, d)]. *)
Definition point : Type := list F.
Definition series : Type := list point.

(** *** utils.py: [sakoe_chiba_mask] *)

(** [row[lower:upper] = v] for bounds that are not negative. *)
Definition set_slice (lower upper : Z) (v : F) (row : list F) : list F :=
  Py.mapi (fun k x =>
             if (lower <=? Z.of_nat k) && (Z.of_nat k <? upper) then v else x)
          row.

(** [row[i] = v]. *)
Definition set_at (i : Z) (v : F) (row : list F) : list F :=
  Py.mapi (fun k x => if Z.of_nat k =? i then v else x) row.

(** [mask[i, lower:upper] = v]. *)
Definition set_row_slice (i lower upper : Z) (v : F) (mask : list (list F))
  : list (list F) :=
  Py.mapi (fun r row => if Z.of_nat r =? i then set_slice lower upper v row
                        else row)
          mask.

(** [mask[lower:upper, i] = v]. *)
Definition set_col_slice (lower upper i : Z) (v : F) (mask : list (list F))
  : list (list F) :=
  Py.mapi (fun r row =>
             if (lower <=? Z.of_nat r) && (Z.of_nat r <? upper)
             then set_at i v row else row)
          mask.

(** The band half-width [w] of the mask. *)
Definition band_width (sz1 sz2 : Z) (warping_window : F) : Z :=
  Z.max (ceil_int (fmul warping_window (of_int (Z.max sz1 sz2))))
        (Z.abs (sz1 - sz2) + 1).

Definition sakoe_chiba_mask (sz1 sz2 : Z) (warping_window : F)
  : list (list F) :=
  let w := band_width sz1 sz2 warping_window in
  let mask := repeat (repeat finf (Z.to_nat sz2)) (Z.to_nat sz1) in
  if sz1 <=? sz2 then
    fold_left (fun mask i =>
                 let lower := Z.max 0 (i - w) in
                 let upper := Z.min sz2 (i + w) + 1 in
                 set_row_slice i lower upper fzero mask)
              (Py.range sz1) mask
  else
    fold_left (fun mask i =>
                 let lower := Z.max 0 (i - w) in
                 let upper := Z.min sz1 (i + w) + 1 in
                 set_col_slice lower upper i fzero mask)
              (Py.range sz2) mask.

(** [mask[i, j]]. *)
Definition mask_at (mask : list (list F)) (i j : Z) : F :=
  Py.get finf (Py.get [] mask i) j.

(** Warping paths over the cells of an [sz1] by [sz2] matrix: from (0, 0)
    to (sz1 - 1, sz2 - 1) by steps down, right or diagonal. *)
Definition path_step (a b : Z * Z) : Prop :=
  (fst b = fst a + 1 /\ snd b = snd a)
  \/ (fst b = fst a /\ snd b = snd a + 1)
  \/ (fst b = fst a + 1 /\ snd b = snd a + 1).

Fixpoint path_chain (p : list (Z * Z)) : Prop :=
  match p with
  | a :: t => match t with
              | b :: _ => path_step a b /\ path_chain t
              | [] => True
              end
  | [] => True
  end.

Definition warping_path (sz1 sz2 : Z) (p : list (Z * Z)) : Prop :=
  hd_error p = Some (0, 0)
  /\ last p (0, 0) = (sz1 - 1, sz2 - 1)
  /\ path_chain p.

(** *** The warped-distance kernel *)

Fixpoint foldM {A B : Type} (f : B -> A -> outcome B) (l : list A) (b : B)
  : outcome B :=
  match l with
  | [] => Ok b
  | x :: t => b' <- f b x ;; foldM f t b'
  end.

(** [x / n] for a Python [int] [n] in compiled code: a zero divisor raises. *)
Definition div_int (x : F) (n : Z) : outcome F :=
  if n =? 0 then Raise ZeroDivisionError else Ok (fdiv x (of_int n)).

Definition sq (x : F) : F := fmul x x.

(** [np.sum] of a one-dimensional array: the running sum from [0.0]. *)
Definition np_sum (l : list F) : F := fold_left fadd l fzero.

(** [np.sum] of a two-dimensional array, in row-major order. *)
Definition np_sum2 (m : list (list F)) : F := np_sum (concat m).

(** [np.sum((x - y) ** 2)] for two points. *)
Definition sum_sq_diff (x y : point) : F :=
  np_sum (Py.zip_with (fun a b => sq (fsub a b)) x y).

(** Modelled from the spec: the warped-distance kernel [njit_dtw] is imported
    from the [tslearn] library and is not part of the sources.  Section 4.2
    of the specification gives its contract (a non-negative alignment cost
    over paths that start at (0,0), end at (last,last) and move right, down or
    diagonally, the mask added into the cost); the definitions below are the
    library's accumulated-cost recurrence over squared Euclidean point
    distances, whose square root is the distance. *)
Definition local_squared_dist (x y : point) : F :=
  fold_left (fun dist ab => fadd dist (sq (fsub (fst ab) (snd ab))))
            (combine x y) fzero.

(** One row of the accumulated-cost matrix.  [prev] is the previous row from
    column [j] on, [left] the entry to the left; the result is the row from
    column [j + 1] on. *)
Fixpoint accumulated_row (si : point) (s2 : series) (mrow : list F)
  (prev : list F) (left : F) : list F :=
  match s2, prev with
  | t :: s2', diag :: ((up :: _) as prev') =>
      let c := if isfinite (hd finf mrow)
               then fadd (local_squared_dist si t) (pymin3 up left diag)
               else finf in
      c :: accumulated_row si s2' (tl mrow) prev' c
  | _, _ => []
  end.

(** The rows [1 ..] of the matrix [cum_sum], each from column 0 on. *)
Fixpoint accumulated_rows (s1 s2 : series) (mask : list (list F))
  (prev : list F) : list (list F) :=
  match s1 with
  | [] => []
  | si :: s1' =>
      let row := finf :: accumulated_row si s2 (hd [] mask) prev finf in
      row :: accumulated_rows s1' s2 (tl mask) row
  end.

Definition njit_accumulated_matrix (s1 s2 : series) (mask : list (list F))
  : list (list F) :=
  accumulated_rows s1 s2 mask (fzero :: repeat finf (length s2)).

(** [sqrt(cum_sum[-1, -1])]; on an empty sequence (where the compiled code
    reads out of bounds) the corner is taken to be [+inf]. *)
Definition njit_dtw (s1 s2 : series) (mask : list (list F)) : F :=
  fsqrt (last (last (njit_accumulated_matrix s1 s2 mask) []) finf).

(** *** segmentation.py: template summaries and the lower bounds *)

Record template_info_tuple : Type := {
  info_length : Z;
  info_min : point;
  info_max : point;
  info_first_value : point;
  info_last_value : point
}.

Definition fisnan (x : F) : bool := negb (fleb x x).

(** [np.min] and [np.max] of a one-dimensional array: NaN propagates. *)
Fixpoint np_min_from (m : F) (l : list F) : F :=
  match l with
  | [] => m
  | v :: t => if fisnan v then v
              else np_min_from (if fltb v m then v else m) t
  end.

Fixpoint np_max_from (m : F) (l : list F) : F :=
  match l with
  | [] => m
  | v :: t => if fisnan v then v
              else np_max_from (if fltb m v then v else m) t
  end.

Definition np_min (l : list F) : F :=
  match l with
  | [] => fzero
  | v :: t => if fisnan v then v else np_min_from v t
  end.

Definition np_max (l : list F) : F :=
  match l with
  | [] => fzero
  | v :: t => if fisnan v then v else np_max_from v t
  end.

(** [x[:, j]] and [x.shape[1]]. *)
Definition column (x : series) (j : nat) : list F :=
  map (fun row => nth j row fzero) x.

Definition shape1 (x : series) : nat := length (hd [] x).

(** [np.min(x, axis=0)] and [np.max(x, axis=0)]. *)
Definition min_axis0 (x : series) : point :=
  map (fun j => np_min (column x j)) (seq 0 (shape1 x)).

Definition max_axis0 (x : series) : point :=
  map (fun j => np_max (column x j)) (seq 0 (shape1 x)).

(** The summary [normalize_templates] stores for a template [arr]. *)
Definition template_info_of (arr : series) : template_info_tuple :=
  {| info_length := Z.of_nat (length arr);
     info_min := min_axis0 arr;
     info_max := max_axis0 arr;
     info_first_value := hd [] arr;
     info_last_value := last arr [] |}.

(** The summaries [normalize_templates] builds for the groups of templates
    (lines 436-439 of [segmentation.py]). *)
Definition templates_info_of (templates : list (list series))
  : list (list template_info_tuple) :=
  map (map template_info_of) templates.

(** [val /= len(t)] followed by the running minimum. *)
Definition close_group (val : F) (n : nat) (val_min : F) : outcome F :=
  val' <- div_int val (Z.of_nat n) ;;
  Ok (if fltb val' val_min then val' else val_min).

Definition average_lb_distance_to_templates1 (sequence : series)
  (templates_info : list (list template_info_tuple)) : outcome F :=
  let len_seq := Z.of_nat (length sequence) in
  foldM (fun val_min t =>
           val <- foldM (fun val temp =>
                           d <- div_int
                                  (fsqrt (fadd (sum_sq_diff (hd [] sequence)
                                                  (info_first_value temp))
                                               (sum_sq_diff (last sequence [])
                                                  (info_last_value temp))))
                                  (len_seq + info_length temp) ;;
                           Ok (fadd val d))
                        t fzero ;;
           close_group val (length t) val_min)
        templates_info finf.

(** [q * (q >= 0.0)]: the negative part is clamped to zero. *)
Definition clamp (q : F) : F :=
  fmul q (if fleb fzero q then fone else fzero).

(** [r[0, :] = 0.0; r[-1, :] = 0.0]. *)
Definition zero_row (row : list F) : list F := map (fun _ => fzero) row.

Definition zero_ends (r : list (list F)) : list (list F) :=
  Py.mapi (fun k row =>
             if orb (Nat.eqb k 0) (Nat.eqb (S k) (length r))
             then zero_row row else row)
          r.

(** [np.sum(r ** 2)] where [r] is the clamped excess [x - upper] over an
    upper envelope, its first and last rows zeroed. *)
Definition excess_above (x : series) (upper : point) : F :=
  np_sum2 (map (map sq)
             (zero_ends (map (fun row => map clamp (Py.zip_with fsub row upper))
                             x))).

(** The same for the excess [lower - x] under a lower envelope. *)
Definition excess_below (x : series) (lower : point) : F :=
  np_sum2 (map (map sq)
             (zero_ends (map (fun row => map clamp (Py.zip_with fsub lower row))
                             x))).

Definition average_lb_distance_to_templates2 (sequence : series)
  (templates : list (list series))
  (templates_info : list (list template_info_tuple)) : outcome F :=
  let len_seq := Z.of_nat (length sequence) in
  let min_seq := min_axis0 sequence in
  let max_seq := max_axis0 sequence in
  foldM (fun val_min ti =>
           let t := fst ti in
           val <- foldM (fun val tj =>
                           let temp := fst tj in
                           let info := snd tj in
                           let dev_first_last :=
                             fadd (sum_sq_diff (hd [] sequence)
                                               (info_first_value info))
                                  (sum_sq_diff (last sequence [])
                                               (info_last_value info)) in
                           val1 <- div_int
                                     (fsqrt (fadd (fadd
                                        (excess_above sequence (info_max info))
                                        (excess_below sequence (info_min info)))
                                        dev_first_last))
                                     (len_seq + info_length info) ;;
                           val2 <- div_int
                                     (fsqrt (fadd (fadd
                                        (excess_above temp max_seq)
                                        (excess_below temp min_seq))
                                        dev_first_last))
                                     (len_seq + info_length info) ;;
                           Ok (fadd val (pymax val1 val2)))
                        (combine t (snd ti)) fzero ;;
           close_group val (length t) val_min)
        (combine templates templates_info) finf.

(** *** segmentation.py: [average_distance_to_templates] *)

(** The mask of one kernel call: all zeros without a warping window. *)
Definition dtw_mask (len_seq len_temp : Z) (warping_window : option F)
  : list (list F) :=
  match warping_window with
  | None => repeat (repeat fzero (Z.to_nat len_temp)) (Z.to_nat len_seq)
  | Some w => sakoe_chiba_mask len_seq len_temp w
  end.

(** The average of [njit_dtw(sequence, temp) / (len_seq + len_temp)] over
    the templates of one group, before the division by [len(t)]. *)
Definition group_distance_sum (sequence : series) (t : list series)
  (warping_window : option F) : outcome F :=
  let len_seq := Z.of_nat (length sequence) in
  foldM (fun val temp =>
           let len_temp := Z.of_nat (length temp) in
           let mask := dtw_mask len_seq len_temp warping_window in
           d <- div_int (njit_dtw sequence temp mask) (len_seq + len_temp) ;;
           Ok (fadd val d))
        t fzero.

(** The loop over the groups, from the group of index [i] on. *)
Fixpoint average_distance_loop (sequence : series)
  (templates : list (list series)) (warping_window : option F)
  (i : Z) (val_min : F) (label : Z) : outcome (F * Z) :=
  match templates with
  | [] => Ok (val_min, label)
  | t :: rest =>
      val <- group_distance_sum sequence t warping_window ;;
      val' <- div_int val (Z.of_nat (length t)) ;;
      if fltb val' val_min
      then average_distance_loop sequence rest warping_window (i + 1) val' (i + 1)
      else average_distance_loop sequence rest warping_window (i + 1) val_min label
  end.

Definition average_distance_to_templates (sequence : series)
  (templates : list (list series)) (warping_window : option F)
  : outcome (F * Z) :=
  average_distance_loop sequence templates warping_window 0 finf 1.

(** *** segmentation.py: [search_subsequence] *)

(** [np.cumsum] down the rows of an [(N, d)] array (column by column in the
    source, which is the same running sum). *)
Fixpoint cumsum_from (acc : point) (x : series) : series :=
  match x with
  | [] => []
  | r :: t => let acc' := Py.zip_with fadd acc r in acc' :: cumsum_from acc' t
  end.

Definition cumsum_rows (x : series) : series :=
  match x with
  | [] => []
  | r :: t => r :: cumsum_from r t
  end.

(** Row [i] of an array divided by [den[i] = i + 1]. *)
Definition div_by_den (x : series) : series :=
  Py.mapi (fun i row => map (fun c => fdiv c (of_int (Z.of_nat i + 1))) row) x.

(** The literal [1e-16]. *)
Definition eps16 : F := fdiv fone (of_int (10 ^ 16)).

Definition rolling_mean (sequence : series) : series :=
  div_by_den (cumsum_rows sequence).

Definition rolling_stdev (sequence : series) : series :=
  let sequence_mean := rolling_mean sequence in
  map (map (fun c => fsqrt (fadd eps16 c)))
      (div_by_den
         (cumsum_rows
            (Py.zip_with (Py.zip_with (fun x mu => sq (fsub x mu)))
                         sequence sequence_mean))).

(** [x[i, :]] with the wrap-around of a negative index; out of range (where
    the compiled code does not check) the row is empty. *)
Definition row_at (x : series) (i : Z) : point :=
  Py.get [] x (if i <? 0 then i + Z.of_nat (length x) else i).

(** [(sequence[:m, :] - sequence_mean[m - 1, :]) / sequence_stdev[m - 1, :]],
    or [sequence[:m, :]] without normalization. *)
Definition normalized_prefix (normalize : bool)
  (sequence sequence_mean sequence_stdev : series) (m : Z) : series :=
  if normalize then
    map (fun row =>
           Py.zip_with fdiv
             (Py.zip_with fsub row (row_at sequence_mean (m - 1)))
             (row_at sequence_stdev (m - 1)))
        (Py.slice_to sequence m)
  else Py.slice_to sequence m.

(** The body of the loop over the candidate lengths.  The state is
    [(len_best, d_min, label_best)]. *)
Definition search_body (templates : list (list series))
  (templates_info : list (list template_info_tuple))
  (warping_window : option F) (use_lower_bounds : bool)
  (sequence_norm : series) (m : Z) (st : Z * F * Z) : outcome (Z * F * Z) :=
  let '(len_best, d_min, label_best) := st in
  let score :=
    '(d, label) <- average_distance_to_templates sequence_norm templates
                     warping_window ;;
    if fltb d d_min then Ok (m, d, label) else Ok st in
  if use_lower_bounds then
    d_lb1 <- average_lb_distance_to_templates1 sequence_norm templates_info ;;
    if fltb d_min d_lb1 then Ok st
    else
      d_lb2 <- average_lb_distance_to_templates2 sequence_norm templates
                 templates_info ;;
      if fltb d_min d_lb2 then Ok st else score
  else score.

(** The lengths [min_length], [max_length] the search really uses on a
    sequence of [N] points. *)
Definition clamp_lengths (N min_length max_length : Z) : Z * Z :=
  let max_length := if N >? max_length then max_length else N in
  let min_length := if min_length >=? max_length
                    then Z.max 1 (max_length - 1) else min_length in
  (min_length, max_length).

(** [[mid_length] + list(v[v != mid_length])] for the shuffled range [v]. *)
Definition length_range_of (mid_length : Z) (v : list Z) : list Z :=
  mid_length :: filter (fun m => negb (m =? mid_length)) v.

(** The sequence the search works on: the input, cut at [max_length]. *)
Definition truncated (sequence : series) (max_length : Z) : series :=
  if Z.of_nat (length sequence) >? max_length
  then Py.slice_to sequence max_length else sequence.

(** The length the search visits first. *)
Definition mid_length_of (sequence : series) (min_length max_length : Z)
  : Z :=
  let '(min_length, max_length) :=
    clamp_lengths (Z.of_nat (length sequence)) min_length max_length in
  Py.round_half (min_length + max_length).

(** The candidate of that length, normalized as the search does. *)
Definition first_candidate (sequence : series) (min_length max_length : Z)
  (normalize : bool) : series :=
  let s := truncated sequence max_length in
  normalized_prefix normalize s
    (if normalize then rolling_mean s else s)
    (if normalize then rolling_stdev s else s)
    (mid_length_of sequence min_length max_length).

Section Search.

Context {rng : Type} {RS : RandomSource rng}.

(** [np.random.permutation(x)] of an array. *)
Definition permutation_of (g : rng) (x : list Z) : list Z * rng :=
  let '(p, g') := np_permutation g (length x) in
  (map (fun k => nth k x 0) p, g').

Definition search_subsequence (g : rng) (sequence : series)
  (templates : list (list series))
  (templates_info : list (list template_info_tuple))
  (min_length max_length : Z) (normalize : bool)
  (warping_window : option F) (use_lower_bounds : bool) (length_step : Z)
  : outcome (Z * F * Z * rng) :=
  let N := Z.of_nat (length sequence) in
  let sequence := if N >? max_length then Py.slice_to sequence max_length
                  else sequence in
  let '(min_length, max_length) := clamp_lengths N min_length max_length in
  let sequence_mean := if normalize then rolling_mean sequence else sequence in
  let sequence_stdev := if normalize then rolling_stdev sequence else sequence in
  let mid_length := Py.round_half (min_length + max_length) in
  lengths <- Py.arange min_length (max_length + 1) length_step ;;
  let '(v, g') := permutation_of g lengths in
  let length_range := length_range_of mid_length v in
  '(len_best, d_min, label_best) <-
    foldM (fun st m =>
             search_body templates templates_info warping_window
               use_lower_bounds
               (normalized_prefix normalize sequence sequence_mean
                  sequence_stdev m)
               m st)
          length_range (mid_length, finf, 0) ;;
  Ok (len_best, d_min, label_best, g').

End Search.

(** *** utils.py: the sampler, and the helpers of the calibration *)

(** [itertools.combinations(l, k)], in its lexicographic order. *)
Fixpoint combinations {A : Type} (l : list A) (k : nat) : list (list A) :=
  match k with
  | O => [[]]
  | S k' =>
      match l with
      | [] => []
      | x :: t => map (cons x) (combinations t k') ++ combinations t (S k')
      end
  end.

(** The binomial coefficient [scipy.special.comb(n, k)]. *)
Fixpoint comb (n k : nat) : Z :=
  match k, n with
  | O, _ => 1
  | S _, O => 0
  | S k', S n' => comb n' k' + comb n' k
  end.

(** [max(vals, key=vals.get)] over the keys [i .. ] of a dictionary given as
    the list of its items: the first key of maximal value. *)
Fixpoint argmax_from (best : Z) (best_val : F) (items : list (Z * F)) : Z :=
  match items with
  | [] => best
  | (i, v) :: t => if fltb best_val v then argmax_from i v t
                   else argmax_from best best_val t
  end.

(** [int(np.floor(x))]. *)
Definition floor_int (x : F) : Z := - ceil_int (fsub fzero x).

(** The literal [1e-6]. *)
Definition eps6 : F := fdiv fone (of_int (10 ^ 6)).

(** [find_max_combinations(n, k)]: the [k] that maximizes
    [n * comb(n - 1, k)], ties going to the larger [k], and that maximum. *)
Definition find_max_combinations (n : Z) (k : option Z) : outcome (Z * Z) :=
  let vals :=
    map (fun i => (i, fadd (fmul (of_int n)
                                 (of_int (comb (Z.to_nat (n - 1)) (Z.to_nat i))))
                           (fmul eps6 (of_int i))))
        (map (fun i => i + 1) (Py.range (n - 1))) in
  let lookup := fun k => find (fun iv => fst iv =? k) vals in
  match match k with Some k => lookup k | None => None end with
  | Some (k, v) => Ok (k, floor_int v)
  | None =>
      match vals with
      | [] => Raise ValueError
      | (i, v) :: t =>
          let k := argmax_from i v t in
          match lookup k with
          | Some (_, v) => Ok (k, floor_int v)
          | None => Raise ValueError
          end
      end
  end.

(** Modelled from the spec: [num_templates_to_sample] is imported from
    [utils] by [segmentation.py] but no function of that name is defined
    there.  Section 4.4 of the specification asks for the sample size [k]
    that maximizes [n * C(n - 1, k)] subject to [k < n], ties broken toward
    the larger [k], which is what [find_max_combinations] computes. *)
Definition num_templates_to_sample (n : Z) : outcome (Z * Z) :=
  find_max_combinations n None.

(** [np.unique] of an integer array: its values, sorted, without repeats. *)
Fixpoint insert_unique (x : Z) (l : list Z) : list Z :=
  match l with
  | [] => [x]
  | y :: t => if x <? y then x :: l
              else if x =? y then l else y :: insert_unique x t
  end.

Definition np_unique (l : list Z) : list Z :=
  fold_left (fun acc x => insert_unique x acc) l [].

(** [np.where(labels == lab)[0]]. *)
Definition where_eq (labels : list Z) (lab : Z) : list Z :=
  map fst (filter (fun il => snd il =? lab)
                  (combine (Py.range (Z.of_nat (length labels))) labels)).

(** Modelled from the spec: [np.percentile] belongs to numpy and is not part
    of the sources; Section 4.4 of the specification takes the percentiles
    [p25], [p75] and [p100] of the distance samples.  This is numpy's default
    (linear interpolation between the two nearest order statistics); on an
    empty array, where numpy's answer has changed with its versions (an
    [IndexError], or NaN with a warning), it is the error. *)
Fixpoint insert_sorted (x : F) (l : list F) : list F :=
  match l with
  | [] => [x]
  | y :: t => if fltb y x then y :: insert_sorted x t else x :: l
  end.

Definition np_sort (l : list F) : list F :=
  fold_right insert_sorted [] l.

Definition np_percentile (a : list F) (q : Z) : outcome F :=
  match a with
  | [] => Raise IndexError
  | _ :: _ =>
      let sorted := np_sort a in
      let n := Z.of_nat (length a) in
      let pos := (n - 1) * q in
      let lo := pos / 100 in
      let hi := Z.min (lo + 1) (n - 1) in
      let t := fdiv (of_int (pos mod 100)) (of_int 100) in
      let x := Py.get fzero sorted lo in
      let y := Py.get fzero sorted hi in
      Ok (fadd x (fmul (fsub y x) t))
  end.

(** The literal [1.5]. *)
Definition one_and_half : F := fdiv (of_int 3) (of_int 2).

(** The upper threshold of a group from its distance samples (lines 373-374
    of [segmentation.py]): [v] holds the percentiles 0, 25, 50, 75, 100. *)
Definition tukey_threshold (distances : list F) : outcome F :=
  v0 <- np_percentile distances 0 ;;
  v1 <- np_percentile distances 25 ;;
  v2 <- np_percentile distances 50 ;;
  v3 <- np_percentile distances 75 ;;
  v4 <- np_percentile distances 100 ;;
  Ok (pymax v4 (fadd v3 (fmul one_and_half (fsub v3 v1)))).

(** [mapM] for outcomes. *)
Fixpoint mapM {A B : Type} (f : A -> outcome B) (l : list A)
  : outcome (list B) :=
  match l with
  | [] => Ok []
  | x :: t => y <- f x ;; ys <- mapM f t ;; Ok (y :: ys)
  end.

Definition helper_average_dtw_distance (sequences : list series)
  (warping_window : option F) (indices : list Z) : outcome F :=
  '(d_avg, _) <- average_distance_to_templates
                   (Py.get [] sequences (hd 0 indices))
                   [map (Py.get [] sequences) (tl indices)]
                   warping_window ;;
  Ok d_avg.

(** The index lists [[j] + [ind[t] for t in tup]] of the held-out template
    [j], where [ind] is every index but [j]. *)
Definition holdout_indices (n j : Z) (comb_list : list (list Z))
  : list (list Z) :=
  let ind := filter (fun jj => negb (jj =? j)) (Py.range n) in
  map (fun tup => j :: map (Py.get 0 ind) tup) comb_list.

Section Calibration.

Context {rng : Type} {RS : RandomSource rng}.

(** The rounds of the [while m < k] loop of [stratified_sample]. *)
Fixpoint stratified_rounds (fuel : nat) (index_labels : list (list Z))
  (k m i : Z) (index : list Z) : outcome (list Z) :=
  if m <? k then
    match fuel with
    | O => OutOfFuel
    | S fuel' =>
        let arr := map (fun v => Py.get 0 v i)
                       (filter (fun v => i <? Z.of_nat (length v))
                               index_labels) in
        stratified_rounds fuel' index_labels k (m + Z.of_nat (length arr))
                          (i + 1) (index ++ arr)
    end
  else Ok index.

(** The shuffles of the index sets of the categories, one after the other. *)
Fixpoint shuffle_each (g : rng) (sets : list (list Z))
  : list (list Z) * rng :=
  match sets with
  | [] => ([], g)
  | x :: t =>
      let '(p, g') := permutation_of g x in
      let '(ps, g'') := shuffle_each g' t in
      (p :: ps, g'')
  end.

Definition stratified_sample (fuel : nat) (g : rng) (labels : list Z)
  (n k : Z) : outcome (list Z * rng) :=
  if k <? n then
    let label_set := np_unique labels in
    let '(index_labels, g') :=
      shuffle_each g (map (where_eq labels) label_set) in
    index <- stratified_rounds fuel index_labels k 0 0 [] ;;
    Ok (Py.slice_to index k, g')
  else
    let '(p, g') := np_permutation g (Z.to_nat n) in
    Ok (map Z.of_nat p, g').

(** The distance samples of one group: for every held-out template, its
    average warped distance to each chosen subset of the others.  With more
    than one process the index lists are built first and mapped over a pool,
    whose results come back in the order of the tasks and are handed to the
    callback [distances.extend]; when a task raises, the callback is not
    called, nothing reads the error, and [distances] stays empty. *)
Definition group_distances (num_proc : Z) (templates_i : list series)
  (warping_window : option F) (n : Z) (comb_list : list (list Z))
  : outcome (list F) :=
  if num_proc >? 1 then
    match mapM (helper_average_dtw_distance templates_i warping_window)
               (concat (map (fun j => holdout_indices n j comb_list)
                            (Py.range n))) with
    | Ok distances => Ok distances
    | Raise _ => Ok []
    | OutOfFuel => OutOfFuel
    end
  else
    per_j <- mapM (fun j =>
                     mapM (helper_average_dtw_distance templates_i
                             warping_window)
                          (holdout_indices n j comb_list))
                  (Py.range n) ;;
    Ok (concat per_j).

(** The subsets of the other templates each held-out template is compared
    with: all [k]-subsets, or [a] of them drawn at random when there are
    more. *)
Definition sampled_combinations (g : rng) (n k max_num_samples : Z)
  : outcome (list (list Z) * rng) :=
  let comb_list := combinations (Py.range (n - 1)) (Z.to_nat k) in
  let len_comb_list := Z.of_nat (length comb_list) in
  if n =? 0 then Raise ZeroDivisionError
  else
    let a := ceil_int (fdiv (of_int max_num_samples) (of_int n)) in
    if len_comb_list >? a then
      let '(p, g') := np_permutation g (length comb_list) in
      Ok (map (fun j => nth j comb_list []) (Py.slice_to p a), g')
    else Ok (comb_list, g).

(** What one pass of the loop over the actions appends. *)
Record group_result : Type := {
  threshold : F;
  selected : list series;
  labels_selected : list (Z * Z);
  info_selected : list template_info_tuple
}.

Definition calibrate_group (num_proc : Z) (g : rng)
  (templates_i : list series) (template_labels_i : list (Z * Z))
  (templates_info_i : list template_info_tuple)
  (warping_window : option F) (max_num_samples : Z)
  : outcome (group_result * rng) :=
  let n := Z.of_nat (length templates_i) in
  '(k, ns) <- num_templates_to_sample n ;;
  let labels_group := map snd template_labels_i in
  '(ind, g1) <- stratified_sample (S (length templates_i)) g labels_group n k ;;
  '(comb_list, g2) <- sampled_combinations g1 n k max_num_samples ;;
  distances <- group_distances num_proc templates_i warping_window n
                 comb_list ;;
  th <- tukey_threshold distances ;;
  Ok ({| threshold := th;
         selected := map (Py.get [] templates_i) ind;
         labels_selected := map (Py.get (0, 0) template_labels_i) ind;
         info_selected :=
           map (Py.get (template_info_of []) templates_info_i) ind |},
      g2).

(** The loop over the actions. *)
Fixpoint calibrate_groups (num_proc : Z) (g : rng)
  (templates : list (list series)) (template_labels : list (list (Z * Z)))
  (templates_info : list (list template_info_tuple))
  (warping_window : option F) (max_num_samples : Z)
  : outcome (list group_result * rng) :=
  match templates with
  | [] => Ok ([], g)
  | t :: rest =>
      '(r, g') <- calibrate_group num_proc g t (hd [] template_labels)
                    (hd [] templates_info) warping_window max_num_samples ;;
      '(rs, g'') <- calibrate_groups num_proc g' rest (tl template_labels)
                      (tl templates_info) warping_window max_num_samples ;;
      Ok (r :: rs, g'')
  end.

(** [find_distance_thresholds]: [g] is the state of [np.random] at the call
    (overwritten by the seeding), [num_proc] the number of worker processes
    the machine gives.  The result is the four returned tuples and the state
    of the generator at the return. *)
Definition find_distance_thresholds (num_proc : Z) (g : rng)
  (templates : list (list series)) (template_labels : list (list (Z * Z)))
  (templates_info : list (list template_info_tuple))
  (warping_window : option F) (max_num_samples : Z) (seed : Z)
  : outcome (list F * list (list series) * list (list (Z * Z))
             * list (list template_info_tuple) * rng) :=
  let g0 := np_seed seed in
  '(rs, g') <- calibrate_groups num_proc g0 templates template_labels
                 templates_info warping_window max_num_samples ;;
  Ok (map threshold rs, map selected rs, map labels_selected rs,
      map info_selected rs, g').

End Calibration.

(** *** segmentation.py: the driver [segment_repeat_sequences] *)

(** The tracked best candidate [info_best]. *)
Record match_info : Type := {
  best_offset : Z;
  best_length : Z;
  best_distance : F;
  best_label : Z
}.

(** The variables of one scan of the offsets. *)
Record scan_state : Type := {
  offset : Z;
  info_best : match_info;
  matched : bool
}.

Inductive flow : Type :=
| Continue (st : scan_state)
| Break (st : scan_state).

Definition scan_start : scan_state :=
  {| offset := 0;
     info_best := {| best_offset := 0; best_length := 0;
                     best_distance := finf; best_label := 0 |};
     matched := false |}.

(** The test that ends a scan once a match is tracked. *)
Definition stop_early (offset : Z) (best : match_info) : bool :=
  (offset - best_offset best >? 10)
  || (offset - best_offset best >=? best_length best - 1).

(** The rejection test as the specification words it (section 8, label
    domain): the average distance exceeds the threshold of every group.  It
    is not what the driver computes (see [track]); it is kept to compare the
    two. *)
Definition exceeds_every_threshold (d_avg : F) (distance_thresholds : list F)
  : bool :=
  forallb (fun th => fltb th d_avg) distance_thresholds.

(** The state a [flow] carries. *)
Definition flow_state (fl : flow) : scan_state :=
  match fl with
  | Continue st => st
  | Break st => st
  end.

Section Driver.

Context {rng : Type}.

(** The length search on a suffix of the remainder, its other arguments
    fixed. *)
Variable search : rng -> series -> outcome (Z * F * Z * rng).
Variable distance_thresholds : list F.
Variable min_length : Z.
Variable offset_step : Z.
Variable approx : bool.

(** What one candidate [(m, d_avg, label)] at the current offset does to the
    tracked best (lines 558-574 of the source). *)
Definition track (st : scan_state) (m : Z) (d_avg : F) (label : Z)
  : outcome flow :=
  let candidate := {| best_offset := offset st; best_length := m;
                      best_distance := d_avg; best_label := label |} in
  th <- Py.index distance_thresholds (label - 1) ;;
  if fleb d_avg th then
    if matched st then
      if label =? best_label (info_best st) then
        if fltb d_avg (best_distance (info_best st))
        then Ok (Continue {| offset := offset st; info_best := candidate;
                             matched := true |})
        else Ok (Continue st)
      else Ok (Break st)
    else Ok (Continue {| offset := offset st; info_best := candidate;
                         matched := true |})
  else Ok (Continue st).

(** The advance of the offset and the early termination (lines 577-593). *)
Definition advance (st : scan_state) : flow :=
  let offset' :=
    if matched st then offset st + offset_step
    else if approx then offset st + 5 * offset_step
         else offset st + offset_step in
  let st' := {| offset := offset'; info_best := info_best st;
                matched := matched st |} in
  if matched st && stop_early offset' (info_best st) then Break st'
  else Continue st'.

(** One iteration of the inner [while]. *)
Definition scan_body (data_rem : series) (st : scan_state) (g : rng)
  : outcome (flow * rng) :=
  '(m, d_avg, label, g') <- search g (Py.slice_from data_rem (offset st)) ;;
  fl <- track st m d_avg label ;;
  match fl with
  | Break st' => Ok (Break st', g')
  | Continue st' => Ok (advance st', g')
  end.

(** The inner [while], run for at most [fuel] iterations. *)
Fixpoint scan_loop (fuel : nat) (data_rem : series) (st : scan_state) (g : rng)
  : outcome (scan_state * rng) :=
  if Z.of_nat (length data_rem) - offset st >? min_length then
    match fuel with
    | O => OutOfFuel
    | S fuel' =>
        '(fl, g') <- scan_body data_rem st g ;;
        match fl with
        | Break st' => Ok (st', g')
        | Continue st' => scan_loop fuel' data_rem st' g'
        end
    end
  else Ok (st, g).

(** The outer [while] and the trailing segment: the segments and labels
    appended from the remainder [data_rem] on, in order.  Each iteration
    spends one unit of [fuel] and hands the rest to its scan. *)
Fixpoint segment_loop (fuel : nat) (data_rem : series) (g : rng)
  : outcome (list series * list Z * rng) :=
  if Z.of_nat (length data_rem) >? min_length then
    match fuel with
    | O => OutOfFuel
    | S fuel' =>
        '(st, g') <- scan_loop fuel' data_rem scan_start g ;;
        if matched st then
          let offset := best_offset (info_best st) in
          let m := best_length (info_best st) in
          let label := best_label (info_best st) in
          '(segs, labels, g'') <-
            segment_loop fuel' (Py.slice_from data_rem (offset + m)) g' ;;
          let matched_seg := Py.slice data_rem offset (offset + m) in
          if offset >? 0
          then Ok (Py.slice_to data_rem offset :: matched_seg :: segs,
                   0 :: label :: labels, g'')
          else Ok (matched_seg :: segs, label :: labels, g'')
        else Ok ([data_rem], [0], g')
    end
  else
    if Z.of_nat (length data_rem) >? 0
    then Ok ([data_rem], [0], g)
    else Ok ([], [], g).

End Driver.

Section Segment.

Context {rng : Type} {RS : RandomSource rng}.

(** The call of [search_subsequence] the driver makes on a suffix of the
    remainder (lines 554-557): the lower bounds are in use. *)
Definition driver_search (templates_norm : list (list series))
  (templates_info : list (list template_info_tuple))
  (min_length max_length : Z) (normalize : bool) (warping_window : option F)
  (length_step : Z) (g : rng) (suffix : series)
  : outcome (Z * F * Z * rng) :=
  search_subsequence g suffix templates_norm templates_info min_length
    max_length normalize warping_window true length_step.

(** [segment_repeat_sequences], its two [while] loops run with the budget
    [fuel]; the generator state [g] is the state of [np.random] at the
    call. *)
Definition segment_repeat_sequences (fuel : nat) (g : rng) (data : series)
  (templates_norm : list (list series))
  (templates_info : list (list template_info_tuple))
  (distance_thresholds : list F) (length_stats : Z * Z * Z)
  (normalize : bool) (warping_window : option F)
  (length_step offset_step : Z) (approx : bool)
  : outcome (list series * list Z * rng) :=
  let '(min_length, median_length, max_length) := length_stats in
  segment_loop
    (driver_search templates_norm templates_info min_length max_length
       normalize warping_window length_step)
    distance_thresholds min_length offset_step approx fuel data g.

End Segment.

End Program.

Arguments point F : clear implicits.
Arguments series F : clear implicits.
Arguments template_info_tuple F : clear implicits.
Arguments match_info F : clear implicits.
Arguments scan_state F : clear implicits.
Arguments flow F : clear implicits.
Arguments group_result F : clear implicits.

(** *** segmentation.py: [normalize_templates] and [preprocess_templates] *)

(** [normalize_templates] ends with [int(...)] of floats, which raises
    [OverflowError] on an infinity: an exception the outcomes above do not
    name.  A result of the two functions is an outcome or that error. *)
Inductive py_result (A : Type) : Type :=
| Outcome (m : outcome A)
| RaiseOverflowError.

Arguments Outcome {A} m.
Arguments RaiseOverflowError {A}.

Definition bind_result {A B : Type} (m : py_result A) (k : A -> py_result B)
  : py_result B :=
  match m with
  | Outcome (Ok a) => k a
  | Outcome (Raise e) => Outcome (Raise e)
  | Outcome OutOfFuel => Outcome OutOfFuel
  | RaiseOverflowError => RaiseOverflowError
  end.

(** What [preprocess_templates] returns: the entries of its dictionary. *)
Record preprocessed (F : Type) : Type := {
  result_templates_normalized : list (list (series F));
  result_template_labels : list (list (Z * Z));
  result_templates_info : list (list (template_info_tuple F));
  result_distance_thresholds : list F;
  result_length_stats : Z * Z * Z
}.

Arguments result_templates_normalized {F} p.
Arguments result_template_labels {F} p.
Arguments result_templates_info {F} p.
Arguments result_distance_thresholds {F} p.
Arguments result_length_stats {F} p.

Section Preprocessing.

Context {F : Type} {AR : Arith F}.

(** [np.floor] and [np.ceil], which return floats: NaN and the infinities
    are kept. *)
Definition np_floor (x : F) : F :=
  if isfinite x then of_int (floor_int x) else x.

Definition np_ceil (x : F) : F :=
  if isfinite x then of_int (ceil_int x) else x.

(** [x / y] for Python floats: a zero divisor raises. *)
Definition py_float_div (x y : F) : outcome F :=
  if fleb y fzero && fleb fzero y then Raise ZeroDivisionError
  else Ok (fdiv x y).

(** [int(x)] of a float: truncation toward zero; NaN raises [ValueError]
    and an infinity [OverflowError]. *)
Definition py_int (x : F) : py_result Z :=
  if isfinite x
  then Outcome (Ok (if fltb x fzero then ceil_int x else floor_int x))
  else if fisnan x then Outcome (Raise ValueError) else RaiseOverflowError.

(** [v > max_length] for the running [max_length], which starts at
    [-np.inf]: [None] stands for that value, which the arithmetic does not
    name; every float but NaN and [-inf] is above it. *)
Definition above_running (v : F) (max_length : option F) : bool :=
  match max_length with
  | Some m => fltb m v
  | None => negb (fisnan v) && negb (fltb v fzero && negb (isfinite v))
  end.

(** The two values [v] of one action (lines 415-423): from the percentiles
    0, 50 and 100 of the lengths of its templates. *)
Definition group_length_bounds (alpha : F) (t : list (series F))
  : outcome (F * F) :=
  let len_arr := map (fun a => of_int (Z.of_nat (length a))) t in
  p0 <- np_percentile len_arr 0 ;;
  p50 <- np_percentile len_arr 50 ;;
  p100 <- np_percentile len_arr 100 ;;
  let v_min := pymin p0 (pymax (of_int 2) (np_floor (fmul alpha p50))) in
  inv <- py_float_div fone alpha ;;
  let v_max := pymax p100 (np_ceil (fmul inv p50)) in
  Ok (v_min, v_max).

(** Modelled from the spec: [scipy.stats.zscore] belongs to scipy and is not
    part of the sources; Section 4.4 of the specification has every template
    z-score-normalized on its own points.  It is a parameter of the two
    functions below. *)
Variable zscore : series F -> series F.

(** The template [arr] stored for a template and its summary; [np.min] of
    an array without rows raises. *)
Definition normalize_template (normalize : bool) (a : series F)
  : outcome (series F * template_info_tuple F) :=
  let arr := if normalize then zscore a else a in
  match arr with
  | [] => Raise ValueError
  | _ :: _ => Ok (arr, template_info_of arr)
  end.

(** The variables of the loop over the actions: [min_length], [max_length],
    [templates_norm], [templates_info] and [templates_length]. *)
Definition normalize_state : Type :=
  F * option F * list (list (series F))
  * list (list (template_info_tuple F)) * list Z.

Definition normalize_step (alpha : F) (normalize : bool)
  (st : normalize_state) (t : list (series F)) : outcome normalize_state :=
  let '(min_length, max_length, templates_norm, templates_info,
        templates_length) := st in
  '(v_min, v_max) <- group_length_bounds alpha t ;;
  let min_length := if fltb v_min min_length then v_min else min_length in
  let max_length := if above_running v_max max_length then Some v_max
                    else max_length in
  pairs <- mapM (normalize_template normalize) t ;;
  Ok (min_length, max_length, templates_norm ++ [map fst pairs],
      templates_info ++ [map snd pairs],
      templates_length ++ map (fun a => Z.of_nat (length a)) t).

Definition normalize_templates (templates : list (list (series F)))
  (alpha : F) (normalize : bool)
  : py_result (list (list (series F)) * list (list (template_info_tuple F))
               * (Z * Z * Z)) :=
  bind_result
    (Outcome (foldM (normalize_step alpha normalize) templates
                (finf, None, [], [], [])))
    (fun '(min_length, max_length, templates_norm, templates_info,
           templates_length) =>
       bind_result (py_int min_length) (fun min_length =>
       bind_result (Outcome (np_percentile (map of_int templates_length) 50))
         (fun median =>
       bind_result (py_int median) (fun median_length =>
       bind_result (match max_length with
                    | Some m => py_int m
                    | None => RaiseOverflowError
                    end) (fun max_length =>
       Outcome (Ok (templates_norm, templates_info,
                    (min_length, median_length, max_length)))))))).

Context {rng : Type} {RS : RandomSource rng}.

(** [preprocess_templates], without the optional dump of the results to a
    file; [num_proc] and [g] are as for [find_distance_thresholds], which is
    called with its default [max_num_samples] and [seed]. *)
Definition preprocess_templates (num_proc : Z) (g : rng)
  (templates : list (list (series F))) (template_labels : list (list (Z * Z)))
  (normalize : bool) (warping_window : option F) (alpha : F)
  : py_result (preprocessed F * rng) :=
  bind_result (normalize_templates templates alpha normalize)
    (fun '(templates_norm, templates_info, length_stats) =>
       Outcome
         (bind
            (find_distance_thresholds num_proc g templates_norm
               template_labels templates_info warping_window 10000 1234)
            (fun '(distance_thresholds, templates_norm_selected,
                   template_labels_selected, templates_info_selected, g') =>
               Ok ({| result_templates_normalized := templates_norm_selected;
                      result_template_labels := template_labels_selected;
                      result_templates_info := templates_info_selected;
                      result_distance_thresholds := distance_thresholds;
                      result_length_stats := length_stats |}, g')))).

End Preprocessing.

(** ** Small inputs, used to exercise the statements of the properties *)

(** The generator that never shuffles: [np.random.permutation(n)] is
    [range(n)]. *)
#[export] Instance Unshuffled : RandomSource unit := {|
  np_seed := fun _ => tt;
  np_permutation := fun _ n => (seq 0 n, tt)
|}.

Module Example.

Definition f (z : Z) : PrimFloat.float := float_of_Z z.

(** A one-dimensional series from its integer values. *)
Definition col (l : list Z) : series PrimFloat.float := map (fun z => [f z]) l.

(** One action with the single template 0, 1, 0, its threshold 0.1, and a
    series with two repetitions of the action. *)
Definition templates : list (list (series PrimFloat.float)) :=
  [[col [0; 1; 0]]].

Definition data : series PrimFloat.float := col [0; 1; 0; 0; 1; 0; 5; 5].

Definition thresholds : list PrimFloat.float := [PrimFloat.div (f 1) (f 10)].

(** One action with the single template 0, 2, 0 and the threshold 0.2. *)
Definition bump : list (list (series PrimFloat.float)) := [[col [0; 2; 0]]].

Definition bump_thresholds : list PrimFloat.float :=
  [PrimFloat.div (f 2) (f 10)].

(** The length search of the driver for the action [bump], lengths 2 to
    [max_length], no normalization, no warping window. *)
Definition bump_search (max_length : Z)
  : list (list nat) -> series PrimFloat.float
    -> outcome (Z * PrimFloat.float * Z * list (list nat)) :=
  driver_search bump (templates_info_of bump) 2 max_length false None 1.

(** A series whose best match at offset 0 is beaten at offset 1. *)
Definition shifted : series PrimFloat.float := col [1; 0; 2; 0; 9; 9].

(** The scan of [shifted] after its first iteration: the candidate of
    length 4 and distance 1/7 at offset 0 is tracked. *)
Definition shifted_state : scan_state PrimFloat.float :=
  {| offset := 1;
     info_best := {| best_offset := 0; best_length := 4;
                     best_distance := PrimFloat.div (f 1) (f 7);
                     best_label := 1 |};
     matched := true |}.

(** A series with an exact occurrence of the action at offset 2, after an
    inexact one at offset 0. *)
Definition late : series PrimFloat.float := col [0; 1; 0; 2; 0; 9].

(** Two actions, the thresholds 0.01 and 100, and a short series. *)
Definition two_actions : list (list (series PrimFloat.float)) :=
  [[col [0; 1; 0]]; [col [5; 5; 5]]].

Definition two_thresholds : list PrimFloat.float :=
  [PrimFloat.div (f 1) (f 100); f 100].

Definition short : series PrimFloat.float := col [0; 2; 0].

(** Three points whose squares overflow. *)
Definition huge : series PrimFloat.float :=
  col [10 ^ 200; 10 ^ 200; 10 ^ 200].

(** One action with four templates, two of each sub-category. *)
Definition quartet : list (list (series PrimFloat.float)) :=
  [[col [0; 2; 0]; col [0; 1; 0]; col [0; 2; 1; 0]; col [0; 3; 0]]].

Definition quartet_labels : list (list (Z * Z)) :=
  [[(1, 0); (1, 0); (1, 1); (1, 1)]].

(** One action whose only template is the single point 1, a candidate that
    is the single point 0, and the series 0, 2.5. *)
Definition dot : list (list (series PrimFloat.float)) := [[col [1]]].

Definition origin : series PrimFloat.float := col [0].

Definition rise : series PrimFloat.float :=
  [[f 0]; [PrimFloat.div (f 5) (f 2)]].

End Example.

(** * Properties *)

(** ** Slices and monadic folds *)

Lemma clip_range (len i : Z) : 0 <= len -> 0 <= Py.clip len i <= len.
Proof. unfold Py.clip; destruct (i <? 0) eqn:E; lia. Qed.

Lemma clip_nonneg (len i : Z) : 0 <= i -> Py.clip len i = Z.min i len.
Proof. unfold Py.clip; destruct (i <? 0) eqn:E; lia. Qed.

Lemma slice_to_from {A : Type} (l : list A) (b : Z) :
  Py.slice_to l b ++ Py.slice_from l b = l.
Proof. unfold Py.slice_to, Py.slice_from. apply firstn_skipn. Qed.

Lemma slice_from_0 {A : Type} (l : list A) : Py.slice_from l 0 = l.
Proof.
  unfold Py.slice_from. rewrite clip_nonneg by lia.
  now replace (Z.to_nat (Z.min 0 (Z.of_nat (length l)))) with 0%nat by lia.
Qed.

Lemma slice_0 {A : Type} (l : list A) (b : Z) :
  Py.slice l 0 b = Py.slice_to l b.
Proof.
  unfold Py.slice, Py.slice_to.
  replace (Py.clip (Z.of_nat (length l)) 0) with 0
    by (rewrite clip_nonneg; lia).
  simpl. now rewrite Z.sub_0_r.
Qed.

(** [x[:o] + x[o:o+m] + x[o+m:] = x] when neither [o] nor [m] is negative. *)
Lemma slice_three {A : Type} (l : list A) (o m : Z) :
  0 <= o -> 0 <= m ->
  Py.slice_to l o ++ Py.slice l o (o + m) ++ Py.slice_from l (o + m) = l.
Proof.
  intros Ho Hm. unfold Py.slice_to, Py.slice, Py.slice_from.
  set (len := Z.of_nat (length l)).
  assert (Hlen : 0 <= len) by (unfold len; lia).
  rewrite !clip_nonneg by lia.
  set (a := Z.to_nat (Z.min o len)).
  set (b := Z.to_nat (Z.min (o + m) len)).
  assert (Hab : (a <= b)%nat) by (unfold a, b; lia).
  replace (Z.to_nat (Z.min (o + m) len - Z.min o len)) with (b - a)%nat
    by (unfold a, b; lia).
  rewrite <- (firstn_skipn a l) at 4.
  f_equal.
  rewrite <- (firstn_skipn (b - a) (skipn a l)) at 2.
  f_equal. rewrite skipn_skipn. f_equal. lia.
Qed.

Lemma slice_from_length {A : Type} (l : list A) (a : Z) :
  0 <= a ->
  Z.of_nat (length (Py.slice_from l a)) = Z.max 0 (Z.of_nat (length l) - a).
Proof.
  intros Ha. unfold Py.slice_from. rewrite length_skipn, clip_nonneg by lia. lia.
Qed.

Lemma slice_to_length {A : Type} (l : list A) (b : Z) :
  0 <= b ->
  Z.of_nat (length (Py.slice_to l b)) = Z.min b (Z.of_nat (length l)).
Proof.
  intros Hb. unfold Py.slice_to. rewrite length_firstn, clip_nonneg by lia. lia.
Qed.

Lemma bind_ok {A B : Type} (m : outcome A) (k : A -> outcome B) (b : B) :
  bind m k = Ok b -> exists a, m = Ok a /\ k a = Ok b.
Proof. destruct m; simpl; intros H; try discriminate. eauto. Qed.

(** A fold whose body succeeds and keeps an invariant succeeds and keeps
    it. *)
Lemma foldM_invariant {A B : Type} (P : B -> Prop) (f : B -> A -> outcome B)
  (l : list A) :
  (forall b x, In x l -> P b -> exists b', f b x = Ok b' /\ P b') ->
  forall b, P b -> exists b', foldM f l b = Ok b' /\ P b'.
Proof.
  induction l as [|x t IH]; intros Hf b Hb; simpl.
  - eauto.
  - destruct (Hf b x (or_introl eq_refl) Hb) as (b1 & E & H1).
    rewrite E. simpl. apply IH; [|exact H1].
    intros b2 y Hy. apply Hf. now right.
Qed.

Lemma index_ok {A : Type} (l : list A) (i : Z) :
  - Z.of_nat (length l) <= i < Z.of_nat (length l) ->
  exists x, Py.index l i = Ok x.
Proof.
  intros H. unfold Py.index.
  set (j := if i <? 0 then i + Z.of_nat (length l) else i).
  assert (Hj : 0 <= j < Z.of_nat (length l))
    by (unfold j; destruct (i <? 0) eqn:E; lia).
  replace ((0 <=? j) && (j <? Z.of_nat (length l))) with true
    by (symmetry; apply andb_true_iff; split; lia).
  destruct (nth_error l (Z.to_nat j)) eqn:E; eauto.
  apply nth_error_None in E. lia.
Qed.

(** ** The driver, for an arbitrary length search *)

Section DriverProperties.

Context {F : Type} {AR : Arith F} {rng : Type}.

Variable search : rng -> series F -> outcome (Z * F * Z * rng).
Variable distance_thresholds : list F.
Variable min_length : Z.
Variable offset_step : Z.
Variable approx : bool.

(** The number of action groups. *)
Variable K : Z.

Hypothesis min_length_pos : 1 <= min_length.
Hypothesis offset_step_pos : 1 <= offset_step.
Hypothesis thresholds_cover : 1 <= K <= Z.of_nat (length distance_thresholds).

(** On a non-empty series the search returns a length of at least one point
    and a label between 0 and [K]. *)
Hypothesis search_total :
  forall g s, s <> [] ->
  exists m d label g',
    search g s = Ok (m, d, label, g') /\ 1 <= m /\ 0 <= label <= K.

(** A candidate the driver accepted at the head of [data]: the search
    returned [(m, d, label)] there, and [d] is within the threshold of the
    group [label] names; [seg] is the span of the candidate. *)
Definition accepted_candidate (data seg : series F) (label : Z) : Prop :=
  exists g g' m d th,
    search g data = Ok (m, d, label, g')
    /\ Py.index distance_thresholds (label - 1) = Ok th
    /\ fleb d th = true
    /\ 1 <= m
    /\ seg = Py.slice_to data m.

(** What a scan keeps true of its state. *)
Definition scan_invariant (data_rem : series F) (st : scan_state F) : Prop :=
  0 <= offset st
  /\ (matched st = true ->
      0 <= best_offset (info_best st) <= offset st
      /\ 1 <= best_length (info_best st)
      /\ 0 <= best_label (info_best st) <= K
      /\ accepted_candidate
           (Py.slice_from data_rem (best_offset (info_best st)))
           (Py.slice_to (Py.slice_from data_rem (best_offset (info_best st)))
                        (best_length (info_best st)))
           (best_label (info_best st))).

Lemma threshold_lookup (label : Z) :
  0 <= label <= K ->
  exists th, Py.index distance_thresholds (label - 1) = Ok th.
Proof. intros H. apply index_ok. lia. Qed.

Lemma advance_offset (st : scan_state F) (st' : scan_state F) :
  advance offset_step approx st = Continue st' \/
  advance offset_step approx st = Break st' ->
  offset st + 1 <= offset st'
  /\ info_best st' = info_best st /\ matched st' = matched st.
Proof.
  unfold advance.
  assert (H5 : offset_step <= 5 * offset_step) by lia.
  revert H5. generalize (5 * offset_step). intros o5 H5.
  destruct (matched st && stop_early _ _);
    intros [H|H]; try discriminate H; injection H as <-;
    cbn [offset info_best matched];
    (split; [destruct (matched st), approx; lia | split; reflexivity]).
Qed.

(** One iteration of the scan succeeds, keeps the invariant, and moves the
    offset forward unless it breaks. *)
Lemma scan_body_spec (data_rem : series F) (st : scan_state F) (g : rng) :
  scan_invariant data_rem st ->
  Z.of_nat (length data_rem) - offset st > min_length ->
  exists fl g',
    scan_body search distance_thresholds offset_step approx data_rem st g
    = Ok (fl, g')
    /\ match fl with
       | Continue st' => scan_invariant data_rem st'
                         /\ offset st + 1 <= offset st'
       | Break st' => scan_invariant data_rem st'
       end.
Proof.
  intros Hinv Hlen. pose proof Hinv as (Hoff & Hbest). unfold scan_body.
  assert (Hne : Py.slice_from data_rem (offset st) <> []).
  { intros E. apply (f_equal (@length _)) in E.
    apply (f_equal Z.of_nat) in E. rewrite slice_from_length in E by lia.
    simpl in E. lia. }
  destruct (search_total g Hne) as (m & d & label & g' & Es & Hm & Hl).
  rewrite Es. simpl.
  destruct (threshold_lookup Hl) as (th & Eth).
  unfold track. rewrite Eth. simpl.
  assert (Hnew : scan_invariant data_rem
                   {| offset := offset st;
                      info_best := {| best_offset := offset st;
                                      best_length := m;
                                      best_distance := d;
                                      best_label := label |};
                      matched := true |} \/ fleb d th = false).
  { destruct (fleb d th) eqn:Ele; [left|now right].
    split; simpl; [exact Hoff|]. intros _.
    repeat split; try lia.
    exists g, g', m, d, th. repeat split; assumption. }
  assert (Hadv : forall s, scan_invariant data_rem s -> offset s = offset st ->
                 exists fl,
                   advance offset_step approx s = fl
                   /\ match fl with
                      | Continue st' => scan_invariant data_rem st'
                                        /\ offset st + 1 <= offset st'
                      | Break st' => scan_invariant data_rem st'
                      end).
  { intros s (Hs1 & Hs2) Eo. eexists; split; [reflexivity|].
    destruct (advance offset_step approx s) as [s'|s'] eqn:Ea.
    - destruct (@advance_offset s s' (or_introl Ea)) as (H1 & H2 & H3).
      split; [|lia]. split; [lia|]. rewrite H3, H2. intros Hm'.
      destruct (Hs2 Hm') as (Ha & Hb & Hc & Hd). repeat split; try lia; assumption.
    - destruct (@advance_offset s s' (or_intror Ea)) as (H1 & H2 & H3).
      split; [lia|]. rewrite H3, H2. intros Hm'.
      destruct (Hs2 Hm') as (Ha & Hb & Hc & Hd). repeat split; try lia; assumption. }
  destruct (fleb d th) eqn:Ele.
  - destruct Hnew as [Hnew|]; [|discriminate].
    destruct (matched st) eqn:Em.
    + destruct (label =? best_label (info_best st)) eqn:El.
      * destruct (fltb d (best_distance (info_best st))); simpl.
        -- destruct (Hadv _ Hnew eq_refl) as (fl & E & H). subst fl.
           eexists _, g'. split; [reflexivity|exact H].
        -- destruct (Hadv st Hinv eq_refl) as (fl & E & H).
           subst fl. eexists _, g'. split; [reflexivity|exact H].
      * simpl. eexists _, g'. split; [reflexivity|]. exact Hinv.
    + simpl. destruct (Hadv _ Hnew eq_refl) as (fl & E & H). subst fl.
      eexists _, g'. split; [reflexivity|exact H].
  - simpl. destruct (Hadv st Hinv eq_refl) as (fl & E & H).
    subst fl. eexists _, g'. split; [reflexivity|exact H].
Qed.

(** A scan given one unit of fuel per point it may still visit ends, and
    its final state satisfies the invariant. *)
Lemma scan_loop_spec (data_rem : series F) :
  forall (fuel : nat) (st : scan_state F) (g : rng),
    scan_invariant data_rem st ->
    Z.of_nat (length data_rem) - offset st - min_length <= Z.of_nat fuel ->
    exists st' g',
      scan_loop search distance_thresholds min_length offset_step approx
        fuel data_rem st g = Ok (st', g')
      /\ scan_invariant data_rem st'.
Proof.
  induction fuel as [|fuel IH]; intros st g Hinv Hfuel.
  - simpl. destruct (Z.of_nat (length data_rem) - offset st >? min_length) eqn:E.
    + lia.
    + eauto.
  - simpl. destruct (Z.of_nat (length data_rem) - offset st >? min_length) eqn:E.
    + destruct (@scan_body_spec data_rem st g Hinv) as (fl & g' & Eb & H);
        [lia|].
      rewrite Eb. simpl. destruct fl as [st'|st'].
      * destruct H as (H1 & H2). apply IH; [exact H1|lia].
      * eauto.
    + eauto.
Qed.

Lemma scan_start_invariant (data_rem : series F) :
  scan_invariant data_rem scan_start.
Proof. split; simpl; [lia|discriminate]. Qed.


(** The returned segments and labels, read against the data they cut: each
    label is between 0 and [K], and a segment with another label than 0 is
    the span of an accepted candidate. *)
Fixpoint labelled (data : series F) (segs : list (series F)) (labels : list Z)
  : Prop :=
  match segs, labels with
  | [], [] => True
  | seg :: segs', label :: labels' =>
      0 <= label <= K
      /\ (label <> 0 -> accepted_candidate data seg label)
      /\ labelled (skipn (length seg) data) segs' labels'
  | _, _ => False
  end.

Lemma skipn_slice_to (l : series F) (b : Z) :
  skipn (length (Py.slice_to l b)) l = Py.slice_from l b.
Proof.
  unfold Py.slice_to, Py.slice_from. rewrite length_firstn. f_equal.
  pose proof (@clip_range (Z.of_nat (length l)) b). lia.
Qed.

Lemma slice_from_from (l : series F) (o m : Z) :
  0 <= o -> 0 <= m ->
  Py.slice_from (Py.slice_from l o) m = Py.slice_from l (o + m).
Proof.
  intros Ho Hm. unfold Py.slice_from at 1 3.
  rewrite slice_from_length by lia.
  unfold Py.slice_from. rewrite skipn_skipn, !clip_nonneg by lia.
  f_equal. lia.
Qed.

Lemma slice_of_suffix (l : series F) (o m : Z) :
  0 <= o -> 0 <= m ->
  Py.slice l o (o + m) = Py.slice_to (Py.slice_from l o) m.
Proof.
  intros Ho Hm. unfold Py.slice, Py.slice_to.
  rewrite slice_from_length by lia.
  unfold Py.slice_from. rewrite !clip_nonneg by lia.
  set (len := Z.of_nat (length l)).
  assert (0 <= len) by (unfold len; lia).
  destruct (Z.le_gt_cases o len).
  - f_equal. lia.
  - rewrite !skipn_all2 by lia. now rewrite !firstn_nil.
Qed.

(** The segmentation of a remainder, given one unit of fuel per point:
    it returns, its segments concatenate to the remainder, and its labels
    are as [labelled] says. *)
Lemma segment_loop_spec :
  forall (fuel : nat) (data_rem : series F) (g : rng),
    (length data_rem <= fuel)%nat ->
    exists segs labels g',
      segment_loop search distance_thresholds min_length offset_step approx
        fuel data_rem g = Ok (segs, labels, g')
      /\ concat segs = data_rem
      /\ length labels = length segs
      /\ labelled data_rem segs labels.
Proof.
  induction fuel as [|fuel IH]; intros data_rem g Hfuel.
  - destruct data_rem; [|simpl in Hfuel; lia].
    simpl. replace (0 >? min_length) with false by lia.
    exists [], [], g. repeat split.
  - simpl.
    destruct (Z.of_nat (length data_rem) >? min_length) eqn:Elen.
    + destruct (@scan_loop_spec data_rem fuel scan_start g
                  (scan_start_invariant data_rem)) as (st & g' & Es & Hinv).
      { simpl. lia. }
      rewrite Es. simpl. destruct (matched st) eqn:Em.
      * destruct Hinv as (Hoff & Hbest).
        destruct (Hbest Em) as ((Ho1 & Ho2) & Hm & Hlab & Hacc).
        set (o := best_offset (info_best st)) in *.
        set (m := best_length (info_best st)) in *.
        set (label := best_label (info_best st)) in *.
        destruct (IH (Py.slice_from data_rem (o + m)) g')
          as (segs & labels & g'' & Er & Hcat & Hlen & Hlabelled).
        { apply Nat2Z.inj_le. rewrite slice_from_length by lia. lia. }
        rewrite Er. simpl.
        rewrite slice_of_suffix by lia.
        destruct (o >? 0) eqn:Eo.
        -- eexists _, _, g''. split; [reflexivity|].
           split; [|split].
           ++ simpl. rewrite Hcat, <- slice_of_suffix by lia.
              apply slice_three; lia.
           ++ simpl. now rewrite Hlen.
           ++ simpl. split; [lia|]. split; [congruence|].
              rewrite skipn_slice_to.
              split; [exact Hlab|]. split; [intros _; exact Hacc|].
              rewrite skipn_slice_to, slice_from_from by lia. exact Hlabelled.
        -- assert (o = 0) by lia.
           eexists _, _, g''. split; [reflexivity|].
           assert (E0 : Py.slice_from data_rem o = data_rem)
             by (replace o with 0; apply slice_from_0).
           split; [|split].
           ++ simpl. rewrite Hcat, E0.
              replace (o + m) with m by lia. apply slice_to_from.
           ++ simpl. now rewrite Hlen.
           ++ simpl. rewrite E0 in *.
              split; [exact Hlab|]. split; [intros _; exact Hacc|].
              rewrite skipn_slice_to. replace m with (o + m) by lia.
              exact Hlabelled.
      * exists [data_rem], [0], g'. split; [reflexivity|].
        split; [simpl; apply app_nil_r|]. split; [reflexivity|].
        simpl. split; [lia|]. split; [congruence|].
        exact I.
    + destruct (Z.of_nat (length data_rem) >? 0) eqn:E0.
      * exists [data_rem], [0], g. split; [reflexivity|].
        split; [simpl; apply app_nil_r|]. split; [reflexivity|].
        simpl. split; [lia|]. split; [congruence|].
        exact I.
      * exists [], [], g. split; [reflexivity|].
        destruct data_rem; [repeat split|].
        exfalso. rewrite Z.gtb_ltb in E0. apply Z.ltb_ge in E0.
        change (length (p :: data_rem)) with (S (length data_rem)) in E0. lia.
Qed.


(** No candidate of [data] is acceptable: wherever the search is run on a
    suffix of [data], the distance it returns is not within the threshold of
    the group it names. *)
Definition rejected_everywhere (data : series F) : Prop :=
  forall o g m d label g' th,
    0 <= o ->
    search g (Py.slice_from data o) = Ok (m, d, label, g') ->
    Py.index distance_thresholds (label - 1) = Ok th ->
    fleb d th = false.

Lemma scan_unmatched (data : series F) :
  rejected_everywhere data ->
  forall (fuel : nat) (st st' : scan_state F) (g g' : rng),
    0 <= offset st -> matched st = false ->
    scan_loop search distance_thresholds min_length offset_step approx
      fuel data st g = Ok (st', g') ->
    matched st' = false.
Proof.
  intros Hrej. induction fuel as [|fuel IH]; intros st st' g g' Hoff Hm; simpl;
    destruct (Z.of_nat (length data) - offset st >? min_length);
    try discriminate; try (intros E; injection E as <- <-; exact Hm).
  intros E. apply bind_ok in E. destruct E as ((fl & g1) & Eb & E).
  unfold scan_body in Eb. apply bind_ok in Eb.
  destruct Eb as ((((m & d) & label) & g2) & Es & Eb).
  apply bind_ok in Eb. destruct Eb as (fl' & Et & Eb).
  unfold track in Et. apply bind_ok in Et. destruct Et as (th & Eth & Et).
  rewrite (Hrej _ _ _ _ _ _ _ Hoff Es Eth) in Et. injection Et as <-.
  injection Eb as <- <-.
  unfold advance in E. rewrite Hm in E. cbn [andb] in E.
  eapply IH; [| |exact E]; cbn [offset matched]; [|reflexivity].
  destruct approx; lia.
Qed.

(** A non-empty series without an acceptable candidate comes back whole, as
    one segment of label 0. *)
Lemma segment_loop_unmatched (data : series F) (fuel : nat) (g : rng) :
  rejected_everywhere data -> data <> [] -> (length data <= fuel)%nat ->
  exists g',
    segment_loop search distance_thresholds min_length offset_step approx
      fuel data g = Ok ([data], [0], g').
Proof.
  intros Hrej Hne Hfuel. destruct fuel as [|fuel].
  - destruct data; [congruence|simpl in Hfuel; lia].
  - simpl. destruct (Z.of_nat (length data) >? min_length) eqn:Elen.
    + destruct (@scan_loop_spec data fuel scan_start g
                  (scan_start_invariant data)) as (st & g' & Es & Hinv).
      { simpl. lia. }
      rewrite Es. simpl.
      rewrite (@scan_unmatched data Hrej fuel scan_start st g g');
        [eauto|simpl; lia|reflexivity|exact Es].
    + destruct (Z.of_nat (length data) >? 0) eqn:E0; [eauto|].
      destruct data; [congruence|]. exfalso.
      rewrite Z.gtb_ltb in E0. apply Z.ltb_ge in E0.
      change (length (p :: data)) with (S (length data)) in E0. lia.
Qed.

End DriverProperties.

(** ** The length search returns *)

Lemma foldM_total {A B : Type} (f : B -> A -> outcome B) (l : list A) :
  (forall b x, In x l -> exists b', f b x = Ok b') ->
  forall b, exists b', foldM f l b = Ok b'.
Proof.
  intros Hf b.
  destruct (@foldM_invariant A B (fun _ => True) f l) with (b := b)
    as (b' & E & _); [|exact I|eauto].
  intros b0 x Hx _. destruct (Hf b0 x Hx) as (b1 & E). eauto.
Qed.

Lemma In_combine_map {A B : Type} (f : A -> B) (l : list A) (a : A) (b : B) :
  In (a, b) (combine l (map f l)) -> In a l /\ b = f a.
Proof.
  induction l as [|x t IH]; simpl; [tauto|].
  intros [E|H]; [injection E as <- <-; auto|]. destruct (IH H). auto.
Qed.

Section SearchProperties.

Context {F : Type} {AR : Arith F}.

Lemma div_int_ok (x : F) (n : Z) :
  n <> 0 -> div_int x n = Ok (fdiv x (of_int n)).
Proof. intros H. unfold div_int. now apply Z.eqb_neq in H as ->. Qed.

Lemma length_pos (A : Type) (l : list A) : l <> [] -> 1 <= Z.of_nat (length l).
Proof. destruct l; [congruence|]. simpl length. lia. Qed.

Lemma group_distance_total (sequence : series F) (t : list (series F))
  (warping_window : option F) :
  sequence <> [] ->
  exists v, group_distance_sum sequence t warping_window = Ok v.
Proof.
  intros Hs. unfold group_distance_sum. apply foldM_total.
  intros v temp _. rewrite div_int_ok.
  - simpl. eauto.
  - pose proof (length_pos Hs). lia.
Qed.

(** The loop over the groups returns; the label it returns is the one it
    started with or the number of a group it went through. *)
Lemma average_distance_loop_spec (sequence : series F)
  (warping_window : option F) :
  sequence <> [] ->
  forall (templates : list (list (series F))) (i : Z) (val_min : F) (label : Z),
    Forall (fun t => t <> []) templates ->
    exists v l,
      average_distance_loop sequence templates warping_window i val_min label
      = Ok (v, l)
      /\ ((v = val_min /\ l = label)
          \/ i + 1 <= l <= i + Z.of_nat (length templates)).
Proof.
  intros Hs. induction templates as [|t rest IH]; intros i val_min label Hne.
  - simpl. exists val_min, label. split; [reflexivity|now left].
  - inversion Hne as [|? ? Ht Hrest]; subst. cbn [average_distance_loop].
    destruct (@group_distance_total sequence t warping_window Hs) as (v & E).
    rewrite E. cbn [bind]. rewrite div_int_ok by (pose proof (length_pos Ht); lia).
    cbn [bind]. cbn [length]. destruct (fltb _ val_min).
    + destruct (IH (i + 1) (fdiv v (of_int (Z.of_nat (length t)))) (i + 1) Hrest)
        as (v' & l' & E' & H).
      exists v', l'. split; [exact E'|]. right. destruct H as [[_ ->]|H]; lia.
    + destruct (IH (i + 1) val_min label Hrest) as (v' & l' & E' & H).
      exists v', l'. split; [exact E'|]. destruct H as [H|H]; [now left|right; lia].
Qed.

Variable templates : list (list (series F)).

Hypothesis groups_nonempty : Forall (fun t => t <> []) templates.

Lemma group_length (t : list (series F)) :
  In t templates -> Z.of_nat (length t) <> 0.
Proof.
  intros Ht. rewrite Forall_forall in groups_nonempty.
  pose proof (length_pos (groups_nonempty _ Ht)). lia.
Qed.

Lemma lb1_total (sequence : series F) :
  sequence <> [] ->
  exists b,
    average_lb_distance_to_templates1 sequence (templates_info_of templates)
    = Ok b.
Proof.
  intros Hs. unfold average_lb_distance_to_templates1.
  apply foldM_total. intros b t Ht.
  unfold templates_info_of in Ht. apply in_map_iff in Ht.
  destruct Ht as (t0 & <- & Ht0).
  match goal with |- context [foldM ?f ?l ?b0] =>
    destruct (@foldM_total _ _ f l) with (b := b0) as (v & E) end.
  - intros v temp Htemp. apply in_map_iff in Htemp.
    destruct Htemp as (arr & <- & _). rewrite div_int_ok.
    + simpl. eauto.
    + simpl. pose proof (length_pos Hs). lia.
  - rewrite E. simpl. unfold close_group. rewrite div_int_ok.
    + simpl. eauto.
    + rewrite length_map. now apply group_length.
Qed.

Lemma lb2_total (sequence : series F) :
  sequence <> [] ->
  exists b,
    average_lb_distance_to_templates2 sequence templates
      (templates_info_of templates) = Ok b.
Proof.
  intros Hs. unfold average_lb_distance_to_templates2.
  apply foldM_total. intros b (t & ti) Ht.
  apply In_combine_map in Ht. destruct Ht as (Ht & ->). cbn [fst snd].
  match goal with |- context [foldM ?f ?l ?b0] =>
    destruct (@foldM_total _ _ f l) with (b := b0) as (v & E) end.
  - intros v (temp & info) Htemp. apply In_combine_map in Htemp.
    destruct Htemp as (_ & ->). cbn [fst snd].
    assert (Hn : Z.of_nat (length sequence)
                 + info_length (template_info_of temp) <> 0).
    { simpl. pose proof (length_pos Hs). lia. }
    rewrite !div_int_ok by exact Hn. simpl. eauto.
  - rewrite E. simpl. unfold close_group. rewrite div_int_ok.
    + simpl. eauto.
    + now apply group_length.
Qed.


Hypothesis some_group : templates <> [].

Lemma average_distance_total (sequence : series F) (warping_window : option F) :
  sequence <> [] ->
  exists d l,
    average_distance_to_templates sequence templates warping_window = Ok (d, l)
    /\ 1 <= l <= Z.of_nat (length templates).
Proof.
  intros Hs. unfold average_distance_to_templates.
  destruct (@average_distance_loop_spec sequence warping_window Hs templates
              0 finf 1 groups_nonempty) as (v & l & E & H).
  exists v, l. split; [exact E|].
  pose proof (length_pos some_group). destruct H as [[_ ->]|H]; lia.
Qed.

(** One candidate length either leaves the best triple alone or replaces it
    by the candidate, whose label is then the number of a group. *)
Lemma search_body_spec (warping_window : option F) (use_lower_bounds : bool)
  (sequence_norm : series F) (m : Z) (st : Z * F * Z) :
  sequence_norm <> [] ->
  exists st',
    search_body templates (templates_info_of templates) warping_window
      use_lower_bounds sequence_norm m st = Ok st'
    /\ (st' = st
        \/ exists d l,
             average_distance_to_templates sequence_norm templates
               warping_window = Ok (d, l)
             /\ 1 <= l <= Z.of_nat (length templates)
             /\ fltb d (snd (fst st)) = true
             /\ st' = (m, d, l)).
Proof.
  intros Hs. destruct st as ((len_best & d_min) & label_best).
  unfold search_body.
  destruct (@average_distance_total sequence_norm warping_window Hs)
    as (d & l & Ea & Hl).
  assert (Hscore :
    exists st',
      ('(d, label) <- average_distance_to_templates sequence_norm templates
                        warping_window ;;
       if fltb d d_min then Ok (m, d, label)
       else Ok (len_best, d_min, label_best)) = Ok st'
      /\ (st' = (len_best, d_min, label_best)
          \/ exists d l,
               average_distance_to_templates sequence_norm templates
                 warping_window = Ok (d, l)
               /\ 1 <= l <= Z.of_nat (length templates)
               /\ fltb d d_min = true
               /\ st' = (m, d, l))).
  { rewrite Ea. cbn [bind]. destruct (fltb d d_min) eqn:Elt.
    - eexists; split; [reflexivity|]. right. exists d, l. auto.
    - eexists; split; [reflexivity|]. now left. }
  destruct use_lower_bounds; [|exact Hscore].
  destruct (@lb1_total sequence_norm Hs) as (b1 & E1). rewrite E1. cbn [bind].
  destruct (fltb d_min b1); [eexists; split; [reflexivity|now left]|].
  destruct (@lb2_total sequence_norm Hs) as (b2 & E2). rewrite E2. cbn [bind].
  destruct (fltb d_min b2); [eexists; split; [reflexivity|now left]|].
  exact Hscore.
Qed.


Lemma round_half_pos (s : Z) : 2 <= s -> 1 <= Py.round_half s.
Proof.
  intros Hs. unfold Py.round_half.
  assert (1 <= s / 2) by (apply Z.div_le_lower_bound; lia).
  destruct (Z.even s), (Z.even (s / 2)); lia.
Qed.

Lemma clamp_lengths_pos (N min_length max_length : Z) :
  1 <= N -> 1 <= min_length -> 1 <= max_length ->
  1 <= fst (clamp_lengths N min_length max_length)
  /\ 1 <= snd (clamp_lengths N min_length max_length) <= N.
Proof.
  intros HN Hmin Hmax. unfold clamp_lengths. cbn [fst snd].
  destruct (N >? max_length) eqn:E1;
    match goal with |- context [?a >=? ?b] => destruct (a >=? b) eqn:E2 end;
    lia.
Qed.

Lemma arange_ok (a b step : Z) :
  1 <= step ->
  exists l, Py.arange a b step = Ok l /\ Forall (fun x => a <= x) l.
Proof.
  intros Hstep. unfold Py.arange.
  replace (step =? 0) with false by lia. replace (step <? 0) with false by lia.
  eexists; split; [reflexivity|].
  apply Forall_forall. intros x Hx. apply in_map_iff in Hx.
  destruct Hx as (i & <- & _). nia.
Qed.

Lemma normalized_prefix_nonempty (normalize : bool)
  (sequence sequence_mean sequence_stdev : series F) (m : Z) :
  sequence <> [] -> 1 <= m ->
  normalized_prefix normalize sequence sequence_mean sequence_stdev m <> [].
Proof.
  intros Hs Hm E. apply (f_equal (@length _)) in E. apply (f_equal Z.of_nat) in E.
  unfold normalized_prefix in E.
  destruct normalize; [rewrite length_map in E|];
    rewrite slice_to_length in E by lia;
    pose proof (length_pos Hs);
    match type of E with _ = ?r => change r with 0 in E end;
    unfold series, point in *; lia.
Qed.

Section WithRandomSource.

Context {rng : Type} {RS : RandomSource rng} {RSok : RandomSourceOk RS}.

Lemma permutation_of_in (g : rng) (x : list Z) (y : Z) :
  In y (fst (permutation_of g x)) -> In y x.
Proof.
  unfold permutation_of. pose proof (permutation_law g (length x)) as Hp.
  destruct (np_permutation g (length x)) as (p & g'). cbn [fst] in *.
  intros Hy. apply in_map_iff in Hy. destruct Hy as (k & <- & Hk).
  apply nth_In. apply (Permutation_in _ Hp) in Hk. apply in_seq in Hk. lia.
Qed.

(** The search on a non-empty sequence returns a length of at least one
    point and a label between 0 and the number of groups. *)
Lemma search_subsequence_spec (g : rng) (sequence : series F)
  (min_length max_length : Z) (normalize : bool) (warping_window : option F)
  (use_lower_bounds : bool) (length_step : Z) :
  sequence <> [] -> 1 <= min_length -> 1 <= max_length -> 1 <= length_step ->
  exists m d label g',
    search_subsequence g sequence templates (templates_info_of templates)
      min_length max_length normalize warping_window use_lower_bounds
      length_step = Ok (m, d, label, g')
    /\ 1 <= m /\ 0 <= label <= Z.of_nat (length templates).
Proof.
  intros Hs Hmin Hmax Hstep. unfold search_subsequence.
  set (N := Z.of_nat (length sequence)).
  assert (HN : 1 <= N) by (apply length_pos; exact Hs).
  set (sequence' := if N >? max_length then Py.slice_to sequence max_length
                    else sequence).
  assert (Hs' : sequence' <> []).
  { unfold sequence'. destruct (N >? max_length); [|exact Hs].
    intros E. apply (f_equal (@length _)) in E. apply (f_equal Z.of_nat) in E.
    rewrite slice_to_length in E by lia.
    match type of E with _ = ?r => change r with 0 in E end.
    unfold N, series, point in *. lia. }
  pose proof (@clamp_lengths_pos N min_length max_length HN Hmin Hmax) as Hc.
  destruct (clamp_lengths N min_length max_length) as (min' & max').
  cbn [fst snd] in Hc. destruct Hc as (Hmin' & Hmax' & _).
  destruct (@arange_ok min' (max' + 1) length_step Hstep) as (lengths & Ea & Hl).
  rewrite Ea. cbn [bind].
  pose proof (@permutation_of_in g lengths) as Hperm.
  destruct (permutation_of g lengths) as (v & g'). cbn [fst] in Hperm.
  set (mid := Py.round_half (min' + max')).
  assert (Hmid : 1 <= mid) by (apply round_half_pos; lia).
  match goal with |- context [foldM ?f ?l ?b0] =>
    destruct (@foldM_invariant _ _
                (fun st : Z * F * Z =>
                   1 <= fst (fst st)
                   /\ 0 <= snd st <= Z.of_nat (length templates))
                f l) with (b := b0) as (((len_best & d_min) & label_best) & E & H)
  end.
  - intros st m Hm (H1 & H2).
    assert (Hm1 : 1 <= m).
    { unfold length_range_of in Hm. destruct Hm as [<-|Hm]; [exact Hmid|].
      apply filter_In in Hm. destruct Hm as (Hm & _). apply Hperm in Hm.
      rewrite Forall_forall in Hl. specialize (Hl _ Hm). lia. }
    match goal with |- context [search_body _ _ _ _ ?sn _ _] =>
      destruct (@search_body_spec warping_window use_lower_bounds sn m st)
        as (st' & Eb & Hst')
    end.
    { apply normalized_prefix_nonempty; assumption. }
    exists st'. split; [exact Eb|].
    destruct Hst' as [->|(d & l & _ & Hl' & _ & ->)]; cbn [fst snd]; lia.
  - cbn [fst snd]. pose proof (length_pos some_group). lia.
  - rewrite E. cbn [bind fst snd] in *. exists len_best, d_min, label_best, g'.
    split; [reflexivity|]. exact H.
Qed.

End WithRandomSource.

End SearchProperties.

(** ** The scripted source obeys the law of the generator *)

Lemma is_shuffle_permutation (p : list nat) (n : nat) :
  is_shuffle p n = true -> Permutation p (seq 0 n).
Proof.
  unfold is_shuffle. intros H. apply andb_true_iff in H. destruct H as (Hl & Hin).
  apply Nat.eqb_eq in Hl. symmetry. apply NoDup_Permutation_bis.
  - apply seq_NoDup.
  - rewrite length_seq. lia.
  - intros k Hk. rewrite forallb_forall in Hin. specialize (Hin k Hk).
    apply existsb_exists in Hin. destruct Hin as (k' & Hk' & E).
    apply Nat.eqb_eq in E. now subst.
Qed.

#[export] Instance Scripted_ok : RandomSourceOk Scripted.
Proof.
  intros g n. simpl. unfold scripted_permutation.
  destruct g as [|p s]; [reflexivity|].
  destruct (is_shuffle p n) eqn:E; [|reflexivity].
  now apply is_shuffle_permutation.
Qed.

(** ** Reconstruction *)

Section Reconstruction.

Context {F : Type} {AR : Arith F}.
Context {rng : Type} {RS : RandomSource rng} {RSok : RandomSourceOk RS}.


End Reconstruction.


(** ** The tracked best candidate *)

(** C4.  Within one scan, once a best match is tracked: an acceptable
    candidate with the label of the tracked best replaces it exactly when its
    average distance is strictly lower, the scan going on to the advance of
    the offset; an acceptable candidate with another label ends the scan at
    once, the tracked best and the rest of the state as they were. *)
Theorem tracked_best_update {F : Type} {AR : Arith F} {rng : Type}
  (search : rng -> series F -> outcome (Z * F * Z * rng))
  (distance_thresholds : list F) (min_length offset_step : Z) (approx : bool)
  (data_rem : series F) (st : scan_state F) (g g' : rng)
  (m : Z) (d_avg : F) (label : Z) (th : F) :
  matched st = true ->
  search g (Py.slice_from data_rem (offset st)) = Ok (m, d_avg, label, g') ->
  Py.index distance_thresholds (label - 1) = Ok th ->
  fleb d_avg th = true ->
  let candidate := {| best_offset := offset st; best_length := m;
                      best_distance := d_avg; best_label := label |} in
  (label = best_label (info_best st) ->
   exists fl,
     scan_body search distance_thresholds offset_step approx data_rem st g
     = Ok (fl, g')
     /\ info_best (flow_state fl)
        = (if fltb d_avg (best_distance (info_best st))
           then candidate else info_best st)
     /\ matched (flow_state fl) = true)
  /\ (label <> best_label (info_best st) ->
      scan_body search distance_thresholds offset_step approx data_rem st g
      = Ok (Break st, g')
      /\ forall fuel,
           Z.of_nat (length data_rem) - offset st > min_length ->
           scan_loop search distance_thresholds min_length offset_step approx
             (S fuel) data_rem st g = Ok (st, g')).
Proof.
  intros Hm Es Eth Ele candidate. split; intros Hl.
  - unfold scan_body. rewrite Es. cbn [bind]. unfold track.
    rewrite Eth. cbn [bind]. rewrite Ele, Hm.
    apply Z.eqb_eq in Hl. rewrite Hl.
    destruct (fltb d_avg (best_distance (info_best st))); cbn [bind];
      eexists; (split; [reflexivity|]); unfold advance;
      cbn [matched offset info_best]; rewrite ?Hm;
      match goal with |- context [if ?c then Break _ else _] => destruct c end;
      cbn [flow_state info_best matched]; auto.
  - assert (Eb : scan_body search distance_thresholds offset_step approx
                   data_rem st g = Ok (Break st, g')).
    { unfold scan_body. rewrite Es. cbn [bind]. unfold track.
      rewrite Eth. cbn [bind]. rewrite Ele, Hm.
      apply Z.eqb_neq in Hl. now rewrite Hl. }
    split; [exact Eb|]. intros fuel Hlen. cbn [scan_loop].
    replace (Z.of_nat (length data_rem) - offset st >? min_length) with true
      by lia.
    now rewrite Eb.
Qed.

(** The statement at the series 1, 0, 2, 0, 9, 9: the candidate at offset 1
    (length 3, distance 0) has the label of the tracked one (distance 1/7)
    and replaces it. *)
Lemma tracked_best_update_witness :
  let candidate := {| best_offset := 1; best_length := 3;
                      best_distance := PrimFloat.zero; best_label := 1 |} in
  (1 = 1 ->
   exists fl,
     scan_body (Example.bump_search 4) Example.bump_thresholds 1 false
       Example.shifted Example.shifted_state []
     = Ok (fl, [])
     /\ info_best (flow_state fl)
        = (if fltb PrimFloat.zero (PrimFloat.div (Example.f 1) (Example.f 7))
           then candidate else info_best Example.shifted_state)
     /\ matched (flow_state fl) = true)
  /\ (1 <> 1 ->
      scan_body (Example.bump_search 4) Example.bump_thresholds 1 false
        Example.shifted Example.shifted_state []
      = Ok (Break Example.shifted_state, [])
      /\ forall fuel,
           Z.of_nat (length Example.shifted) - 1 > 2 ->
           scan_loop (Example.bump_search 4) Example.bump_thresholds 2 1 false
             (S fuel) Example.shifted Example.shifted_state []
           = Ok (Example.shifted_state, [])).
Proof.
  apply (@tracked_best_update _ Float64 _ (Example.bump_search 4)
           Example.bump_thresholds 2 1 false Example.shifted
           Example.shifted_state [] [] 3 PrimFloat.zero 1
           (PrimFloat.div (Example.f 2) (Example.f 10)));
    vm_compute; reflexivity.
Defined.

(** ** Labels *)

Section Labels.

Context {F : Type} {AR : Arith F}.
Context {rng : Type} {RS : RandomSource rng} {RSok : RandomSourceOk RS}.



End Labels.




(** No candidate of the series 0, 2, 0 is acceptable for the two actions:
    the searches on its suffixes are run one by one. *)
Lemma short_rejected_everywhere :
  rejected_everywhere
    (driver_search (RS := Unshuffled) Example.two_actions
       (templates_info_of Example.two_actions) 2 4 false None 1)
    Example.two_thresholds Example.short.
Proof.
  intros o [] m d label [] th Ho Es Eth.
  unfold Py.slice_from in Es.
  assert (Hc : (Z.to_nat (Py.clip (Z.of_nat (length Example.short)) o) = 0
                \/ Z.to_nat (Py.clip (Z.of_nat (length Example.short)) o) = 1
                \/ Z.to_nat (Py.clip (Z.of_nat (length Example.short)) o) = 2
                \/ Z.to_nat (Py.clip (Z.of_nat (length Example.short)) o) = 3)%nat).
  { rewrite clip_nonneg by exact Ho. change (length Example.short) with 3%nat.
    lia. }
  destruct Hc as [Hc|[Hc|[Hc|Hc]]]; rewrite Hc in Es; vm_compute in Es;
    injection Es as <- <- <-; vm_compute in Eth; injection Eth as <-;
    vm_compute; reflexivity.
Qed.


(** ** The early end of a scan *)

(** The test of lines 592-593, spelled out: a scan with a tracked best ends
    as soon as the offset is more than 10 past the offset of the best, or at
    least its length minus 1 past it. *)
Lemma stop_early_iff {F : Type} (offset : Z) (best : match_info F) :
  stop_early offset best = true
  <-> offset - best_offset best > 10
      \/ offset - best_offset best >= best_length best - 1.
Proof.
  unfold stop_early. rewrite orb_true_iff. lia.
Qed.

(** C8 at a failing input.  One action with the template 0, 2, 0 and the
    threshold 0.2, lengths 2 to 3, and the series 0, 1, 0, 2, 0, 9.  The
    scan tracks the candidate at offset 0 (length 3, distance 1/6) and ends
    when the offset reaches 2: the advance, 2, does not exceed 10 and does
    not exceed the matched length minus 1, which is 2 as well, but the test
    of the code holds.  The scan therefore never evaluates offset 2, where
    the search finds the action exactly (length 3, distance 0, same label),
    and the segmentation cuts through that occurrence. *)
Theorem scan_ends_at_last_index_of_best :
  let best := {| best_offset := 0; best_length := 3;
                 best_distance := PrimFloat.div (Example.f 1) (Example.f 6);
                 best_label := 1 |} in
  scan_loop (Example.bump_search 3) Example.bump_thresholds 2 1 false 6
    Example.late scan_start []
  = Ok ({| offset := 2; info_best := best; matched := true |}, [])
  /\ stop_early 2 best = true
  /\ (2 - best_offset best >? 10) = false
  /\ (2 - best_offset best >? best_length best - 1) = false
  /\ Example.bump_search 3 [] (Py.slice_from Example.late 2)
     = Ok (3, PrimFloat.zero, 1, [])
  /\ segment_repeat_sequences (RS := Scripted) 6 [] Example.late
       Example.bump (templates_info_of Example.bump) Example.bump_thresholds
       (2, 3, 3) false None 1 1 false
     = Ok ([Example.col [0; 1; 0]; Example.col [2; 0; 9]], [1; 0], []).
Proof. vm_compute. repeat split; reflexivity. Qed.

(** ** The first candidate of the length search *)

#[export] Instance Float64_ok : ArithOk Float64.
Proof.
  intros x. simpl. rewrite FloatAxioms.ltb_spec.
  change (FloatOps.Prim2SF PrimFloat.infinity)
    with (SpecFloat.S754_infinity false).
  destruct (FloatOps.Prim2SF x) as [s|s| |s m e]; try destruct s; reflexivity.
Qed.

#[export] Instance Exact_ok : ArithOk Exact.
Proof. intros x. reflexivity. Qed.

Section FirstCandidate.

Context {F : Type} {AR : Arith F} {AROk : ArithOk AR}.
Context {rng : Type} {RS : RandomSource rng} {RSok : RandomSourceOk RS}.

(** With a best distance of [+inf] the lower bounds prune nothing. *)
Lemma search_body_unpruned (templates : list (list (series F)))
  (warping_window : option F) (sequence_norm : series F) (m len_best label : Z) :
  sequence_norm <> [] -> Forall (fun t => t <> []) templates ->
  search_body templates (templates_info_of templates) warping_window true
    sequence_norm m (len_best, finf, label)
  = search_body templates (templates_info_of templates) warping_window false
      sequence_norm m (len_best, finf, label).
Proof.
  intros Hs Hg. unfold search_body.
  destruct (@lb1_total F AR templates Hg sequence_norm Hs) as (b1 & E1).
  destruct (@lb2_total F AR templates Hg sequence_norm Hs) as (b2 & E2).
  rewrite E1, E2. cbn [bind]. now rewrite !inf_not_below.
Qed.


End FirstCandidate.



(** ** The Sakoe-Chiba mask *)

Lemma mapi_from_length {A B : Type} (f : nat -> A -> B) (l : list A) (k : nat) :
  length (Py.mapi_from k f l) = length l.
Proof. revert k. induction l as [|x t IH]; intros k; simpl; auto. Qed.

Lemma mapi_from_nth {A B : Type} (f : nat -> A -> B) (l : list A) (da : A)
  (db : B) :
  forall (k i : nat),
    (i < length l)%nat ->
    nth i (Py.mapi_from k f l) db = f (k + i)%nat (nth i l da).
Proof.
  induction l as [|x t IH]; intros k i Hi; simpl in Hi; [lia|].
  destruct i as [|i]; simpl.
  - now rewrite Nat.add_0_r.
  - rewrite IH by lia. f_equal. lia.
Qed.

Lemma mapi_nth {A B : Type} (f : nat -> A -> B) (l : list A) (da : A) (db : B)
  (i : nat) :
  (i < length l)%nat -> nth i (Py.mapi f l) db = f i (nth i l da).
Proof. intros Hi. unfold Py.mapi. now rewrite mapi_from_nth with (da := da). Qed.

Lemma mapi_length {A B : Type} (f : nat -> A -> B) (l : list A) :
  length (Py.mapi f l) = length l.
Proof. apply mapi_from_length. Qed.

Section Mask.

Context {F : Type} {AR : Arith F}.

(** A mask of [n1] rows of [n2] entries. *)
Definition has_shape (n1 n2 : nat) (mask : list (list F)) : Prop :=
  length mask = n1 /\ forall i, (i < n1)%nat -> length (nth i mask []) = n2.

(** The entry of row [i] and column [j]. *)
Definition cell (mask : list (list F)) (i j : nat) : F :=
  nth j (nth i mask []) finf.

Lemma mask_at_cell (mask : list (list F)) (i j : nat) :
  mask_at mask (Z.of_nat i) (Z.of_nat j) = cell mask i j.
Proof. unfold mask_at, cell, Py.get. now rewrite !Nat2Z.id. Qed.

Lemma set_row_slice_shape (n1 n2 : nat) (r lower upper : Z) (v : F)
  (mask : list (list F)) :
  has_shape n1 n2 mask -> has_shape n1 n2 (set_row_slice r lower upper v mask).
Proof.
  intros (H1 & H2). unfold set_row_slice. split.
  - now rewrite mapi_length.
  - intros i Hi. rewrite mapi_nth with (da := []) by lia.
    destruct (Z.of_nat i =? r); [|auto].
    unfold set_slice. rewrite mapi_length. auto.
Qed.

Lemma set_row_slice_cell (n1 n2 : nat) (r lower upper : Z) (v : F)
  (mask : list (list F)) (i j : nat) :
  has_shape n1 n2 mask -> (i < n1)%nat -> (j < n2)%nat ->
  cell (set_row_slice r lower upper v mask) i j
  = if (Z.of_nat i =? r) && (lower <=? Z.of_nat j) && (Z.of_nat j <? upper)
    then v else cell mask i j.
Proof.
  intros (H1 & H2) Hi Hj. unfold cell, set_row_slice.
  rewrite mapi_nth with (da := []) by lia.
  destruct (Z.of_nat i =? r); [|reflexivity]. cbn [andb].
  unfold set_slice. rewrite mapi_nth with (da := finf) by (rewrite H2; lia).
  reflexivity.
Qed.

Lemma set_col_slice_shape (n1 n2 : nat) (lower upper c : Z) (v : F)
  (mask : list (list F)) :
  has_shape n1 n2 mask -> has_shape n1 n2 (set_col_slice lower upper c v mask).
Proof.
  intros (H1 & H2). unfold set_col_slice. split.
  - now rewrite mapi_length.
  - intros i Hi. rewrite mapi_nth with (da := []) by lia.
    destruct ((lower <=? Z.of_nat i) && (Z.of_nat i <? upper)); [|auto].
    unfold set_at. rewrite mapi_length. auto.
Qed.

Lemma set_col_slice_cell (n1 n2 : nat) (lower upper c : Z) (v : F)
  (mask : list (list F)) (i j : nat) :
  has_shape n1 n2 mask -> (i < n1)%nat -> (j < n2)%nat ->
  cell (set_col_slice lower upper c v mask) i j
  = if (Z.of_nat j =? c) && (lower <=? Z.of_nat i) && (Z.of_nat i <? upper)
    then v else cell mask i j.
Proof.
  intros (H1 & H2) Hi Hj. unfold cell, set_col_slice.
  rewrite mapi_nth with (da := []) by lia.
  destruct ((lower <=? Z.of_nat i) && (Z.of_nat i <? upper)) eqn:E.
  - unfold set_at. rewrite mapi_nth with (da := finf) by (rewrite H2; lia).
    destruct (Z.of_nat j =? c); cbn [andb]; [now rewrite E|reflexivity].
  - destruct (Z.of_nat j =? c); cbn [andb]; [|reflexivity].
    now rewrite E.
Qed.

Lemma full_shape (n1 n2 : nat) (v : F) :
  has_shape n1 n2 (repeat (repeat v n2) n1).
Proof.
  split; [apply repeat_length|]. intros i Hi.
  rewrite nth_repeat_lt by lia. apply repeat_length.
Qed.

Lemma full_cell (n1 n2 : nat) (i j : nat) :
  (i < n1)%nat -> (j < n2)%nat -> cell (repeat (repeat finf n2) n1) i j = finf.
Proof.
  intros Hi Hj. unfold cell. now rewrite !nth_repeat_lt by lia.
Qed.


Lemma rows_fold (n1 n2 : nat) (lo hi : Z -> Z) :
  forall (L : list Z) (mask : list (list F)),
    has_shape n1 n2 mask ->
    let mask' := fold_left (fun mask i =>
                              set_row_slice i (lo i) (hi i) fzero mask)
                           L mask in
    has_shape n1 n2 mask'
    /\ forall i j, (i < n1)%nat -> (j < n2)%nat ->
       cell mask' i j
       = if existsb (Z.eqb (Z.of_nat i)) L
            && (lo (Z.of_nat i) <=? Z.of_nat j)
            && (Z.of_nat j <? hi (Z.of_nat i))
         then fzero else cell mask i j.
Proof.
  induction L as [|r L IH]; intros mask Hs; cbn [fold_left existsb].
  - split; [exact Hs|]. intros i j _ _. reflexivity.
  - destruct (IH _ (@set_row_slice_shape n1 n2 r (lo r) (hi r) fzero mask Hs))
      as (Hs' & Hc).
    split; [exact Hs'|]. intros i j Hi Hj. cbv zeta in Hc.
    rewrite Hc by assumption.
    rewrite set_row_slice_cell with (n1 := n1) (n2 := n2) by assumption.
    destruct (Z.eqb_spec (Z.of_nat i) r) as [<-|Hne]; cbn [orb andb].
    + destruct (existsb _ L); cbn [andb];
        destruct ((lo (Z.of_nat i) <=? Z.of_nat j)
                  && (Z.of_nat j <? hi (Z.of_nat i))); reflexivity.
    + reflexivity.
Qed.

Lemma cols_fold (n1 n2 : nat) (lo hi : Z -> Z) :
  forall (L : list Z) (mask : list (list F)),
    has_shape n1 n2 mask ->
    let mask' := fold_left (fun mask c =>
                              set_col_slice (lo c) (hi c) c fzero mask)
                           L mask in
    has_shape n1 n2 mask'
    /\ forall i j, (i < n1)%nat -> (j < n2)%nat ->
       cell mask' i j
       = if existsb (Z.eqb (Z.of_nat j)) L
            && (lo (Z.of_nat j) <=? Z.of_nat i)
            && (Z.of_nat i <? hi (Z.of_nat j))
         then fzero else cell mask i j.
Proof.
  induction L as [|c L IH]; intros mask Hs; cbn [fold_left existsb].
  - split; [exact Hs|]. intros i j _ _. reflexivity.
  - destruct (IH _ (@set_col_slice_shape n1 n2 (lo c) (hi c) c fzero mask Hs))
      as (Hs' & Hc).
    split; [exact Hs'|]. intros i j Hi Hj. cbv zeta in Hc.
    rewrite Hc by assumption.
    rewrite set_col_slice_cell with (n1 := n1) (n2 := n2) by assumption.
    destruct (Z.eqb_spec (Z.of_nat j) c) as [<-|Hne]; cbn [orb andb].
    + destruct (existsb _ L); cbn [andb];
        destruct ((lo (Z.of_nat j) <=? Z.of_nat i)
                  && (Z.of_nat i <? hi (Z.of_nat j))); reflexivity.
    + reflexivity.
Qed.

Lemma in_range (i : nat) (n : Z) :
  Z.of_nat i < n -> existsb (Z.eqb (Z.of_nat i)) (Py.range n) = true.
Proof.
  intros Hi. apply existsb_exists. exists (Z.of_nat i). split; [|apply Z.eqb_refl].
  unfold Py.range. apply in_map. apply in_seq. lia.
Qed.

(** The mask has the shape [(sz1, sz2)], and its cell [(i, j)] is 0 inside
    the band [|i - j| <= w] and [+inf] outside. *)
Lemma sakoe_chiba_mask_cells (sz1 sz2 : Z) (warping_window : F) :
  0 <= sz1 -> 0 <= sz2 ->
  has_shape (Z.to_nat sz1) (Z.to_nat sz2)
    (sakoe_chiba_mask sz1 sz2 warping_window)
  /\ forall i j, (i < Z.to_nat sz1)%nat -> (j < Z.to_nat sz2)%nat ->
     cell (sakoe_chiba_mask sz1 sz2 warping_window) i j
     = if Z.abs (Z.of_nat i - Z.of_nat j)
          <=? band_width sz1 sz2 warping_window
       then fzero else finf.
Proof.
  intros H1 H2. unfold sakoe_chiba_mask.
  set (w := band_width sz1 sz2 warping_window).
  assert (Hw : 1 <= w) by (unfold w, band_width; lia).
  destruct (sz1 <=? sz2) eqn:E.
  - destruct (@rows_fold (Z.to_nat sz1) (Z.to_nat sz2)
                (fun i => Z.max 0 (i - w)) (fun i => Z.min sz2 (i + w) + 1)
                (Py.range sz1) _ (full_shape _ _ finf)) as (Hs & Hc).
    split; [exact Hs|]. intros i j Hi Hj. cbv zeta in Hc.
    rewrite Hc, in_range, full_cell by lia. cbn [andb].
    destruct (Z.abs (Z.of_nat i - Z.of_nat j) <=? w) eqn:Eb.
    + replace (_ && _) with true; [reflexivity|].
      symmetry. apply andb_true_iff. split; lia.
    + replace (_ && _) with false; [reflexivity|].
      symmetry. apply andb_false_iff. lia.
  - destruct (@cols_fold (Z.to_nat sz1) (Z.to_nat sz2)
                (fun i => Z.max 0 (i - w)) (fun i => Z.min sz1 (i + w) + 1)
                (Py.range sz2) _ (full_shape _ _ finf)) as (Hs & Hc).
    split; [exact Hs|]. intros i j Hi Hj. cbv zeta in Hc.
    rewrite Hc, in_range, full_cell by lia. cbn [andb].
    destruct (Z.abs (Z.of_nat i - Z.of_nat j) <=? w) eqn:Eb.
    + replace (_ && _) with true; [reflexivity|].
      symmetry. apply andb_true_iff. split; lia.
    + replace (_ && _) with false; [reflexivity|].
      symmetry. apply andb_false_iff. lia.
Qed.


Lemma path_chain_map (f : Z -> Z * Z) :
  forall (n a : nat),
    (forall t, (a <= t)%nat -> (t + 1 < a + n)%nat ->
               path_step (f (Z.of_nat t)) (f (Z.of_nat t + 1))) ->
    path_chain (map f (map Z.of_nat (seq a n))).
Proof.
  induction n as [|n IH]; intros a Hf; [exact I|].
  cbn [seq map path_chain]. destruct n as [|n]; [exact I|].
  cbn [seq map]. split.
  - replace (Z.of_nat (S a)) with (Z.of_nat a + 1) by lia. apply Hf; lia.
  - apply (IH (S a)). intros t H1 H2. apply Hf; lia.
Qed.

(** C5.  For all lengths [sz1, sz2 >= 1] and every warping-window value (it
    need not even lie in (0, 1]), [sakoe_chiba_mask] returns an [sz1] by
    [sz2] mask whose cell (i, j) is 0 when [|i - j|] is at most the band
    half-width [max(ceil(w * max(sz1, sz2)), |sz1 - sz2| + 1)] and [+inf]
    otherwise; the half-width is at least [|sz1 - sz2|]; and there is a
    monotone path of cells of value 0 from (0, 0) to (sz1 - 1, sz2 - 1). *)
Theorem sakoe_chiba_mask_band (sz1 sz2 : Z) (warping_window : F) :
  1 <= sz1 -> 1 <= sz2 ->
  let mask := sakoe_chiba_mask sz1 sz2 warping_window in
  let w := Z.max (ceil_int (fmul warping_window (of_int (Z.max sz1 sz2))))
                 (Z.abs (sz1 - sz2) + 1) in
  length mask = Z.to_nat sz1
  /\ Forall (fun row => length row = Z.to_nat sz2) mask
  /\ (forall i j, 0 <= i < sz1 -> 0 <= j < sz2 ->
      mask_at mask i j = if Z.abs (i - j) <=? w then fzero else finf)
  /\ Z.abs (sz1 - sz2) <= w
  /\ exists p,
       warping_path sz1 sz2 p
       /\ Forall (fun c => mask_at mask (fst c) (snd c) = fzero) p.
Proof.
  intros H1 H2 mask w.
  destruct (@sakoe_chiba_mask_cells sz1 sz2 warping_window) as ((Hl & Hr) & Hc);
    try lia.
  fold mask in Hl, Hr, Hc. change (band_width sz1 sz2 warping_window) with w in Hc.
  assert (Hcell : forall i j, 0 <= i < sz1 -> 0 <= j < sz2 ->
            mask_at mask i j = if Z.abs (i - j) <=? w then fzero else finf).
  { intros i j Hi Hj. unfold mask_at, Py.get.
    change (nth (Z.to_nat j) (nth (Z.to_nat i) mask []) finf)
      with (cell mask (Z.to_nat i) (Z.to_nat j)).
    rewrite Hc by lia. now rewrite !Z2Nat.id by lia. }
  split; [exact Hl|]. split.
  { apply Forall_forall. intros row Hrow.
    destruct (In_nth _ _ [] Hrow) as (i & Hi & <-). apply Hr. lia. }
  split; [exact Hcell|]. split; [lia|].
  set (f := fun t : Z => (Z.min t (sz1 - 1), Z.min t (sz2 - 1))).
  exists (map f (Py.range (Z.max sz1 sz2))). split; [split; [|split]|].
  - unfold Py.range. destruct (Z.to_nat (Z.max sz1 sz2)) eqn:E; [lia|].
    cbn [seq map hd_error]. unfold f. f_equal. f_equal; lia.
  - unfold Py.range. destruct (Z.to_nat (Z.max sz1 sz2)) as [|k] eqn:E; [lia|].
    rewrite seq_S, !map_app. cbn [map]. rewrite last_last.
    unfold f. f_equal; lia.
  - unfold Py.range. apply path_chain_map. intros t Ht1 Ht2.
    unfold path_step, f. cbn [fst snd]. lia.
  - apply Forall_forall. intros c Hin. apply in_map_iff in Hin.
    destruct Hin as (t & <- & Ht). unfold Py.range in Ht.
    apply in_map_iff in Ht. destruct Ht as (k & <- & Hk). apply in_seq in Hk.
    unfold f. cbn [fst snd]. rewrite Hcell by lia.
    replace (_ <=? w) with true; [reflexivity|]. symmetry. apply Z.leb_le. lia.
Qed.

End Mask.

(** The statement of C5 for a candidate of 3 points, a template of 5 and
    the window fraction 0.1. *)
Lemma sakoe_chiba_mask_band_witness :
  let warping_window := PrimFloat.div (Example.f 1) (Example.f 10) in
  let mask := sakoe_chiba_mask 3 5 warping_window in
  let w := Z.max (ceil_int (fmul warping_window (of_int (Z.max 3 5))))
                 (Z.abs (3 - 5) + 1) in
  length mask = Z.to_nat 3
  /\ Forall (fun row => length row = Z.to_nat 5) mask
  /\ (forall i j, 0 <= i < 3 -> 0 <= j < 5 ->
      mask_at mask i j = if Z.abs (i - j) <=? w then fzero else finf)
  /\ Z.abs (3 - 5) <= w
  /\ exists p,
       warping_path 3 5 p
       /\ Forall (fun c => mask_at mask (fst c) (snd c) = fzero) p.
Proof.
  apply (@sakoe_chiba_mask_band _ Float64 3 5
           (PrimFloat.div (Example.f 1) (Example.f 10))); lia.
Defined.

(** ** The calibrated thresholds *)

(** *** Order facts of the exact arithmetic *)

Lemma xle_refl (x : xreal) : xle x x.
Proof. destruct x; simpl; [lra|exact I]. Qed.

Lemma xle_trans (x y z : xreal) : xle x y -> xle y z -> xle x z.
Proof. destruct x, y, z; simpl; try tauto; lra. Qed.

Lemma xltb_false (x y : xreal) : xltb x y = false -> xle y x.
Proof.
  destruct x as [a|], y as [b|]; simpl; try discriminate; try (intros _; exact I).
  destruct (Rlt_dec a b); [discriminate|]. intros _. lra.
Qed.

Lemma xltb_true (x y : xreal) : xltb x y = true -> xle x y.
Proof.
  destruct x as [a|], y as [b|]; simpl; try discriminate; try (intros _; exact I).
  destruct (Rlt_dec a b); [|discriminate]. intros _. lra.
Qed.

Lemma pymax_upper (a b : xreal) : xle a (pymax a b) /\ xle b (pymax a b).
Proof.
  unfold pymax. change (@fltb xreal Exact) with xltb.
  destruct (xltb a b) eqn:E.
  - split; [now apply xltb_true|apply xle_refl].
  - split; [apply xle_refl|now apply xltb_false].
Qed.

Lemma insert_sorted_in (x : xreal) (l : list xreal) (d : xreal) :
  In d (insert_sorted x l) <-> d = x \/ In d l.
Proof.
  induction l as [|y t IH]; simpl; [intuition congruence|].
  change (@fltb xreal Exact) with xltb.
  destruct (xltb y x); simpl; [rewrite IH|]; intuition congruence.
Qed.

Lemma insert_sorted_sorted (x : xreal) (l : list xreal) :
  StronglySorted xle l -> StronglySorted xle (insert_sorted x l).
Proof.
  induction 1 as [|y t Hs IH Hy]; simpl.
  - constructor; constructor.
  - change (@fltb xreal Exact) with xltb. destruct (xltb y x) eqn:E.
    + constructor; [exact IH|]. apply Forall_forall. intros d Hd.
      apply insert_sorted_in in Hd. destruct Hd as [->|Hd].
      * now apply xltb_true.
      * rewrite Forall_forall in Hy. now apply Hy.
    + constructor; [now constructor|].
      apply xltb_false in E. constructor; [exact E|].
      apply Forall_forall. intros d Hd. rewrite Forall_forall in Hy.
      apply xle_trans with y; [exact E|exact (Hy d Hd)].
Qed.

Lemma np_sort_sorted (l : list xreal) : StronglySorted xle (np_sort l).
Proof.
  induction l as [|x t IH]; simpl; [constructor|].
  now apply insert_sorted_sorted.
Qed.

Lemma np_sort_in (l : list xreal) (d : xreal) : In d (np_sort l) <-> In d l.
Proof.
  induction l as [|x t IH]; simpl; [tauto|].
  rewrite insert_sorted_in, IH. intuition congruence.
Qed.

Lemma np_sort_length (l : list xreal) : length (np_sort l) = length l.
Proof.
  induction l as [|x t IH]; simpl; [reflexivity|].
  rewrite <- IH. generalize (np_sort t). clear.
  induction l as [|y t IH]; simpl; [reflexivity|].
  change (@fltb xreal Exact) with xltb.
  destruct (xltb y x); simpl; [now rewrite IH|reflexivity].
Qed.

(** The last entry of a sorted list is its largest. *)
Lemma sorted_last_max (l : list xreal) (dflt : xreal) :
  StronglySorted xle l ->
  forall d, In d l -> xle d (nth (length l - 1) l dflt).
Proof.
  induction 1 as [|a t Hs IH Ha]; intros d Hd; [destruct Hd|].
  destruct t as [|b t'].
  - destruct Hd as [<-|[]]. simpl. apply xle_refl.
  - change (nth (length (a :: b :: t') - 1) (a :: b :: t') dflt)
      with (nth (length t') (b :: t') dflt).
    replace (length t') with (length (b :: t') - 1)%nat by (simpl; lia).
    destruct Hd as [<-|Hd]; [|now apply IH].
    rewrite Forall_forall in Ha. apply Ha. apply nth_In. simpl. lia.
Qed.

(** A percentile exists for a non-empty sample, and is the interpolation
    of two order statistics. *)
Lemma np_percentile_ok {F : Type} {AR : Arith F} (a : list F) (q : Z) (p : F) :
  np_percentile a q = Ok p ->
  a <> []
  /\ p = (let sorted := np_sort a in
          let n := Z.of_nat (length a) in
          let pos := (n - 1) * q in
          let lo := pos / 100 in
          let hi := Z.min (lo + 1) (n - 1) in
          let t := fdiv (of_int (pos mod 100)) (of_int 100) in
          let x := Py.get fzero sorted lo in
          let y := Py.get fzero sorted hi in
          fadd x (fmul (fsub y x) t)).
Proof.
  destruct a as [|a0 a']; [discriminate|]. intros E. split; [discriminate|].
  unfold np_percentile in E. injection E as <-. reflexivity.
Qed.

(** The 100th percentile is the largest sample. *)
Lemma percentile_100_max (a : list xreal) (p100 : xreal) :
  np_percentile a 100 = Ok p100 -> forall d, In d a -> xle d p100.
Proof.
  intros E d Hd. apply np_percentile_ok in E. destruct E as (Hne & ->).
  cbv zeta.
  assert (Hn : 1 <= Z.of_nat (length a)) by (apply length_pos; exact Hne).
  rewrite Z.div_mul, Z.mod_mul by lia.
  replace (Z.min (Z.of_nat (length a) - 1 + 1) (Z.of_nat (length a) - 1))
    with (Z.of_nat (length a) - 1) by lia.
  unfold Py.get.
  replace (Z.to_nat (Z.of_nat (length a) - 1))
    with (length (np_sort a) - 1)%nat by (rewrite np_sort_length; lia).
  pose proof (@sorted_last_max (np_sort a) fzero (np_sort_sorted a) d) as Hmax.
  rewrite np_sort_in in Hmax. specialize (Hmax Hd).
  remember (nth (length (np_sort a) - 1) (np_sort a) fzero) as x eqn:Ex.
  clear Ex. destruct x as [r|]; [|destruct d; exact I].
  destruct d as [rd|]; [|contradiction].
  cbn [fadd fmul fsub fdiv of_int Exact xlift2 xdiv xle] in *. lra.
Qed.

(** No sample is above the threshold computed from the samples. *)
Lemma tukey_threshold_upper (distances : list xreal) (th : xreal) :
  tukey_threshold distances = Ok th ->
  forall d, In d distances -> xle d th.
Proof.
  unfold tukey_threshold. intros E d Hd.
  apply bind_ok in E. destruct E as (v0 & _ & E).
  apply bind_ok in E. destruct E as (v1 & _ & E).
  apply bind_ok in E. destruct E as (v2 & _ & E).
  apply bind_ok in E. destruct E as (v3 & _ & E).
  apply bind_ok in E. destruct E as (v4 & E4 & E).
  injection E as <-.
  apply xle_trans with v4; [exact (percentile_100_max _ E4 d Hd)|].
  apply pymax_upper.
Qed.

Section CalibrationProperties.

Context {F : Type} {AR : Arith F}.
Context {rng : Type} {RS : RandomSource rng} {RSok : RandomSourceOk RS}.

(** The distance samples of a group of [n] templates: for the sample size
    [k] chosen for [n], the leave-one-out distances over a list of
    [k]-subsets of the [n - 1] other templates. *)
Definition group_samples (num_proc : Z) (t : list (series F))
  (warping_window : option F) (distances : list F) : Prop :=
  let n := Z.of_nat (length t) in
  exists k ns comb_list,
    num_templates_to_sample (F := F) n = Ok (k, ns)
    /\ incl comb_list (combinations (Py.range (n - 1)) (Z.to_nat k))
    /\ group_distances num_proc t warping_window n comb_list = Ok distances.

Lemma in_slice_to {A : Type} (l : list A) (b : Z) (x : A) :
  In x (Py.slice_to l b) -> In x l.
Proof.
  intros H. rewrite <- (slice_to_from l b). apply in_or_app. now left.
Qed.

Lemma sampled_combinations_incl (g g' : rng) (n k max_num_samples : Z)
  (comb_list : list (list Z)) :
  sampled_combinations g n k max_num_samples = Ok (comb_list, g') ->
  incl comb_list (combinations (Py.range (n - 1)) (Z.to_nat k)).
Proof.
  unfold sampled_combinations. destruct (n =? 0); [discriminate|].
  set (all := combinations (Py.range (n - 1)) (Z.to_nat k)).
  destruct (Z.of_nat (length all) >? _).
  - pose proof (permutation_law g (length all)) as Hp.
    destruct (np_permutation g (length all)) as (p & g1). cbn [fst] in Hp.
    intros E. injection E as <- <-. intros c Hc.
    apply in_map_iff in Hc. destruct Hc as (j & <- & Hj).
    apply in_slice_to in Hj. apply (Permutation_in _ Hp) in Hj.
    apply in_seq in Hj. apply nth_In. lia.
  - intros E. injection E as <- <-. apply incl_refl.
Qed.

Lemma tukey_threshold_ok (distances : list F) (th : F) :
  tukey_threshold distances = Ok th ->
  exists p25 p75 p100,
    distances <> []
    /\ np_percentile distances 25 = Ok p25
    /\ np_percentile distances 75 = Ok p75
    /\ np_percentile distances 100 = Ok p100
    /\ th = pymax p100 (fadd p75 (fmul one_and_half (fsub p75 p25))).
Proof.
  unfold tukey_threshold. intros E.
  apply bind_ok in E. destruct E as (v0 & E0 & E).
  apply bind_ok in E. destruct E as (v1 & E1 & E).
  apply bind_ok in E. destruct E as (v2 & _ & E).
  apply bind_ok in E. destruct E as (v3 & E3 & E).
  apply bind_ok in E. destruct E as (v4 & E4 & E).
  injection E as <-. exists v1, v3, v4.
  repeat split; try assumption. now apply np_percentile_ok in E0.
Qed.

Lemma calibrate_group_spec (num_proc : Z) (g g' : rng)
  (t : list (series F)) (labels_t : list (Z * Z))
  (infos_t : list (template_info_tuple F)) (warping_window : option F)
  (max_num_samples : Z) (r : group_result F) :
  calibrate_group num_proc g t labels_t infos_t warping_window
    max_num_samples = Ok (r, g') ->
  exists distances,
    group_samples num_proc t warping_window distances
    /\ tukey_threshold distances = Ok (threshold r).
Proof.
  unfold calibrate_group. intros E.
  apply bind_ok in E. destruct E as ((k & ns) & Ek & E).
  apply bind_ok in E. destruct E as ((ind & g1) & _ & E).
  apply bind_ok in E. destruct E as ((comb_list & g2) & Ec & E).
  apply bind_ok in E. destruct E as (distances & Ed & E).
  apply bind_ok in E. destruct E as (th & Eth & E).
  injection E as <- <-. exists distances. split; [|exact Eth].
  exists k, ns, comb_list. repeat split; try assumption.
  exact (sampled_combinations_incl _ _ _ _ Ec).
Qed.

(** With at least one sample the threshold is computed. *)
Lemma tukey_threshold_returns (distances : list F) :
  distances <> [] ->
  exists p25 p75 p100,
    np_percentile distances 25 = Ok p25
    /\ np_percentile distances 75 = Ok p75
    /\ np_percentile distances 100 = Ok p100
    /\ tukey_threshold distances
       = Ok (pymax p100 (fadd p75 (fmul one_and_half (fsub p75 p25)))).
Proof.
  intros Hne. unfold tukey_threshold.
  destruct distances as [|d0 ds]; [congruence|].
  cbn [np_percentile bind]. do 3 eexists. repeat split; reflexivity.
Qed.

(** C6.  For every action group with at least one distance sample, the
    threshold is computed and is [max(p100, p75 + 1.5 * (p75 - p25))] for
    the percentiles of the samples: [calibrate_group] returns it once the
    sampling steps have returned.  When the calibration returns, the
    threshold of every action group is that value for the group's
    leave-one-out average warped distances, of which there is at least one.
    In exact arithmetic that value, the upper Tukey fence raised to the
    largest sample, is not below any sample. *)
Theorem thresholds_are_tukey_fences (num_proc : Z) (g g' : rng)
  (templates : list (list (series F))) (template_labels : list (list (Z * Z)))
  (templates_info : list (list (template_info_tuple F)))
  (warping_window : option F) (max_num_samples seed : Z)
  (distance_thresholds : list F) (templates_selected : list (list (series F)))
  (template_labels_selected : list (list (Z * Z)))
  (templates_info_selected : list (list (template_info_tuple F))) :
  find_distance_thresholds num_proc g templates template_labels templates_info
    warping_window max_num_samples seed
  = Ok (distance_thresholds, templates_selected, template_labels_selected,
        templates_info_selected, g') ->
  Forall2 (fun t th =>
             exists distances p25 p75 p100,
               group_samples num_proc t warping_window distances
               /\ distances <> []
               /\ np_percentile distances 25 = Ok p25
               /\ np_percentile distances 75 = Ok p75
               /\ np_percentile distances 100 = Ok p100
               /\ th = pymax p100
                         (fadd p75 (fmul one_and_half (fsub p75 p25))))
          templates distance_thresholds
  /\ (forall (h h1 h2 : rng) (t : list (series F)) (labels_t : list (Z * Z))
        (infos_t : list (template_info_tuple F)) (k ns : Z) (ind : list Z)
        (comb_list : list (list Z)) (distances : list F),
        let n := Z.of_nat (length t) in
        num_templates_to_sample (F := F) n = Ok (k, ns) ->
        stratified_sample (S (length t)) h (map snd labels_t) n k
        = Ok (ind, h1) ->
        sampled_combinations h1 n k max_num_samples = Ok (comb_list, h2) ->
        group_distances num_proc t warping_window n comb_list
        = Ok distances ->
        distances <> [] ->
        exists p25 p75 p100 r,
          np_percentile distances 25 = Ok p25
          /\ np_percentile distances 75 = Ok p75
          /\ np_percentile distances 100 = Ok p100
          /\ calibrate_group num_proc h t labels_t infos_t warping_window
               max_num_samples = Ok (r, h2)
          /\ threshold r
             = pymax p100 (fadd p75 (fmul one_and_half (fsub p75 p25))))
  /\ forall (samples : list xreal) (th d : xreal),
       tukey_threshold samples = Ok th -> In d samples -> xle d th.
Proof.
  intros E. split; [|split];
    [| |intros samples th d Hth Hd; exact (tukey_threshold_upper _ Hth d Hd)].
  - unfold find_distance_thresholds in E.
    apply bind_ok in E. destruct E as ((rs & g1) & Er & E).
    injection E as <- _ _ _ _. clear g'.
    revert Er. generalize (np_seed seed).
    revert template_labels templates_info rs g1.
    induction templates as [|t rest IH];
      intros template_labels templates_info rs g1 g0 Er;
      cbn [calibrate_groups] in Er.
    + injection Er as <- _. constructor.
    + apply bind_ok in Er. destruct Er as ((r & g2) & Eg & Er).
      apply bind_ok in Er. destruct Er as ((rs' & g3) & Erest & Er).
      injection Er as <- _. cbn [map]. constructor.
      * destruct (calibrate_group_spec _ _ _ _ _ _ _ Eg)
          as (distances & Hs & Eth).
        destruct (tukey_threshold_ok _ Eth) as (p25 & p75 & p100 & H).
        exists distances, p25, p75, p100. tauto.
      * exact (IH _ _ _ _ _ Erest).
  - intros h h1 h2 t labels_t infos_t k ns ind comb_list distances n
      Ek Ei Ec Ed Hne.
    destruct (tukey_threshold_returns Hne) as (p25 & p75 & p100 & E25 & E75
                                               & E100 & Eth).
    exists p25, p75, p100. eexists. repeat split; try eassumption.
    + unfold calibrate_group. fold n. rewrite Ek. cbn [bind].
      rewrite Ei. cbn [bind]. rewrite Ec. cbn [bind]. rewrite Ed. cbn [bind].
      rewrite Eth. cbn [bind]. reflexivity.
    + reflexivity.
Qed.

End CalibrationProperties.

(** The statement of C6 at one action with four templates: twelve distance
    samples, and the threshold they give. *)
Lemma thresholds_are_tukey_fences_witness :
  exists th : PrimFloat.float,
  PrimFloat.ltb (PrimFloat.div (Example.f 37) (Example.f 100)) th = true /\
  PrimFloat.ltb th (PrimFloat.div (Example.f 38) (Example.f 100)) = true /\
  Forall2 (fun t th =>
             exists distances p25 p75 p100,
               group_samples 1 t None distances
               /\ distances <> []
               /\ np_percentile distances 25 = Ok p25
               /\ np_percentile distances 75 = Ok p75
               /\ np_percentile distances 100 = Ok p100
               /\ th = pymax p100
                         (fadd p75 (fmul one_and_half (fsub p75 p25))))
          Example.quartet [th].
Proof.
  eexists. split; [|split]; cycle 2.
  eapply (@thresholds_are_tukey_fences _ Float64 _ Scripted Scripted_ok 1 [] _
            Example.quartet Example.quartet_labels
            (templates_info_of Example.quartet) None 10000 1234 _ _ _ _).
  - vm_compute. reflexivity.
  - vm_compute. reflexivity.
  - vm_compute. reflexivity.
Defined.

(** ** Determinism *)

(** Two outcomes that agree: both return, with related values, or both raise
    the same exception, or both exhaust their budget. *)
Definition same_outcome {A B : Type} (P : A -> B -> Prop)
  (m1 : outcome A) (m2 : outcome B) : Prop :=
  match m1, m2 with
  | Ok a, Ok b => P a b
  | Raise e1, Raise e2 => e1 = e2
  | OutOfFuel, OutOfFuel => True
  | _, _ => False
  end.

Lemma same_outcome_bind {A B A' B' : Type} (P : A -> B -> Prop)
  (Q : A' -> B' -> Prop) (m1 : outcome A) (m2 : outcome B)
  (k1 : A -> outcome A') (k2 : B -> outcome B') :
  same_outcome P m1 m2 ->
  (forall a b, P a b -> same_outcome Q (k1 a) (k2 b)) ->
  same_outcome Q (bind m1 k1) (bind m2 k2).
Proof. destruct m1, m2; simpl; try contradiction; auto. Qed.

Lemma same_outcome_refl {A : Type} (m : outcome A) : same_outcome eq m m.
Proof. destruct m; simpl; auto. Qed.

Ltac same_step :=
  apply same_outcome_bind with (P := eq); [apply same_outcome_refl|].

Lemma mapM_app {A B : Type} (f : A -> outcome B) (l1 l2 : list A) :
  mapM f (l1 ++ l2)
  = (x <- mapM f l1 ;; y <- mapM f l2 ;; Ok (x ++ y)).
Proof.
  induction l1 as [|a l1 IH]; simpl.
  - now destruct (mapM f l2).
  - destruct (f a); simpl; auto. rewrite IH.
    destruct (mapM f l1); simpl; auto. now destruct (mapM f l2).
Qed.

(** Mapping over the concatenated task lists, as the pool does, is mapping
    over each list in turn, as the serial loop does. *)
Lemma mapM_concat {A B C : Type} (f : A -> outcome B) (h : C -> list A)
  (L : list C) :
  mapM f (concat (map h L))
  = (per <- mapM (fun j => mapM f (h j)) L ;; Ok (concat per)).
Proof.
  induction L as [|c L IH]; simpl; auto.
  rewrite mapM_app, IH. destruct (mapM f (h c)); simpl; auto.
  now destruct (mapM (fun j => mapM f (h j)) L).
Qed.

Section ProcessCount.

Context {F : Type} {AR : Arith F}.
Context {rng : Type} {RS : RandomSource rng}.

(** The distance samples do not depend on the number of worker processes,
    when there are samples. *)
Lemma group_distances_num_proc (num_proc num_proc' : Z)
  (templates_i : list (series F)) (warping_window : option F) (n : Z)
  (comb_list : list (list Z)) (distances : list F) :
  group_distances num_proc templates_i warping_window n comb_list
  = Ok distances ->
  distances <> [] ->
  group_distances num_proc' templates_i warping_window n comb_list
  = Ok distances.
Proof.
  unfold group_distances. rewrite mapM_concat.
  destruct (mapM _ (Py.range n)) as [per| |]; simpl;
    destruct (num_proc >? 1); intros E Hne; try discriminate;
    destruct (num_proc' >? 1); auto.
  injection E as <-. now contradiction Hne.
Qed.

Lemma calibrate_group_num_proc (num_proc num_proc' : Z) (g g' : rng)
  (t : list (series F)) (labels_t : list (Z * Z))
  (infos_t : list (template_info_tuple F)) (warping_window : option F)
  (max_num_samples : Z) (r : group_result F) :
  calibrate_group num_proc g t labels_t infos_t warping_window
    max_num_samples = Ok (r, g') ->
  calibrate_group num_proc' g t labels_t infos_t warping_window
    max_num_samples = Ok (r, g').
Proof.
  unfold calibrate_group. intros E.
  apply bind_ok in E. destruct E as ((k & ns) & Ek & E). rewrite Ek. simpl.
  apply bind_ok in E. destruct E as ((ind & g1) & Ei & E). rewrite Ei. simpl.
  apply bind_ok in E. destruct E as ((comb_list & g2) & Ec & E).
  rewrite Ec. simpl.
  apply bind_ok in E. destruct E as (distances & Ed & E).
  apply bind_ok in E. destruct E as (th & Eth & E).
  destruct (tukey_threshold_ok _ Eth) as (_ & _ & _ & Hne & _).
  rewrite (@group_distances_num_proc num_proc num_proc' _ _ _ _ _ Ed Hne). simpl.
  rewrite Eth. exact E.
Qed.

Lemma calibrate_groups_num_proc (num_proc num_proc' : Z)
  (templates : list (list (series F))) :
  forall (g g' : rng) (template_labels : list (list (Z * Z)))
    (templates_info : list (list (template_info_tuple F)))
    (warping_window : option F) (max_num_samples : Z)
    (rs : list (group_result F)),
  calibrate_groups num_proc g templates template_labels templates_info
    warping_window max_num_samples = Ok (rs, g') ->
  calibrate_groups num_proc' g templates template_labels templates_info
    warping_window max_num_samples = Ok (rs, g').
Proof.
  induction templates as [|t rest IH]; intros g g' labels infos ww mx rs E;
    cbn [calibrate_groups] in *; auto.
  apply bind_ok in E. destruct E as ((r & g1) & Eg & E).
  rewrite (@calibrate_group_num_proc num_proc num_proc' _ _ _ _ _ _ _ _ Eg). simpl.
  apply bind_ok in E. destruct E as ((rs' & g2) & Er & E).
  rewrite (IH _ _ _ _ _ _ _ Er). exact E.
Qed.

Lemma find_distance_thresholds_num_proc (num_proc num_proc' : Z) (g h : rng)
  (templates : list (list (series F))) (template_labels : list (list (Z * Z)))
  (templates_info : list (list (template_info_tuple F)))
  (warping_window : option F) (max_num_samples seed : Z) r :
  find_distance_thresholds num_proc g templates template_labels templates_info
    warping_window max_num_samples seed = Ok r ->
  find_distance_thresholds num_proc' h templates template_labels
    templates_info warping_window max_num_samples seed = Ok r.
Proof.
  unfold find_distance_thresholds. intros E.
  apply bind_ok in E. destruct E as ((rs & g1) & Er & E).
  rewrite (@calibrate_groups_num_proc num_proc num_proc' _ _ _ _ _ _ _ _ Er). exact E.
Qed.

End ProcessCount.

Section Determinism.

Context {F : Type} {AR : Arith F}.
Context {rng1 rng2 : Type}.
Context {RS1 : RandomSource rng1} {RS2 : RandomSource rng2}.

(** Two generator states, possibly of two implementations of the generator,
    that hand out the same shuffles from now on; seeding with the same seed
    brings the two generators into such states. *)
Variable same_stream : rng1 -> rng2 -> Prop.

Hypothesis same_seed :
  forall seed : Z, same_stream (np_seed seed) (np_seed seed).

Hypothesis same_permutation :
  forall (g1 : rng1) (g2 : rng2) (n : nat),
    same_stream g1 g2 ->
    fst (np_permutation g1 n) = fst (np_permutation g2 n)
    /\ same_stream (snd (np_permutation g1 n)) (snd (np_permutation g2 n)).

(** The same value, and generators left in step. *)
Definition same_result {A : Type} (x : A * rng1) (y : A * rng2) : Prop :=
  fst x = fst y /\ same_stream (snd x) (snd y).

Lemma permutation_of_same (g1 : rng1) (g2 : rng2) (x : list Z) :
  same_stream g1 g2 ->
  same_result (permutation_of g1 x) (permutation_of g2 x).
Proof.
  intros H. unfold permutation_of.
  destruct (same_permutation (length x) H) as (E & S).
  destruct (np_permutation g1 (length x)) as (p1 & g1').
  destruct (np_permutation g2 (length x)) as (p2 & g2').
  cbn [fst snd] in *. subst p2. split; auto.
Qed.

Lemma search_subsequence_same (g1 : rng1) (g2 : rng2) (sequence : series F)
  templates templates_info min_length max_length normalize
  (warping_window : option F) use_lower_bounds length_step :
  same_stream g1 g2 ->
  same_outcome same_result
    (search_subsequence g1 sequence templates templates_info min_length
       max_length normalize warping_window use_lower_bounds length_step)
    (search_subsequence g2 sequence templates templates_info min_length
       max_length normalize warping_window use_lower_bounds length_step).
Proof.
  intros H. unfold search_subsequence.
  destruct (clamp_lengths _ min_length max_length) as (mn & mx).
  same_step. intros lengths ? <-.
  destruct (permutation_of_same lengths H) as (E & S).
  destruct (permutation_of g1 lengths) as (v1 & g1').
  destruct (permutation_of g2 lengths) as (v2 & g2').
  cbn [fst snd] in *. subst v2.
  same_step. intros ((l & d) & lab) ? <-. split; auto.
Qed.

Section SameDriver.

Variable search1 : rng1 -> series F -> outcome (Z * F * Z * rng1).
Variable search2 : rng2 -> series F -> outcome (Z * F * Z * rng2).
Variable distance_thresholds : list F.
Variable min_length offset_step : Z.
Variable approx : bool.

Hypothesis search_same :
  forall g1 g2 s, same_stream g1 g2 ->
    same_outcome same_result (search1 g1 s) (search2 g2 s).

Lemma scan_body_same (data_rem : series F) (st : scan_state F) g1 g2 :
  same_stream g1 g2 ->
  same_outcome same_result
    (scan_body search1 distance_thresholds offset_step approx data_rem st g1)
    (scan_body search2 distance_thresholds offset_step approx data_rem st g2).
Proof.
  intros H. unfold scan_body.
  apply same_outcome_bind with (P := same_result); [now apply search_same|].
  intros (((m & d) & l) & g1') (((m' & d') & l') & g2') (E & S).
  cbn [fst snd] in *. injection E as <- <- <-.
  same_step. intros fl ? <-. destruct fl; split; auto.
Qed.

Lemma scan_loop_same (fuel : nat) :
  forall (data_rem : series F) (st : scan_state F) g1 g2,
  same_stream g1 g2 ->
  same_outcome same_result
    (scan_loop search1 distance_thresholds min_length offset_step approx fuel
       data_rem st g1)
    (scan_loop search2 distance_thresholds min_length offset_step approx fuel
       data_rem st g2).
Proof.
  induction fuel as [|fuel IH]; intros data_rem st g1 g2 H; cbn [scan_loop];
    destruct (_ >? min_length); try (split; auto; fail); try exact I.
  apply same_outcome_bind with (P := same_result);
    [now apply scan_body_same|].
  intros (fl & g1') (fl' & g2') (E & S). cbn [fst snd] in *. subst fl'.
  destruct fl; [now apply IH|split; auto].
Qed.

Lemma segment_loop_same (fuel : nat) :
  forall (data_rem : series F) g1 g2,
  same_stream g1 g2 ->
  same_outcome same_result
    (segment_loop search1 distance_thresholds min_length offset_step approx
       fuel data_rem g1)
    (segment_loop search2 distance_thresholds min_length offset_step approx
       fuel data_rem g2).
Proof.
  induction fuel as [|fuel IH]; intros data_rem g1 g2 H; cbn [segment_loop];
    destruct (_ >? min_length);
    try (destruct (_ >? 0); split; auto; fail); try exact I.
  apply same_outcome_bind with (P := same_result);
    [now apply scan_loop_same|].
  intros (st & g1') (st' & g2') (E & S). cbn [fst snd] in *. subst st'.
  destruct (matched st); [|split; auto].
  apply same_outcome_bind with (P := same_result); [now apply IH|].
  intros ((segs & labels) & g1'') ((segs' & labels') & g2'') (E & S').
  cbn [fst snd] in *. injection E as <- <-.
  destruct (_ >? 0); split; auto.
Qed.

End SameDriver.

Lemma shuffle_each_same (sets : list (list Z)) :
  forall g1 g2, same_stream g1 g2 ->
  same_result (shuffle_each g1 sets) (shuffle_each g2 sets).
Proof.
  induction sets as [|x t IH]; intros g1 g2 H; cbn [shuffle_each].
  - split; auto.
  - destruct (permutation_of_same x H) as (E & S).
    destruct (permutation_of g1 x) as (p1 & g1').
    destruct (permutation_of g2 x) as (p2 & g2').
    cbn [fst snd] in *. subst p2.
    destruct (IH _ _ S) as (E' & S').
    destruct (shuffle_each g1' t) as (ps1 & g1'').
    destruct (shuffle_each g2' t) as (ps2 & g2'').
    cbn [fst snd] in *. subst ps2. split; auto.
Qed.

Lemma stratified_sample_same (fuel : nat) g1 g2 (labels : list Z) (n k : Z) :
  same_stream g1 g2 ->
  same_outcome same_result
    (stratified_sample fuel g1 labels n k)
    (stratified_sample fuel g2 labels n k).
Proof.
  intros H. unfold stratified_sample. destruct (k <? n).
  - destruct (shuffle_each_same (map (where_eq labels) (np_unique labels)) H)
      as (E & S).
    destruct (shuffle_each g1 _) as (i1 & g1').
    destruct (shuffle_each g2 _) as (i2 & g2').
    cbn [fst snd] in *. subst i2.
    same_step. intros index ? <-. split; auto.
  - destruct (same_permutation (Z.to_nat n) H) as (E & S).
    destruct (np_permutation g1 _) as (p1 & g1').
    destruct (np_permutation g2 _) as (p2 & g2').
    cbn [fst snd] in *. subst p2. split; auto.
Qed.

Lemma sampled_combinations_same g1 g2 (n k max_num_samples : Z) :
  same_stream g1 g2 ->
  same_outcome same_result
    (sampled_combinations (F := F) g1 n k max_num_samples)
    (sampled_combinations (F := F) g2 n k max_num_samples).
Proof.
  intros H. unfold sampled_combinations.
  destruct (n =? 0); [reflexivity|].
  destruct (_ >? _); [|split; auto].
  destruct (same_permutation
              (length (combinations (Py.range (n - 1)) (Z.to_nat k))) H)
    as (E & S).
  destruct (np_permutation g1 _) as (p1 & g1').
  destruct (np_permutation g2 _) as (p2 & g2').
  cbn [fst snd] in *. subst p2. split; auto.
Qed.

Lemma calibrate_group_same (num_proc : Z) g1 g2 (t : list (series F))
  (labels_t : list (Z * Z)) (infos_t : list (template_info_tuple F))
  (warping_window : option F) (max_num_samples : Z) :
  same_stream g1 g2 ->
  same_outcome same_result
    (calibrate_group num_proc g1 t labels_t infos_t warping_window
       max_num_samples)
    (calibrate_group num_proc g2 t labels_t infos_t warping_window
       max_num_samples).
Proof.
  intros H. unfold calibrate_group.
  same_step. intros (k & ns) ? <-.
  apply same_outcome_bind with (P := same_result);
    [now apply stratified_sample_same|].
  intros (ind & g1') (ind' & g2') (E & S). cbn [fst snd] in *. subst ind'.
  apply same_outcome_bind with (P := same_result);
    [now apply sampled_combinations_same|].
  intros (cl & g1'') (cl' & g2'') (E & S'). cbn [fst snd] in *. subst cl'.
  same_step. intros distances ? <-.
  same_step. intros th ? <-. split; auto.
Qed.

Lemma calibrate_groups_same (num_proc : Z)
  (templates : list (list (series F))) :
  forall g1 g2 (template_labels : list (list (Z * Z)))
    (templates_info : list (list (template_info_tuple F)))
    (warping_window : option F) (max_num_samples : Z),
  same_stream g1 g2 ->
  same_outcome same_result
    (calibrate_groups num_proc g1 templates template_labels templates_info
       warping_window max_num_samples)
    (calibrate_groups num_proc g2 templates template_labels templates_info
       warping_window max_num_samples).
Proof.
  induction templates as [|t rest IH]; intros g1 g2 labels infos ww mx H;
    cbn [calibrate_groups]; [split; auto|].
  apply same_outcome_bind with (P := same_result);
    [now apply calibrate_group_same|].
  intros (r & g1') (r' & g2') (E & S). cbn [fst snd] in *. subst r'.
  apply same_outcome_bind with (P := same_result); [now apply IH|].
  intros (rs & g1'') (rs' & g2'') (E & S'). cbn [fst snd] in *. subst rs'.
  split; auto.
Qed.

Lemma find_distance_thresholds_same (num_proc : Z) (g1 : rng1) (g2 : rng2)
  (templates : list (list (series F))) (template_labels : list (list (Z * Z)))
  (templates_info : list (list (template_info_tuple F)))
  (warping_window : option F) (max_num_samples seed : Z) :
  same_outcome same_result
    (find_distance_thresholds num_proc g1 templates template_labels
       templates_info warping_window max_num_samples seed)
    (find_distance_thresholds num_proc g2 templates template_labels
       templates_info warping_window max_num_samples seed).
Proof.
  unfold find_distance_thresholds.
  apply same_outcome_bind with (P := same_result);
    [apply calibrate_groups_same, same_seed|].
  intros (rs & g1') (rs' & g2') (E & S). cbn [fst snd] in *. subst rs'.
  split; auto.
Qed.


End Determinism.


(** ** The lower bounds *)

(** C2 at a candidate and a template of one point each.  The warping path
    has the single cell (0, 0), which both bounds count twice, as the first
    and as the last cell: for the candidate 0 and the template 1 the bounds
    are sqrt(2)/2 and the average warped distance is 1/2.  In the search on
    the series 0, 2.5 with the lengths 1 and 2, the length 2 is scored first
    (distance sqrt(3.25)/3, about 0.6), the length 1 is then pruned by the
    first bound, and the search returns the length 2; without the pruning it
    returns the length 1, of distance 1/2. *)
Theorem lower_bounds_exceed_distance_of_single_points :
  exists lb1 lb2 d d2 g',
    average_lb_distance_to_templates1 Example.origin
      (templates_info_of Example.dot) = Ok lb1
    /\ average_lb_distance_to_templates2 Example.origin Example.dot
         (templates_info_of Example.dot) = Ok lb2
    /\ average_distance_to_templates Example.origin Example.dot None
       = Ok (d, 1)
    /\ fltb d lb1 = true
    /\ fltb d lb2 = true
    /\ search_subsequence (RS := Scripted) [] Example.rise Example.dot
         (templates_info_of Example.dot) 1 2 false None true 1
       = Ok (2, d2, 1, g')
    /\ search_subsequence (RS := Scripted) [] Example.rise Example.dot
         (templates_info_of Example.dot) 1 2 false None false 1
       = Ok (1, d, 1, g')
    /\ fltb d d2 = true.
Proof.
  do 5 eexists. repeat split; vm_compute; reflexivity.
Qed.

(** *** The accumulated cost, from below *)

Section AccumulatedCost.

Local Open Scope R_scope.

Lemma xle_fadd (a b : R) (x y : xreal) :
  xle (Fin a) x -> xle (Fin b) y -> xle (Fin (a + b)) (fadd x y).
Proof. destruct x, y; simpl; auto; lra. Qed.

Lemma xle_pymin3 (b x y z : xreal) :
  xle b x -> xle b y -> xle b z -> xle b (pymin3 x y z).
Proof.
  unfold pymin3, pymin. intros. repeat destruct (fltb _ _); assumption.
Qed.

Lemma xle_fin (a b : R) (x : xreal) : a <= b -> xle (Fin b) x -> xle (Fin a) x.
Proof. destruct x; simpl; auto; lra. Qed.

(** The local cost of a cell is not negative. *)
Lemma local_squared_dist_from (l : list (xreal * xreal)) (acc : xreal) :
  xle (Fin 0) acc ->
  xle (Fin 0)
      (fold_left (fun dist ab => fadd dist (sq (fsub (fst ab) (snd ab))))
                 l acc).
Proof.
  revert acc. induction l as [|(a & b) l IH]; intros acc H; simpl; auto.
  apply IH. unfold sq. destruct acc, a, b; simpl in *; auto.
  pose proof (Rle_0_sqr (r0 - r1)) as Hs. unfold Rsqr in Hs. lra.
Qed.

Lemma local_squared_dist_nonneg (x y : point xreal) :
  xle (Fin 0) (local_squared_dist x y).
Proof. apply local_squared_dist_from. simpl. lra. Qed.

(** Potentials of the cells of one row: the base [b], raised column by
    column by the increments [gs].  [above b gs row] says that every cell of
    [row] is at least its potential; [weak b gs prev] says of the previous
    row, which starts one column to the left, that the cells diagonally
    above and above each column are at least the potential of the column
    before. *)
Fixpoint above (b : R) (gs : list R) (row : list xreal) : Prop :=
  match gs, row with
  | g :: gs', c :: row' => xle (Fin (b + g)) c /\ above (b + g) gs' row'
  | [], [] => True
  | _, _ => False
  end.

Fixpoint weak (b : R) (gs : list R) (prev : list xreal) : Prop :=
  match gs with
  | [] => True
  | g :: gs' =>
      match prev with
      | diag :: ((up :: _) as prev') =>
          xle (Fin b) diag /\ xle (Fin b) up /\ weak (b + g) gs' prev'
      | _ => False
      end
  end.

Lemma above_ext (b b' : R) (gs : list R) (row : list xreal) :
  b = b' -> above b gs row -> above b' gs row.
Proof. now intros ->. Qed.

(** A cell [(si, t)] pays for the increment [r] of its row and the
    increment [g] of its column. *)
Definition cell_pays (si : point xreal) (r : R) (t : point xreal) (g : R)
  : Prop :=
  0 <= g /\ xle (Fin (r + g)) (local_squared_dist si t).

Lemma accumulated_row_above (si : point xreal) (r : R) :
  0 <= r ->
  forall (s2 : series xreal) (gs : list R),
    Forall2 (cell_pays si r) s2 gs ->
    forall (mrow prev : list xreal) (left : xreal) (b : R),
      weak b gs prev -> xle (Fin b) left ->
      above (b + r) gs (accumulated_row si s2 mrow prev left).
Proof.
  intros Hr s2 gs H. induction H as [|t g s2 gs (Hg & Hc) _ IH];
    intros mrow prev left b Hw Hl.
  - destruct prev as [|? [|? ?]]; exact I.
  - cbn [weak] in Hw. destruct prev as [|diag [|up rest]]; try contradiction.
    destruct Hw as (Hd & Hu & Hw). cbn [accumulated_row above].
    set (c := if isfinite (hd finf mrow) then _ else _).
    assert (Hcell : xle (Fin (b + r + g)) c).
    { subst c. destruct (isfinite (hd finf mrow)); [|exact I].
      apply xle_fin with (b := (r + g) + b); [lra|].
      apply xle_fadd; [exact Hc|]. now apply xle_pymin3. }
    split; [exact Hcell|].
    apply above_ext with (b := b + g + r); [lra|].
    apply IH; [exact Hw|]. apply xle_fin with (b := b + r + g); [lra|exact Hcell].
Qed.

Lemma above_weak (gs : list R) :
  Forall (fun g => 0 <= g) gs ->
  forall (b : R) (row : list xreal) (x : xreal),
    above b gs row -> xle (Fin b) x -> weak b gs (x :: row).
Proof.
  induction 1 as [|g gs Hg _ IH]; intros b row x Ha Hx; [exact I|].
  destruct row as [|c row]; [contradiction|]. destruct Ha as (Hc & Ha).
  cbn [weak]. repeat split; [exact Hx| |].
  - apply xle_fin with (b := b + g); [lra|exact Hc].
  - now apply IH.
Qed.

Lemma weak_last (x y : R) (ds : list R) :
  forall (b : R) (prev : list xreal),
    weak b (ds ++ [x]) prev -> weak b (ds ++ [y]) prev.
Proof.
  induction ds as [|d ds IH]; intros b prev H; cbn [app weak] in *.
  - destruct prev as [|? [|? ?]]; try contradiction. tauto.
  - destruct prev as [|? [|? ?]]; try contradiction.
    destruct H as (? & ? & H). repeat split; auto.
Qed.

Definition total (l : list R) : R := fold_right Rplus 0 l.

Lemma total_app (l l' : list R) : total (l ++ l') = total l + total l'.
Proof. induction l as [|x l IH]; simpl; [lra|]. fold (total (l ++ l')). fold (total l). lra. Qed.

Lemma above_last (gs : list R) :
  gs <> [] ->
  forall (b : R) (row : list xreal),
    above b gs row -> xle (Fin (b + total gs)) (last row Inf).
Proof.
  induction gs as [|g gs IH]; intros Hne b row H; [congruence|].
  destruct row as [|c row]; [contradiction|]. destruct H as (Hc & H).
  destruct gs as [|g' gs].
  - destruct row; [|contradiction]. simpl.
    apply xle_fin with (b := b + g); [lra|exact Hc].
  - destruct row as [|c' row]; [contradiction|].
    change (last (c :: c' :: row) Inf) with (last (c' :: row) Inf).
    apply xle_fin with (b := b + g + total (g' :: gs)); [simpl; lra|].
    apply IH; [discriminate|exact H].
Qed.

(** The rows [mid] have the increments [rs], the last row [sl] has none;
    the increment of the last column is [x] for the rows of [mid] and [y]
    for the last row. *)
Lemma accumulated_rows_above (s2 : series xreal) (ds : list R) (x y : R)
  (sl : point xreal) :
  Forall (fun g => 0 <= g) (ds ++ [x]) ->
  Forall2 (cell_pays sl 0) s2 (ds ++ [y]) ->
  forall (mid : series xreal) (rs : list R),
    Forall2 (fun si r => 0 <= r /\ Forall2 (cell_pays si r) s2 (ds ++ [x]))
            mid rs ->
    forall (mask : list (list xreal)) (prev : list xreal) (b : R),
      weak b (ds ++ [x]) prev ->
      exists row,
        last (accumulated_rows (mid ++ [sl]) s2 mask prev) [] = Inf :: row
        /\ above (b + total rs) (ds ++ [y]) row.
Proof.
  intros Hpos Hlast mid rs H.
  induction H as [|si r mid rs (Hr & Hsi) _ IH]; intros mask prev b Hw.
  - cbn [app accumulated_rows last]. eexists. split; [reflexivity|].
    apply above_ext with (b := b + 0); [simpl; lra|].
    apply accumulated_row_above; [lra|exact Hlast| |exact I].
    exact (weak_last x y ds b prev Hw).
  - cbn [app accumulated_rows].
    set (row := accumulated_row si s2 (hd [] mask) prev finf).
    assert (Ha : above (b + r) (ds ++ [x]) row)
      by (apply accumulated_row_above; auto; exact I).
    destruct (IH (tl mask) (finf :: row) (b + r)) as (row' & E & Ha').
    { apply above_weak; auto. exact I. }
    exists row'. split.
    + destruct (accumulated_rows (mid ++ [sl]) s2 (tl mask) (finf :: row))
        as [|? ?] eqn:E'; [|exact E].
      destruct mid; discriminate.
    + apply above_ext with (b := b + r + total rs); [simpl; lra|exact Ha'].
Qed.

Lemma weak_repeat (gs : list R) :
  forall (b : R) (k : nat),
    (length gs < k)%nat -> weak b gs (repeat Inf k).
Proof.
  induction gs as [|g gs IH]; intros b k Hk; [exact I|].
  destruct k as [|[|k]]; simpl in Hk; try lia.
  cbn [repeat weak]. repeat split. apply (IH _ (S k)). lia.
Qed.

Lemma weak_border (a : R) (gs : list R) (k : nat) :
  (length gs < k)%nat ->
  weak 0 (a :: gs) (Fin 0 :: repeat Inf k).
Proof.
  intros Hk. destruct k as [|k]; [lia|].
  cbn [weak repeat]. repeat split; [simpl; lra|].
  apply (weak_repeat gs (0 + a) (k := S k)). exact Hk.
Qed.

Lemma last_border (row : list xreal) : last (Inf :: row) Inf = last row Inf.
Proof. now destruct row. Qed.

Lemma cell_pays_nonneg (si : point xreal) (r : R) (s2 : series xreal)
  (gs : list R) :
  Forall2 (cell_pays si r) s2 gs -> Forall (fun g => 0 <= g) gs.
Proof. induction 1 as [|? ? ? ? (H & _)]; constructor; auto. Qed.

(** The last column of a row pays [z] instead of nothing. *)
Lemma cell_pays_last (si : point xreal) (s2 : series xreal) (ds : list R)
  (z : R) :
  0 <= z ->
  xle (Fin z) (local_squared_dist si (last s2 [])) ->
  Forall2 (cell_pays si 0) s2 (ds ++ [0]) ->
  Forall2 (cell_pays si 0) s2 (ds ++ [z]).
Proof.
  intros Hz Hc H. apply Forall2_app_inv_r in H.
  destruct H as (l1 & l2 & H1 & H2 & ->).
  inversion H2 as [|t ? ? l2' _ H3]; subst. inversion H3; subst.
  rewrite last_last in Hc. apply Forall2_app; [exact H1|].
  constructor; [|constructor]. split; [exact Hz|].
  apply xle_fin with (b := z); [lra|exact Hc].
Qed.

(** The accumulated cost of the last cell is at least the local costs of the
    first and of the last cell, which are two cells unless both series have
    one point, and the increments of the rows and of the columns between
    them, when every cell pays for its row and its column. *)
Lemma accumulated_cost_lower_bound (s1 s2 : series xreal)
  (mask : list (list xreal)) (rs gs : list R) (a z : R) :
  Forall2 (fun si r => 0 <= r /\ Forall2 (cell_pays si r) s2 gs) s1 rs ->
  s1 <> [] -> s2 <> [] ->
  hd 0 rs = 0 -> last rs 0 = 0 -> hd 0 gs = 0 -> last gs 0 = 0 ->
  0 <= a -> 0 <= z ->
  xle (Fin a) (local_squared_dist (hd [] s1) (hd [] s2)) ->
  xle (Fin z) (local_squared_dist (last s1 []) (last s2 [])) ->
  (2 <= length s1 \/ 2 <= length s2)%nat ->
  xle (Fin (a + total rs + total gs + z))
      (last (last (njit_accumulated_matrix s1 s2 mask) []) finf).
Proof.
  intros H Hs1 Hs2 Hr0 Hrl Hg0 Hgl Ha Hz Hfirst Hlast Hlen.
  destruct H as [|s0 r0 rest rs' (_ & H0) Hrest]; [congruence|].
  cbn [hd] in Hr0, Hfirst. subst r0.
  destruct H0 as [|t0 g0 s2' gtl (_ & Hc0) H0]; [congruence|].
  cbn [hd] in Hg0, Hfirst. subst g0.
  pose proof (cell_pays_nonneg H0) as Hpos.
  assert (Hrow0 : Forall2 (cell_pays s0 0) (t0 :: s2') (a :: gtl)).
  { constructor; [|exact H0]. split; [exact Ha|].
    apply xle_fin with (b := a); [lra|exact Hfirst]. }
  assert (Hw0 : weak 0 (a :: gtl)
                  (Fin 0 :: repeat Inf (length (t0 :: s2')))).
  { apply weak_border. rewrite <- (Forall2_length H0). simpl. lia. }
  unfold njit_accumulated_matrix.
  destruct (exists_last (l := s0 :: rest)) as (init & sl & E); [discriminate|].
  destruct init as [|s0' mid].
  - (* one row *)
    injection E as -> ->. inversion Hrest; subst. clear Hrest.
    cbn [accumulated_rows].
    match goal with |- context [last [?r] []] =>
      change (last [r] []) with r end.
    change (@finf xreal Exact) with Inf. change (@fzero xreal Exact) with (Fin 0).
    rewrite last_border.
    destruct Hlen as [Hlen|Hlen]; [simpl in Hlen; lia|].
    destruct (exists_last (l := gtl)) as (ds & gl & Eg).
    { intros ->. inversion H0; subst. simpl in Hlen. lia. }
    subst gtl. change (0 :: ds ++ [gl]) with ((0 :: ds) ++ [gl]) in Hgl.
    rewrite last_last in Hgl. subst gl.
    apply xle_fin with (b := 0 + 0 + total (a :: ds ++ [z])).
    { cbn [total fold_right]. fold (total (ds ++ [0])).
      fold (total (ds ++ [z])). rewrite !total_app. simpl. lra. }
    apply above_last; [discriminate|].
    change (a :: ds ++ [z]) with ((a :: ds) ++ [z]).
    apply accumulated_row_above with (r := 0); [lra| | |exact I].
    + apply cell_pays_last; auto.
    + exact (weak_last 0 z (a :: ds) _ _ Hw0).
  - (* a first row, rows between, a last row *)
    injection E as <- ->.
    apply Forall2_app_inv_l in Hrest.
    destruct Hrest as (rmid & rl & Hmid & Hl & ->).
    inversion Hl as [|? rl' ? ? (_ & Hsl) Hnil]; subst. inversion Hnil; subst.
    clear Hl Hnil.
    change (0 :: rmid ++ [rl']) with ((0 :: rmid) ++ [rl']) in Hrl.
    rewrite last_last in Hrl. subst rl'.
    destruct (exists_last (l := 0 :: gtl)) as (ds & gl & Eg); [discriminate|].
    rewrite Eg in Hgl. rewrite last_last in Hgl. subst gl.
    cbn [accumulated_rows]. change (@finf xreal Exact) with Inf.
    change (@fzero xreal Exact) with (Fin 0).
    set (row0 := accumulated_row s0 (t0 :: s2') (hd [] mask)
                   (Fin 0 :: repeat Inf (length (t0 :: s2'))) Inf).
    assert (Ha0 : above a (0 :: gtl) row0).
    { pose proof (@accumulated_row_above s0 0 (Rle_refl 0) _ _ Hrow0
                    (hd [] mask) _ Inf 0 Hw0 I) as Hab.
      fold row0 in Hab. destruct row0 as [|c row0]; [contradiction|].
      destruct Hab as (Hc & Hab). split.
      - apply xle_fin with (b := 0 + 0 + a); [lra|exact Hc].
      - apply above_ext with (b := 0 + 0 + a); [lra|exact Hab]. }
    assert (Hgs : Forall (fun g => 0 <= g) (0 :: gtl))
      by (constructor; [lra|exact Hpos]).
    rewrite Eg in Ha0, Hgs, Hsl, Hmid.
    assert (Hcl : Forall2 (cell_pays sl 0) (t0 :: s2') (ds ++ [z])).
    { apply cell_pays_last; auto.
      rewrite <- (last_last (s0 :: mid) sl []). exact Hlast. }
    assert (Hw1 : weak a (ds ++ [0]) (Inf :: row0))
      by (apply above_weak; auto; exact I).
    destruct (@accumulated_rows_above (t0 :: s2') ds 0 z sl Hgs Hcl mid rmid
                Hmid (tl mask) (Inf :: row0) a Hw1) as (row & Erow & Hrow).
    match goal with |- context [last (?r :: ?M) []] =>
      replace (last (r :: M) []) with (last M []) end.
    2:{ destruct (accumulated_rows (mid ++ [sl]) _ _ _) eqn:E'; [|reflexivity].
        destruct mid; discriminate. }
    rewrite Erow, last_border.
    apply xle_fin with (b := a + total rmid + total (ds ++ [z])).
    { cbn [total fold_right]. fold (total (rmid ++ [0])). fold (total gtl).
      change (0 + total gtl) with (total (0 :: gtl)). rewrite Eg.
      rewrite !total_app. simpl. lra. }
    apply above_last; [now destruct ds|exact Hrow].
Qed.

End AccumulatedCost.

(** *** The bounds and the local costs on real-valued series *)

Section ExactValues.

Local Open Scope R_scope.

(** A real-valued point and a real-valued series, in the exact arithmetic. *)
Definition exact_point (p : list R) : point xreal := map Fin p.
Definition exact_series (s : list (list R)) : series xreal :=
  map exact_point s.

Definition rsq (q : R) : R := q * q.

(** The squared Euclidean distance of two points. *)
Definition rdist (x y : list R) : R :=
  total (Py.zip_with (fun a b => rsq (a - b)) x y).

(** The positive part, as [q * (q >= 0.0)] computes it. *)
Definition rclamp (q : R) : R := q * (if Rle_dec 0 q then 1 else 0).

Lemma fold_fadd_exact (l : list R) (acc : R) :
  fold_left fadd (map Fin l) (Fin acc) = Fin (acc + total l).
Proof.
  revert acc. induction l as [|x l IH]; intros acc; cbn [map fold_left].
  - f_equal. simpl. lra.
  - change (fadd (Fin acc) (Fin x)) with (Fin (acc + x)). rewrite IH.
    f_equal. cbn [total fold_right]. fold (total l). lra.
Qed.

Lemma np_sum_exact (l : list R) : np_sum (map Fin l) = Fin (total l).
Proof.
  unfold np_sum. change (@fzero xreal Exact) with (Fin 0).
  rewrite fold_fadd_exact. f_equal. lra.
Qed.

Lemma zip_with_exact (f : xreal -> xreal -> xreal) (g : R -> R -> R) :
  (forall a b, f (Fin a) (Fin b) = Fin (g a b)) ->
  forall x y, Py.zip_with f (map Fin x) (map Fin y) = map Fin (Py.zip_with g x y).
Proof.
  intros H. induction x as [|a x IH]; intros [|b y]; cbn [map Py.zip_with]; auto.
  now rewrite H, IH.
Qed.

Lemma sum_sq_diff_exact (x y : list R) :
  sum_sq_diff (exact_point x) (exact_point y) = Fin (rdist x y).
Proof.
  unfold sum_sq_diff, exact_point.
  rewrite zip_with_exact with (g := fun a b => rsq (a - b)) by reflexivity.
  apply np_sum_exact.
Qed.

Lemma local_squared_dist_exact (x y : list R) :
  local_squared_dist (exact_point x) (exact_point y) = Fin (rdist x y).
Proof.
  unfold local_squared_dist, exact_point, rdist.
  change (@fzero xreal Exact) with (Fin 0).
  replace (total (Py.zip_with (fun a b => rsq (a - b)) x y))
    with (0 + total (Py.zip_with (fun a b => rsq (a - b)) x y)) by lra.
  generalize 0. revert y.
  induction x as [|a x IH]; intros [|b y] acc;
    cbn [map combine fold_left Py.zip_with total fold_right];
    try (f_equal; lra).
  cbn [fst snd].
  change (fadd (Fin acc) (sq (fsub (Fin a) (Fin b))))
    with (Fin (acc + rsq (a - b))).
  rewrite IH. f_equal.
  fold (total (Py.zip_with (fun a b => rsq (a - b)) x y)). lra.
Qed.

Lemma rsq_nonneg (q : R) : 0 <= rsq q.
Proof. unfold rsq. nra. Qed.

Lemma rdist_nonneg (x y : list R) : 0 <= rdist x y.
Proof.
  unfold rdist. revert y.
  induction x as [|a x IH]; intros [|b y]; cbn [Py.zip_with total fold_right];
    try lra.
  fold (total (Py.zip_with (fun a b => rsq (a - b)) x y)).
  pose proof (rsq_nonneg (a - b)). specialize (IH y). lra.
Qed.

Lemma rdist_sym (x y : list R) : rdist x y = rdist y x.
Proof.
  unfold rdist. revert y.
  induction x as [|a x IH]; intros [|b y]; cbn [Py.zip_with total fold_right];
    auto.
  fold (total (Py.zip_with (fun a b => rsq (a - b)) x y)).
  fold (total (Py.zip_with (fun a b => rsq (a - b)) y x)).
  rewrite IH. unfold rsq. lra.
Qed.

Lemma clamp_exact (q : R) : clamp (Fin q) = Fin (rclamp q).
Proof.
  unfold clamp, rclamp, fone. cbn [fleb fzero fmul of_int Exact xleb].
  destruct (Rle_dec 0 q); reflexivity.
Qed.

Lemma total_cons (x : R) (l : list R) : total (x :: l) = x + total l.
Proof. reflexivity. Qed.

Lemma map_exact (f : xreal -> xreal) (g : R -> R) (l : list R) :
  (forall a, f (Fin a) = Fin (g a)) -> map f (map Fin l) = map Fin (map g l).
Proof. intros H. rewrite !map_map. apply map_ext. exact H. Qed.

Lemma total_zero (A : Type) (l : list A) : total (map (fun _ => rsq 0) l) = 0.
Proof.
  induction l as [|x l IH]; cbn [map total fold_right]; [reflexivity|].
  fold (total (map (fun _ : A => rsq 0) l)). rewrite IH. unfold rsq. lra.
Qed.

(** The excess of a point [r] above the point [hi], and under [lo]. *)
Definition excess_over (hi r : list R) : R :=
  total (map rsq (map rclamp (Py.zip_with Rminus r hi))).

Definition excess_under (lo r : list R) : R :=
  total (map rsq (map rclamp (Py.zip_with Rminus lo r))).

(** Values per row, the first and the last set to zero. *)
Definition zeroed_ends (l : list R) : list R :=
  Py.mapi (fun k x =>
             if orb (Nat.eqb k 0) (Nat.eqb (S k) (length l)) then 0 else x)
          l.

Lemma zeroed_rows_exact (c : nat -> bool) (M : list (list R)) :
  forall (k : nat) (acc : R),
    fold_left fadd
      (concat (map (map sq)
                 (Py.mapi_from k
                    (fun k row => if c k then zero_row row else row)
                    (map (map Fin) M))))
      (Fin acc)
    = Fin (acc + total (Py.mapi_from k (fun k x => if c k then 0 else x)
                          (map (fun r => total (map rsq r)) M))).
Proof.
  induction M as [|r M IH]; intros k acc; cbn [map Py.mapi_from concat].
  - cbn [fold_left total fold_right]. f_equal. lra.
  - rewrite fold_left_app, total_cons.
    destruct (c k).
    + unfold zero_row. rewrite !map_map.
      rewrite <- (map_map (fun _ => rsq 0) Fin), fold_fadd_exact, total_zero.
      rewrite IH. f_equal. lra.
    + rewrite (map_exact sq rsq) by reflexivity.
      rewrite fold_fadd_exact, IH. f_equal. lra.
Qed.

Lemma excess_above_exact (X : list (list R)) (hi : list R) :
  excess_above (exact_series X) (exact_point hi)
  = Fin (total (zeroed_ends (map (excess_over hi) X))).
Proof.
  unfold excess_above, np_sum2, np_sum, zero_ends, zeroed_ends, Py.mapi,
    exact_series, exact_point.
  change (@fzero xreal Exact) with (Fin 0).
  replace (map (fun row => map clamp (Py.zip_with fsub row (map Fin hi)))
               (map (map Fin) X))
    with (map (map Fin)
              (map (fun r => map rclamp (Py.zip_with Rminus r hi)) X)).
  2:{ rewrite !map_map. apply map_ext. intros r.
      rewrite zip_with_exact with (g := Rminus) by reflexivity.
      symmetry. apply map_exact, clamp_exact. }
  rewrite !length_map, zeroed_rows_exact. rewrite map_map.
  unfold excess_over, excess_under. f_equal. lra.
Qed.

Lemma excess_below_exact (X : list (list R)) (lo : list R) :
  excess_below (exact_series X) (exact_point lo)
  = Fin (total (zeroed_ends (map (excess_under lo) X))).
Proof.
  unfold excess_below, np_sum2, np_sum, zero_ends, zeroed_ends, Py.mapi,
    exact_series, exact_point.
  change (@fzero xreal Exact) with (Fin 0).
  replace (map (fun row => map clamp (Py.zip_with fsub (map Fin lo) row))
               (map (map Fin) X))
    with (map (map Fin)
              (map (fun r => map rclamp (Py.zip_with Rminus lo r)) X)).
  2:{ rewrite !map_map. apply map_ext. intros r.
      rewrite zip_with_exact with (g := Rminus) by reflexivity.
      symmetry. apply map_exact, clamp_exact. }
  rewrite !length_map, zeroed_rows_exact. rewrite map_map.
  unfold excess_over, excess_under. f_equal. lra.
Qed.

(** A point inside an envelope is at least as far from [r] as [r] is from
    the envelope. *)
Lemma envelope_excess_le (r : list R) :
  forall (t lo hi : list R),
    Forall2 Rle lo t -> Forall2 Rle t hi ->
    excess_over hi r + excess_under lo r <= rdist r t.
Proof.
  unfold excess_over, excess_under, rdist.
  induction r as [|a r IH]; intros t lo hi Hlo Hhi.
  - destruct lo; cbn [Py.zip_with map total fold_right]; lra.
  - destruct Hlo as [|l b lo t Hl Hlo].
    + inversion Hhi; subst. cbn [Py.zip_with map total fold_right].
      lra.
    + inversion Hhi as [|? h ? hi' Hh Hhi']; subst.
      cbn [Py.zip_with map total fold_right].
      specialize (IH t lo hi' Hlo Hhi'). unfold total in IH.
      assert (rsq (rclamp (a - h)) + rsq (rclamp (l - a)) <= rsq (a - b)).
      { assert (Hsq : forall u v, 0 <= u <= v -> u * u <= v * v)
          by (intros u v Huv; nra).
        pose proof (Hsq (a - h) (a - b)) as H1.
        pose proof (Hsq (l - a) (b - a)) as H2.
        pose proof (Rle_0_sqr (a - b)) as H3. unfold Rsqr in H3.
        unfold rsq, rclamp.
        destruct (Rle_dec 0 (a - h)), (Rle_dec 0 (l - a)).
        - replace (a - h) with 0 by lra. replace (l - a) with 0 by lra. lra.
        - assert (0 <= a - h <= a - b) as H by lra. apply H1 in H. lra.
        - assert (0 <= l - a <= b - a) as H by lra. apply H2 in H. lra.
        - lra. }
      lra.
Qed.

End ExactValues.

(** *** Envelopes and zeroed ends *)

Section Envelopes.

Local Open Scope R_scope.

Fixpoint rmin_from (m : R) (l : list R) : R :=
  match l with
  | [] => m
  | v :: t => rmin_from (if Rlt_dec v m then v else m) t
  end.

Fixpoint rmax_from (m : R) (l : list R) : R :=
  match l with
  | [] => m
  | v :: t => rmax_from (if Rlt_dec m v then v else m) t
  end.

Definition rmin (l : list R) : R :=
  match l with [] => 0 | v :: t => rmin_from v t end.

Definition rmax (l : list R) : R :=
  match l with [] => 0 | v :: t => rmax_from v t end.

(** The minimum and the maximum of a real-valued series, per dimension. *)
Definition envelope_min (T : list (list R)) : list R :=
  map (fun j => rmin (map (fun row => nth j row 0) T))
      (seq 0 (length (hd [] T))).

Definition envelope_max (T : list (list R)) : list R :=
  map (fun j => rmax (map (fun row => nth j row 0) T))
      (seq 0 (length (hd [] T))).

Lemma fisnan_exact (v : R) : fisnan (Fin v) = false.
Proof.
  unfold fisnan. cbn [fleb Exact xleb].
  destruct (Rle_dec v v) as [|n]; [reflexivity|]. exfalso. apply n. lra.
Qed.

Lemma np_min_from_exact (l : list R) :
  forall m, np_min_from (Fin m) (map Fin l) = Fin (rmin_from m l).
Proof.
  induction l as [|v l IH]; intros m; cbn [map np_min_from rmin_from]; auto.
  rewrite fisnan_exact. cbn [fltb Exact xltb].
  destruct (Rlt_dec v m); apply IH.
Qed.

Lemma np_max_from_exact (l : list R) :
  forall m, np_max_from (Fin m) (map Fin l) = Fin (rmax_from m l).
Proof.
  induction l as [|v l IH]; intros m; cbn [map np_max_from rmax_from]; auto.
  rewrite fisnan_exact. cbn [fltb Exact xltb].
  destruct (Rlt_dec m v); apply IH.
Qed.

Lemma np_min_exact (l : list R) : np_min (map Fin l) = Fin (rmin l).
Proof.
  destruct l as [|v l]; [reflexivity|]. cbn [map np_min rmin].
  rewrite fisnan_exact. apply np_min_from_exact.
Qed.

Lemma np_max_exact (l : list R) : np_max (map Fin l) = Fin (rmax l).
Proof.
  destruct l as [|v l]; [reflexivity|]. cbn [map np_max rmax].
  rewrite fisnan_exact. apply np_max_from_exact.
Qed.

Lemma rmin_from_le (l : list R) :
  forall m, rmin_from m l <= m /\ Forall (Rle (rmin_from m l)) l.
Proof.
  induction l as [|v l IH]; intros m; cbn [rmin_from].
  - split; [lra|constructor].
  - destruct (IH (if Rlt_dec v m then v else m)) as (H1 & H2).
    destruct (Rlt_dec v m); (split; [lra|constructor; [lra|exact H2]]).
Qed.

Lemma rmax_from_ge (l : list R) :
  forall m, m <= rmax_from m l /\ Forall (fun x => x <= rmax_from m l) l.
Proof.
  induction l as [|v l IH]; intros m; cbn [rmax_from].
  - split; [lra|constructor].
  - destruct (IH (if Rlt_dec m v then v else m)) as (H1 & H2).
    destruct (Rlt_dec m v); (split; [lra|constructor; [lra|exact H2]]).
Qed.

Lemma rmin_le (l : list R) (x : R) : In x l -> rmin l <= x.
Proof.
  destruct l as [|v l]; [contradiction|]. cbn [rmin].
  destruct (rmin_from_le l v) as (H1 & H2). rewrite Forall_forall in H2.
  intros [<-|H]; [exact H1|now apply H2].
Qed.

Lemma rmax_ge (l : list R) (x : R) : In x l -> x <= rmax l.
Proof.
  destruct l as [|v l]; [contradiction|]. cbn [rmax].
  destruct (rmax_from_ge l v) as (H1 & H2). rewrite Forall_forall in H2.
  intros [<-|H]; [exact H1|now apply H2].
Qed.

Lemma hd_exact (X : list (list R)) :
  hd [] (exact_series X) = exact_point (hd [] X).
Proof. now destruct X. Qed.

Lemma last_exact (X : list (list R)) :
  last (exact_series X) [] = exact_point (last X []).
Proof.
  induction X as [|x X IH]; [reflexivity|].
  destruct X as [|y X]; [reflexivity|]. exact IH.
Qed.

Lemma column_exact (T : list (list R)) (j : nat) :
  column (exact_series T) j = map Fin (map (fun row => nth j row 0) T).
Proof.
  unfold column, exact_series, exact_point. rewrite !map_map.
  apply map_ext. intros row. change (@fzero xreal Exact) with (Fin 0).
  apply map_nth.
Qed.

Lemma min_axis0_exact (T : list (list R)) :
  min_axis0 (exact_series T) = exact_point (envelope_min T).
Proof.
  unfold min_axis0, envelope_min, exact_point, shape1.
  rewrite hd_exact. unfold exact_point. rewrite length_map, map_map.
  apply map_ext. intros j. rewrite column_exact. apply np_min_exact.
Qed.

Lemma max_axis0_exact (T : list (list R)) :
  max_axis0 (exact_series T) = exact_point (envelope_max T).
Proof.
  unfold max_axis0, envelope_max, exact_point, shape1.
  rewrite hd_exact. unfold exact_point. rewrite length_map, map_map.
  apply map_ext. intros j. rewrite column_exact. apply np_max_exact.
Qed.

Lemma Forall2_of_nth (P : R -> R -> Prop) (l : list R) :
  forall l', length l = length l' ->
    (forall i, (i < length l)%nat -> P (nth i l 0) (nth i l' 0)) ->
    Forall2 P l l'.
Proof.
  induction l as [|x l IH]; intros [|y l'] Hlen H; try discriminate;
    constructor.
  - apply (H 0%nat). simpl. lia.
  - apply IH; [simpl in Hlen; lia|]. intros i Hi. apply (H (S i)). simpl. lia.
Qed.

Lemma nth_envelope (f : list R -> R) (T : list (list R)) (i : nat) :
  (i < length (hd [] T))%nat ->
  nth i (map (fun j => f (map (fun row => nth j row 0) T))
             (seq 0 (length (hd [] T)))) 0
  = f (map (fun row => nth i row 0) T).
Proof.
  intros Hi.
  rewrite nth_indep with (d' := (fun j => f (map (fun row => nth j row 0) T)) 0%nat)
    by (rewrite length_map, length_seq; exact Hi).
  rewrite map_nth with (f := fun j => f (map (fun row => nth j row 0) T)).
  now rewrite seq_nth.
Qed.

(** Every point of a series lies inside the envelope of the series. *)
Lemma envelope_bounds (T : list (list R)) (dim : nat) (t : list R) :
  Forall (fun p => length p = dim) T -> In t T ->
  Forall2 Rle (envelope_min T) t /\ Forall2 Rle t (envelope_max T).
Proof.
  intros Hd Ht. pose proof Hd as Hd'. rewrite Forall_forall in Hd'.
  assert (Hh : length (hd [] T) = dim).
  { destruct T as [|t0 T]; [contradiction|]. apply Hd'. now left. }
  assert (Hl : length t = dim) by now apply Hd'.
  split; apply Forall2_of_nth;
    unfold envelope_min, envelope_max;
    rewrite ?length_map, ?length_seq; try lia; intros i Hi.
  - rewrite nth_envelope by lia. apply rmin_le.
    apply in_map_iff. now exists t.
  - rewrite nth_envelope by lia. apply rmax_ge.
    apply in_map_iff. now exists t.
Qed.

Lemma total_nonneg (l : list R) : Forall (fun x => 0 <= x) l -> 0 <= total l.
Proof.
  induction 1 as [|x l Hx _ IH]; [simpl; lra|]. rewrite total_cons. lra.
Qed.

Lemma total_rsq_nonneg (l : list R) : 0 <= total (map rsq l).
Proof.
  apply total_nonneg. apply Forall_forall. intros x Hx.
  apply in_map_iff in Hx. destruct Hx as (y & <- & _). apply rsq_nonneg.
Qed.

Lemma excess_over_nonneg (hi r : list R) : 0 <= excess_over hi r.
Proof. apply total_rsq_nonneg. Qed.

Lemma excess_under_nonneg (lo r : list R) : 0 <= excess_under lo r.
Proof. apply total_rsq_nonneg. Qed.

(** Zeroed ends. *)
Lemma hd_zeroed_ends (l : list R) : hd 0 (zeroed_ends l) = 0.
Proof. now destruct l. Qed.

Lemma last_zeroed (c : nat -> bool) (l : list R) :
  forall k, c (k + length l - 1)%nat = true ->
    last (Py.mapi_from k (fun k x => if c k then 0 else x) l) 0 = 0.
Proof.
  induction l as [|x l IH]; intros k Hc; [reflexivity|].
  cbn [Py.mapi_from]. destruct l as [|y l].
  - cbn [Py.mapi_from last]. simpl in Hc.
    replace (k + 1 - 1)%nat with k in Hc by lia. now rewrite Hc.
  - change (last (?a :: Py.mapi_from (S k) ?f (y :: l)) 0)
      with (last (Py.mapi_from (S k) f (y :: l)) 0).
    apply IH. rewrite <- Hc. f_equal. simpl. lia.
Qed.

Lemma last_zeroed_ends (l : list R) : last (zeroed_ends l) 0 = 0.
Proof.
  unfold zeroed_ends, Py.mapi.
  apply last_zeroed with
    (c := fun k => orb (Nat.eqb k 0) (Nat.eqb (S k) (length l))).
  destruct l as [|x l]; [reflexivity|].
  apply orb_true_iff. right. apply Nat.eqb_eq. simpl. lia.
Qed.

Lemma total_zeroed_add (c : nat -> bool) (A : Type) (f g : A -> R)
  (l : list A) :
  forall k,
    total (Py.mapi_from k (fun k x => if c k then 0 else x)
             (map (fun r => f r + g r) l))
    = total (Py.mapi_from k (fun k x => if c k then 0 else x) (map f l))
      + total (Py.mapi_from k (fun k x => if c k then 0 else x) (map g l)).
Proof.
  induction l as [|x l IH]; intros k; cbn [map Py.mapi_from].
  - simpl. lra.
  - rewrite !total_cons, IH. destruct (c k); lra.
Qed.

Lemma total_zeroed_ends_add (A : Type) (f g : A -> R) (l : list A) :
  total (zeroed_ends (map (fun r => f r + g r) l))
  = total (zeroed_ends (map f l)) + total (zeroed_ends (map g l)).
Proof.
  unfold zeroed_ends, Py.mapi. rewrite !length_map.
  apply total_zeroed_add with
    (c := fun k => orb (Nat.eqb k 0) (Nat.eqb (S k) (length l))).
Qed.

Lemma Forall2_zeroed (A : Type) (P : A -> R -> Prop) (c : nat -> bool)
  (l : list A) (l' : list R) :
  (forall x y, P x y -> P x 0) ->
  Forall2 P l l' ->
  forall k, Forall2 P l (Py.mapi_from k (fun k y => if c k then 0 else y) l').
Proof.
  intros H0. induction 1 as [|x y l l' Hxy _ IH]; intros k;
    cbn [Py.mapi_from]; constructor; auto.
  destruct (c k); eauto.
Qed.

Lemma Forall2_zeroed_ends (A : Type) (P : A -> R -> Prop) (l : list A)
  (l' : list R) :
  (forall x y, P x y -> P x 0) ->
  Forall2 P l l' -> Forall2 P l (zeroed_ends l').
Proof. intros H0 H. now apply Forall2_zeroed. Qed.

Lemma Forall2_map_both (A B C : Type) (P : B -> C -> Prop) (f : A -> B)
  (g : A -> C) (l : list A) :
  Forall (fun x => P (f x) (g x)) l -> Forall2 P (map f l) (map g l).
Proof. induction 1; constructor; auto. Qed.

Lemma hd_zeros (A : Type) (l : list A) : hd 0 (map (fun _ => 0) l) = 0.
Proof. now destruct l. Qed.

Lemma last_zeros (A : Type) (l : list A) : last (map (fun _ => 0) l) 0 = 0.
Proof.
  induction l as [|x l IH]; [reflexivity|].
  destruct l as [|y l]; [reflexivity|]. exact IH.
Qed.

Lemma total_zeros (A : Type) (l : list A) : total (map (fun _ => 0) l) = 0.
Proof.
  induction l as [|x l IH]; [reflexivity|]. cbn [map]. rewrite total_cons, IH.
  lra.
Qed.

End Envelopes.

(** *** The bounds of one template *)

Section TemplateBounds.

Local Open Scope R_scope.

Variables X T : list (list R).
Variable dim : nat.
Variable mask : list (list xreal).

Hypothesis X_nonempty : X <> [].
Hypothesis T_nonempty : T <> [].
Hypothesis X_dim : Forall (fun p => length p = dim) X.
Hypothesis T_dim : Forall (fun p => length p = dim) T.
Hypothesis two_cells : (2 <= length X \/ 2 <= length T)%nat.

(** The accumulated cost of the last cell. *)
Definition corner : xreal :=
  last (last (njit_accumulated_matrix (exact_series X) (exact_series T) mask)
             [])
       finf.

(** [dev_first_last]. *)
Definition endpoints : xreal :=
  fadd (sum_sq_diff (hd [] (exact_series X)) (hd [] (exact_series T)))
       (sum_sq_diff (last (exact_series X) []) (last (exact_series T) [])).

Lemma endpoints_exact :
  endpoints
  = Fin (rdist (hd [] X) (hd [] T) + rdist (last X []) (last T [])).
Proof.
  unfold endpoints. now rewrite !hd_exact, !last_exact, !sum_sq_diff_exact.
Qed.

Lemma first_cell_exact :
  xle (Fin (rdist (hd [] X) (hd [] T)))
      (local_squared_dist (hd [] (exact_series X)) (hd [] (exact_series T))).
Proof.
  rewrite !hd_exact, local_squared_dist_exact. simpl. lra.
Qed.

Lemma last_cell_exact :
  xle (Fin (rdist (last X []) (last T [])))
      (local_squared_dist (last (exact_series X) [])
                          (last (exact_series T) [])).
Proof.
  rewrite !last_exact, local_squared_dist_exact. simpl. lra.
Qed.

(** The candidate against the envelope of the template. *)
Lemma envelope_of_template_le :
  xle (fadd (fadd (excess_above (exact_series X) (max_axis0 (exact_series T)))
                  (excess_below (exact_series X)
                                (min_axis0 (exact_series T))))
            endpoints)
      corner.
Proof.
  rewrite max_axis0_exact, min_axis0_exact, excess_above_exact,
    excess_below_exact, endpoints_exact.
  set (hi := envelope_max T). set (lo := envelope_min T).
  set (a := rdist (hd [] X) (hd [] T)).
  set (z := rdist (last X []) (last T [])).
  pose (rho := fun r => excess_over hi r + excess_under lo r).
  pose (rs := zeroed_ends (map rho X)).
  pose (gs := map (fun _ : list R => 0) T).
  assert (H : xle (Fin (a + total rs + total gs + z)) corner).
  { apply accumulated_cost_lower_bound.
    - apply Forall2_zeroed_ends.
      + intros si r (Hr & Hc). split; [lra|].
        clear - Hr Hc. induction Hc as [|t g ? ? (Hg & Hc) _ IH];
          constructor; auto.
        split; [exact Hg|]. apply xle_fin with (b := r + g); [lra|exact Hc].
      + apply Forall2_map_both. apply Forall_forall. intros x Hx. split.
        * unfold rho. pose proof (excess_over_nonneg hi x).
          pose proof (excess_under_nonneg lo x). lra.
        * apply Forall2_map_both. apply Forall_forall. intros t Ht.
          split; [lra|]. rewrite local_squared_dist_exact.
          destruct (@envelope_bounds T dim t T_dim Ht) as (Hlo & Hhi).
          pose proof (envelope_excess_le x Hlo Hhi). unfold rho.
          fold hi lo in H. simpl. lra.
    - unfold exact_series. now destruct X.
    - unfold exact_series. now destruct T.
    - apply hd_zeroed_ends.
    - apply last_zeroed_ends.
    - apply hd_zeros.
    - apply last_zeros.
    - apply rdist_nonneg.
    - apply rdist_nonneg.
    - apply first_cell_exact.
    - apply last_cell_exact.
    - unfold exact_series. now rewrite !length_map. }
  cbn [fadd Exact xlift2]. apply xle_fin with (2 := H).
  unfold rs, gs, rho. rewrite total_zeroed_ends_add, total_zeros. lra.
Qed.

(** The template against the envelope of the candidate. *)
Lemma envelope_of_candidate_le :
  xle (fadd (fadd (excess_above (exact_series T) (max_axis0 (exact_series X)))
                  (excess_below (exact_series T)
                                (min_axis0 (exact_series X))))
            endpoints)
      corner.
Proof.
  rewrite max_axis0_exact, min_axis0_exact, excess_above_exact,
    excess_below_exact, endpoints_exact.
  set (hi := envelope_max X). set (lo := envelope_min X).
  set (a := rdist (hd [] X) (hd [] T)).
  set (z := rdist (last X []) (last T [])).
  pose (gamma := fun t => excess_over hi t + excess_under lo t).
  pose (rs := map (fun _ : list R => 0) X).
  pose (gs := zeroed_ends (map gamma T)).
  assert (H : xle (Fin (a + total rs + total gs + z)) corner).
  { apply accumulated_cost_lower_bound.
    - apply Forall2_map_both. apply Forall_forall. intros x Hx.
      split; [lra|]. apply Forall2_zeroed_ends.
      + intros t g (Hg & Hc). split; [lra|].
        apply xle_fin with (b := 0 + g); [lra|exact Hc].
      + apply Forall2_map_both. apply Forall_forall. intros t Ht.
        destruct (@envelope_bounds X dim x X_dim Hx) as (Hlo & Hhi).
        pose proof (envelope_excess_le t Hlo Hhi).
        fold hi lo in H. split.
        * unfold gamma. pose proof (excess_over_nonneg hi t).
          pose proof (excess_under_nonneg lo t). lra.
        * rewrite local_squared_dist_exact, rdist_sym. unfold gamma.
          simpl. lra.
    - unfold exact_series. now destruct X.
    - unfold exact_series. now destruct T.
    - apply hd_zeros.
    - apply last_zeros.
    - apply hd_zeroed_ends.
    - apply last_zeroed_ends.
    - apply rdist_nonneg.
    - apply rdist_nonneg.
    - apply first_cell_exact.
    - apply last_cell_exact.
    - unfold exact_series. now rewrite !length_map. }
  cbn [fadd Exact xlift2]. apply xle_fin with (2 := H).
  unfold rs, gs, gamma. rewrite total_zeroed_ends_add, total_zeros. lra.
Qed.

(** The first and the last points alone. *)
Lemma endpoints_le : xle endpoints corner.
Proof.
  rewrite endpoints_exact.
  set (a := rdist (hd [] X) (hd [] T)).
  set (z := rdist (last X []) (last T [])).
  pose (rs := map (fun _ : list R => 0) X).
  pose (gs := map (fun _ : list R => 0) T).
  assert (H : xle (Fin (a + total rs + total gs + z)) corner).
  { apply accumulated_cost_lower_bound.
    - apply Forall2_map_both. apply Forall_forall. intros x Hx.
      split; [lra|]. apply Forall2_map_both. apply Forall_forall.
      intros t Ht. split; [lra|]. rewrite local_squared_dist_exact.
      pose proof (rdist_nonneg x t). simpl. lra.
    - unfold exact_series. now destruct X.
    - unfold exact_series. now destruct T.
    - apply hd_zeros.
    - apply last_zeros.
    - apply hd_zeros.
    - apply last_zeros.
    - apply rdist_nonneg.
    - apply rdist_nonneg.
    - apply first_cell_exact.
    - apply last_cell_exact.
    - unfold exact_series. now rewrite !length_map. }
  apply xle_fin with (2 := H). unfold rs, gs. rewrite !total_zeros. lra.
Qed.

End TemplateBounds.

(** *** The bounds of the groups *)

Section Monotone.

Local Open Scope R_scope.

Lemma xle_fadd_mono (a b c d : xreal) :
  xle a b -> xle c d -> xle (fadd a c) (fadd b d).
Proof. destruct a, b, c, d; simpl; try tauto; lra. Qed.

Lemma xle_fsqrt_mono (a b : xreal) : xle a b -> xle (fsqrt a) (fsqrt b).
Proof. destruct a, b; simpl; try tauto. apply sqrt_le_1_alt. Qed.

Lemma xle_fdiv_mono (a b : xreal) (k : Z) :
  (0 < k)%Z -> xle a b -> xle (fdiv a (of_int k)) (fdiv b (of_int k)).
Proof.
  intros Hk. destruct a, b; simpl; try tauto. intros H.
  apply Rmult_le_compat_r; [|exact H].
  left. apply Rinv_0_lt_compat. now apply IZR_lt.
Qed.

Lemma pymax_lub (a b c : xreal) : xle a c -> xle b c -> xle (pymax a b) c.
Proof. unfold pymax. now destruct (fltb a b). Qed.

Lemma running_min_mono (a b c d : xreal) :
  xle a b -> xle c d ->
  xle (if fltb a c then a else c) (if fltb b d then b else d).
Proof.
  intros Hab Hcd. change (@fltb xreal Exact) with xltb.
  assert (Ha : xle (if xltb a c then a else c) a).
  { destruct (xltb a c) eqn:E; [apply xle_refl|now apply xltb_false]. }
  assert (Hc : xle (if xltb a c then a else c) c).
  { destruct (xltb a c) eqn:E; [now apply xltb_true|apply xle_refl]. }
  destruct (xltb b d); [apply xle_trans with a|apply xle_trans with c];
    assumption.
Qed.

Lemma xltb_beyond (a b c : xreal) :
  xltb a b = true -> xle b c -> xltb c a = false.
Proof.
  destruct a as [a|], b as [b|], c as [c|]; simpl; try tauto;
    try discriminate.
  destruct (Rlt_dec a b); [|discriminate]. intros _ H.
  destruct (Rlt_dec c a); [lra|reflexivity].
Qed.

End Monotone.

Lemma foldM_lockstep {A B S S' : Type} (R : S -> S' -> Prop)
  (Q : A -> B -> Prop) (f : S -> A -> outcome S) (g : S' -> B -> outcome S') :
  (forall x y s s', Q x y -> R s s' ->
     exists t t', f s x = Ok t /\ g s' y = Ok t' /\ R t t') ->
  forall l l', Forall2 Q l l' ->
  forall s s', R s s' ->
    exists t t', foldM f l s = Ok t /\ foldM g l' s' = Ok t' /\ R t t'.
Proof.
  intros Hstep l l' H. induction H as [|x y l l' Hxy _ IH]; intros s s' Hs.
  - exists s, s'. auto.
  - destruct (Hstep x y s s' Hxy Hs) as (t & t' & E & E' & Ht).
    cbn [foldM]. rewrite E, E'. cbn [bind]. now apply IH.
Qed.

Lemma combine_map_self {A B : Type} (f : A -> B) (l : list A) :
  combine l (map f l) = map (fun x => (x, f x)) l.
Proof. induction l as [|x l IH]; simpl; [reflexivity|now rewrite IH]. Qed.

Section GroupBounds.

Variable sequence : series xreal.
Variable warping_window : option xreal.

(** The loop over the groups of a bound, one group [x] at a time, against
    the loop over the groups of the distance. *)
Lemma groups_lockstep (A : Type) (inner : A -> outcome xreal)
  (size : A -> nat) :
  forall (l : list A) (groups : list (list (series xreal))),
    Forall2 (fun x G =>
               size x = length G /\ G <> []
               /\ exists v_lb v_d,
                    inner x = Ok v_lb
                    /\ group_distance_sum sequence G warping_window = Ok v_d
                    /\ xle v_lb v_d)
            l groups ->
    forall (vmin_lb vmin_d : xreal) (i label : Z),
      xle vmin_lb vmin_d ->
      exists lb d lab,
        foldM (fun val_min x =>
                 val <- inner x ;; close_group val (size x) val_min)
              l vmin_lb = Ok lb
        /\ average_distance_loop sequence groups warping_window i vmin_d label
           = Ok (d, lab)
        /\ xle lb d.
Proof.
  intros l groups H.
  induction H as [|x G l groups (Hsize & HG & v_lb & v_d & E & E' & Hv) _ IH];
    intros vmin_lb vmin_d i label Hmin.
  - exists vmin_lb, vmin_d, label. auto.
  - cbn [foldM average_distance_loop]. rewrite E, E'. cbn [bind].
    unfold close_group. rewrite Hsize.
    assert (Hn : (0 < Z.of_nat (length G))%Z) by (destruct G; [congruence|simpl; lia]).
    rewrite !div_int_ok by lia. cbn [bind].
    pose proof (@xle_fdiv_mono _ _ _ Hn Hv) as Hd.
    pose proof (running_min_mono _ _ _ _ Hd Hmin) as Hm.
    destruct (fltb (fdiv v_d (of_int (Z.of_nat (length G)))) vmin_d);
      now apply IH.
Qed.

End GroupBounds.

(** *** Soundness of the bounds beyond single points *)

Section BoundsSound.

Variable X : list (list R).
Variable templates : list (list (list (list R))).
Variable dim : nat.
Variable warping_window : option xreal.

Hypothesis X_nonempty : X <> [].
Hypothesis X_dim : Forall (fun p => length p = dim) X.
Hypothesis groups_nonempty : Forall (fun G => G <> []) templates.
Hypothesis templates_ok :
  Forall (Forall (fun T => T <> [] /\ Forall (fun p => length p = dim) T))
         templates.
Hypothesis two_cells :
  (2 <= length X)%nat
  \/ Forall (Forall (fun T : list (list R) => (2 <= length T)%nat)) templates.

Lemma lengths_positive (T : list (list R)) :
  T <> [] ->
  0 < Z.of_nat (length (exact_series X)) + Z.of_nat (length (exact_series T)).
Proof.
  intros HT. unfold exact_series. rewrite !length_map.
  destruct T; [congruence|]. simpl. lia.
Qed.

Lemma template_facts (G : list (list (list R))) (T : list (list R)) :
  In G templates -> In T G ->
  T <> [] /\ Forall (fun p => length p = dim) T
  /\ ((2 <= length X)%nat \/ (2 <= length T)%nat).
Proof.
  intros HG HT. rewrite Forall_forall in templates_ok.
  specialize (templates_ok G HG). rewrite Forall_forall in templates_ok.
  destruct (templates_ok T HT) as (H1 & H2). repeat split; auto.
  destruct two_cells as [H|H]; [now left|right].
  rewrite Forall_forall in H. specialize (H G HG).
  rewrite Forall_forall in H. now apply H.
Qed.

(** The distance of one template, from below. *)
Lemma template_distance_above (G : list (list (list R))) (T : list (list R))
  (b : xreal) :
  In G templates -> In T G ->
  (forall mask, xle b (corner X T mask)) ->
  let n := Z.of_nat (length (exact_series X))
           + Z.of_nat (length (exact_series T)) in
  xle (fdiv (fsqrt b) (of_int n))
      (fdiv (njit_dtw (exact_series X) (exact_series T)
               (dtw_mask (Z.of_nat (length (exact_series X)))
                  (Z.of_nat (length (exact_series T))) warping_window))
            (of_int n)).
Proof.
  intros HG HT Hb n. destruct (template_facts G T HG HT) as (H1 & _).
  apply xle_fdiv_mono; [now apply lengths_positive|].
  apply xle_fsqrt_mono. apply Hb.
Qed.

Lemma group_bound1 (G : list (list (list R))) :
  In G templates ->
  exists v_lb v_d,
    foldM (fun val temp =>
             d <- div_int
                    (fsqrt (fadd (sum_sq_diff (hd [] (exact_series X))
                                    (info_first_value temp))
                                 (sum_sq_diff (last (exact_series X) [])
                                    (info_last_value temp))))
                    (Z.of_nat (length (exact_series X)) + info_length temp) ;;
             Ok (fadd val d))
          (map template_info_of (map exact_series G)) fzero = Ok v_lb
    /\ group_distance_sum (exact_series X) (map exact_series G)
         warping_window = Ok v_d
    /\ xle v_lb v_d.
Proof.
  intros HG. unfold group_distance_sum.
  apply foldM_lockstep with
    (R := xle)
    (Q := fun info temp =>
            exists T, In T G /\ info = template_info_of (exact_series T)
                      /\ temp = exact_series T).
  - intros info temp s s' (T & HT & -> & ->) Hs.
    destruct (template_facts G T HG HT) as (H1 & H2 & H3).
    cbn [info_first_value info_last_value info_length template_info_of].
    pose proof (lengths_positive H1) as Hn.
    rewrite !div_int_ok by lia. cbn [bind]. do 2 eexists.
    split; [reflexivity|]. split; [reflexivity|].
    apply xle_fadd_mono; [exact Hs|].
    apply (@template_distance_above G T (endpoints X T) HG HT).
    intros mask. now apply endpoints_le with (dim := dim).
  - rewrite map_map. apply Forall2_map_both. apply Forall_forall.
    intros T HT. now exists T.
  - apply xle_refl.
Qed.

Lemma group_bound2 (G : list (list (list R))) :
  In G templates ->
  let sequence := exact_series X in
  let len_seq := Z.of_nat (length sequence) in
  let min_seq := min_axis0 sequence in
  let max_seq := max_axis0 sequence in
  exists v_lb v_d,
    foldM (fun val (tj : series xreal * template_info_tuple xreal) =>
             let temp := fst tj in
             let info := snd tj in
             let dev_first_last :=
               fadd (sum_sq_diff (hd [] sequence) (info_first_value info))
                    (sum_sq_diff (last sequence []) (info_last_value info)) in
             val1 <- div_int
                       (fsqrt (fadd (fadd
                          (excess_above sequence (info_max info))
                          (excess_below sequence (info_min info)))
                          dev_first_last))
                       (len_seq + info_length info) ;;
             val2 <- div_int
                       (fsqrt (fadd (fadd
                          (excess_above temp max_seq)
                          (excess_below temp min_seq))
                          dev_first_last))
                       (len_seq + info_length info) ;;
             Ok (fadd val (pymax val1 val2)))
          (combine (map exact_series G)
                   (map template_info_of (map exact_series G)))
          fzero = Ok v_lb
    /\ group_distance_sum sequence (map exact_series G) warping_window
       = Ok v_d
    /\ xle v_lb v_d.
Proof.
  intros HG sequence len_seq min_seq max_seq. unfold group_distance_sum.
  apply foldM_lockstep with
    (R := xle)
    (Q := fun (tj : series xreal * template_info_tuple xreal) temp =>
            exists T, In T G
                      /\ tj = (exact_series T,
                               template_info_of (exact_series T))
                      /\ temp = exact_series T).
  - intros tj temp s s' (T & HT & -> & ->) Hs.
    destruct (template_facts G T HG HT) as (H1 & H2 & H3).
    cbn [fst snd info_first_value info_last_value info_length info_min
         info_max template_info_of].
    pose proof (lengths_positive H1) as Hn. subst len_seq sequence.
    rewrite !div_int_ok by lia. cbn [bind]. do 2 eexists.
    split; [reflexivity|]. split; [reflexivity|].
    apply xle_fadd_mono; [exact Hs|]. apply pymax_lub.
    + apply (@template_distance_above G T _ HG HT).
      intros mask. now apply envelope_of_template_le with (dim := dim).
    + apply (@template_distance_above G T _ HG HT).
      intros mask. now apply envelope_of_candidate_le with (dim := dim).
  - rewrite combine_map_self, map_map. apply Forall2_map_both.
    apply Forall_forall. intros T HT. now exists T.
  - apply xle_refl.
Qed.

(** The three functions return, and both bounds are at most the distance. *)
Lemma bounds_return_below_distance :
  let sequence := exact_series X in
  let tpl := map (map exact_series) templates in
  exists lb1 lb2 d label,
    average_lb_distance_to_templates1 sequence (templates_info_of tpl)
    = Ok lb1
    /\ average_lb_distance_to_templates2 sequence tpl (templates_info_of tpl)
       = Ok lb2
    /\ average_distance_to_templates sequence tpl warping_window
       = Ok (d, label)
    /\ xle lb1 d /\ xle lb2 d.
Proof.
  intros sequence tpl.
  assert (Hsize : forall G : list (list (list R)), In G templates ->
            map exact_series G <> []).
  { intros G HG. rewrite Forall_forall in groups_nonempty.
    specialize (groups_nonempty G HG). now destruct G. }
  destruct (@groups_lockstep sequence warping_window
              (list (template_info_tuple xreal))
              (fun t =>
                 foldM (fun val temp =>
                          d <- div_int
                                 (fsqrt (fadd (sum_sq_diff (hd [] sequence)
                                                 (info_first_value temp))
                                              (sum_sq_diff (last sequence [])
                                                 (info_last_value temp))))
                                 (Z.of_nat (length sequence)
                                  + info_length temp) ;;
                          Ok (fadd val d))
                       t fzero)
              (@length _) (templates_info_of tpl) tpl)
    with (vmin_lb := Inf) (vmin_d := Inf) (i := 0) (label := 1)
    as (lb1 & d & label & E1 & Ed & H1).
  { unfold templates_info_of, tpl. rewrite map_map.
    apply Forall2_map_both. apply Forall_forall. intros G HG.
    split; [now rewrite !length_map|]. split; [now apply Hsize|].
    now apply group_bound1. }
  { exact I. }
  destruct (@groups_lockstep sequence warping_window
              (list (series xreal) * list (template_info_tuple xreal))
              (fun ti =>
                 foldM (fun val (tj : series xreal * template_info_tuple xreal) =>
                          let temp := fst tj in
                          let info := snd tj in
                          let dev_first_last :=
                            fadd (sum_sq_diff (hd [] sequence)
                                    (info_first_value info))
                                 (sum_sq_diff (last sequence [])
                                    (info_last_value info)) in
                          val1 <- div_int
                                    (fsqrt (fadd (fadd
                                       (excess_above sequence (info_max info))
                                       (excess_below sequence (info_min info)))
                                       dev_first_last))
                                    (Z.of_nat (length sequence)
                                     + info_length info) ;;
                          val2 <- div_int
                                    (fsqrt (fadd (fadd
                                       (excess_above temp (max_axis0 sequence))
                                       (excess_below temp (min_axis0 sequence)))
                                       dev_first_last))
                                    (Z.of_nat (length sequence)
                                     + info_length info) ;;
                          Ok (fadd val (pymax val1 val2)))
                       (combine (fst ti) (snd ti)) fzero)
              (fun ti => length (fst ti))
              (combine tpl (templates_info_of tpl)) tpl)
    with (vmin_lb := Inf) (vmin_d := Inf) (i := 0) (label := 1)
    as (lb2 & d' & label' & E2 & Ed' & H2).
  { unfold templates_info_of, tpl. rewrite combine_map_self, map_map.
    apply Forall2_map_both. apply Forall_forall. intros G HG.
    cbn [fst snd]. split; [reflexivity|]. split; [now apply Hsize|].
    now apply group_bound2. }
  { exact I. }
  rewrite Ed in Ed'. injection Ed' as <- <-.
  exists lb1, lb2, d, label. repeat split; auto.
Qed.

(** C2, outside the case of a candidate of one point and a template of one
    point: there the two bounds are lower bounds.  On a real-valued
    candidate and real-valued templates of one dimension, every group with a
    template, the three functions return, and the minimum of Bound 1 over
    the groups and the minimum of Bound 2 over the groups are at most the
    minimum average warped distance, with or without a warping window. *)
Theorem lower_bounds_below_distance :
  let sequence := exact_series X in
  let tpl := map (map exact_series) templates in
  exists lb1 lb2 d label,
    average_lb_distance_to_templates1 sequence (templates_info_of tpl)
    = Ok lb1
    /\ average_lb_distance_to_templates2 sequence tpl (templates_info_of tpl)
       = Ok lb2
    /\ average_distance_to_templates sequence tpl warping_window
       = Ok (d, label)
    /\ xle lb1 d /\ xle lb2 d.
Proof. exact bounds_return_below_distance. Qed.

(** Then the pruning of the length search is safe: with the bounds in use,
    one step of the search has the outcome it has without them, so no
    candidate that would have improved the result is discarded. *)
Theorem pruning_keeps_the_search_result (m : Z) (st : Z * xreal * Z) :
  let sequence := exact_series X in
  let tpl := map (map exact_series) templates in
  search_body tpl (templates_info_of tpl) warping_window true sequence m st
  = search_body tpl (templates_info_of tpl) warping_window false sequence m
      st.
Proof.
  intros sequence tpl.
  destruct bounds_return_below_distance
    as (lb1 & lb2 & d & label & E1 & E2 & Ed & H1 & H2).
  fold sequence tpl in E1, E2, Ed.
  unfold search_body. destruct st as ((len_best & d_min) & label_best).
  rewrite E1, E2, Ed. cbn [bind]. change (@fltb xreal Exact) with xltb.
  destruct (xltb d_min lb1) eqn:L1.
  - now rewrite (xltb_beyond _ _ _ L1 H1).
  - destruct (xltb d_min lb2) eqn:L2; [|reflexivity].
    now rewrite (xltb_beyond _ _ _ L2 H2).
Qed.

End BoundsSound.

(** The two statements at a candidate of three points and one action with a
    template of three points and a template of one point. *)
Lemma lower_bounds_below_distance_witness :
  let sequence := exact_series [[0]; [1]; [0]]%R in
  let tpl := map (map exact_series) [[[[0]; [2]; [0]]; [[1]]]]%R in
  exists lb1 lb2 d label,
    average_lb_distance_to_templates1 sequence (templates_info_of tpl)
    = Ok lb1
    /\ average_lb_distance_to_templates2 sequence tpl (templates_info_of tpl)
       = Ok lb2
    /\ average_distance_to_templates sequence tpl None = Ok (d, label)
    /\ xle lb1 d /\ xle lb2 d.
Proof.
  apply (@lower_bounds_below_distance [[0]; [1]; [0]]%R
           [[[[0]; [2]; [0]]; [[1]]]]%R 1%nat None).
  - discriminate.
  - repeat constructor.
  - repeat constructor; discriminate.
  - repeat constructor; discriminate.
  - left. simpl. lia.
Defined.

Lemma pruning_keeps_the_search_result_witness :
  let sequence := exact_series [[0]; [1]; [0]]%R in
  let tpl := map (map exact_series) [[[[0]; [2]; [0]]; [[1]]]]%R in
  search_body tpl (templates_info_of tpl) None true sequence 3 (2, Fin 0, 1)
  = search_body tpl (templates_info_of tpl) None false sequence 3
      (2, Fin 0, 1).
Proof.
  apply (@pruning_keeps_the_search_result [[0]; [1]; [0]]%R
           [[[[0]; [2]; [0]]; [[1]]]]%R 1%nat None).
  - discriminate.
  - repeat constructor.
  - repeat constructor; discriminate.
  - repeat constructor; discriminate.
  - left. simpl. lia.
Defined.

(** * Further properties of the code *)

(** ** [find_max_combinations] *)

(** *** Binomial coefficients *)

Lemma comb_0_r (m : nat) : comb m 0 = 1.
Proof. now destruct m. Qed.

Lemma comb_nonneg (m : nat) : forall k, 0 <= comb m k.
Proof.
  induction m as [|m IH]; intros [|k]; simpl; try lia.
  specialize (IH k) as H1. specialize (IH (S k)) as H2. lia.
Qed.

(** [(k + 1) * C(m, k + 1) = (m - k) * C(m, k)]. *)
Lemma comb_ratio (m : nat) :
  forall k : nat,
    Z.of_nat (S k) * comb m (S k) = (Z.of_nat m - Z.of_nat k) * comb m k.
Proof.
  induction m as [|m IH]; intros k.
  - destruct k; simpl; lia.
  - destruct k as [|k].
    + pose proof (IH 0%nat) as H. rewrite comb_0_r in H.
      change (comb (S m) 1) with (comb m 0 + comb m 1).
      rewrite !comb_0_r. lia.
    + change (comb (S m) (S (S k))) with (comb m (S k) + comb m (S (S k))).
      change (comb (S m) (S k)) with (comb m k + comb m (S k)).
      pose proof (IH (S k)) as H1. pose proof (IH k) as H2. nia.
Qed.

Lemma comb_pos (m k : nat) : (k <= m)%nat -> 0 < comb m k.
Proof.
  revert m. induction k as [|k IH]; intros m Hk.
  - rewrite comb_0_r. lia.
  - pose proof (comb_ratio m k) as H. specialize (IH m ltac:(lia)).
    pose proof (comb_nonneg m (S k)). nia.
Qed.

(** The coefficients rise up to the middle and fall after it. *)
Lemma comb_rises (m k : nat) :
  (2 * k + 1 <= m)%nat -> comb m k <= comb m (S k).
Proof.
  intros Hk. pose proof (comb_ratio m k) as H.
  pose proof (comb_nonneg m k). pose proof (comb_nonneg m (S k)). nia.
Qed.

Lemma comb_falls (m k : nat) :
  (m < 2 * k + 1)%nat -> (k <= m)%nat -> comb m (S k) < comb m k.
Proof.
  intros Hk Hm. pose proof (comb_ratio m k) as H.
  pose proof (comb_pos Hm). pose proof (comb_nonneg m (S k)). nia.
Qed.

Lemma comb_below_middle (m : nat) (i j : nat) :
  (i <= j)%nat -> (2 * j <= m + 1)%nat -> comb m i <= comb m j.
Proof.
  intros Hij. induction Hij as [|j Hij IH]; intros Hj; [lia|].
  specialize (IH ltac:(lia)). pose proof (@comb_rises m j ltac:(lia)). lia.
Qed.

Lemma comb_above_middle (m : nat) (i j : nat) :
  (i < j)%nat -> (m <= 2 * i)%nat -> (i <= m)%nat -> comb m j < comb m i.
Proof.
  intros Hij Hi Him. induction Hij as [|j Hij IH].
  - apply comb_falls; lia.
  - destruct (Nat.le_gt_cases j m) as [Hjm|Hjm].
    + pose proof (@comb_falls m j ltac:(lia) Hjm). lia.
    + pose proof (comb_ratio m j) as H. pose proof (comb_nonneg m (S j)).
      pose proof (comb_nonneg m j). pose proof (comb_pos Him).
      assert (comb m (S j) = 0) by nia. lia.
Qed.

(** *** The keys of [vals] and the lookup *)

Section MaxCombinationsAny.

Context {F : Type} {AR : Arith F}.

(** The items of the dictionary [vals]. *)
Definition sample_values (n : Z) : list (Z * F) :=
  map (fun i => (i, fadd (fmul (of_int n)
                            (of_int (comb (Z.to_nat (n - 1)) (Z.to_nat i))))
                         (fmul eps6 (of_int i))))
      (map (fun i => i + 1) (Py.range (n - 1))).

Lemma sample_values_keys (n i : Z) :
  In i (map fst (sample_values n)) <-> 1 <= i <= n - 1.
Proof.
  unfold sample_values, Py.range. rewrite !map_map. cbn [fst].
  rewrite in_map_iff. split.
  - intros (j & <- & Hj). apply in_seq in Hj. lia.
  - intros Hi. exists (Z.to_nat (i - 1)). split; [lia|]. apply in_seq. lia.
Qed.

Lemma argmax_from_in (items : list (Z * F)) :
  forall best best_val,
    In (argmax_from best best_val items) (best :: map fst items).
Proof.
  induction items as [|(i & v) t IH]; intros best best_val;
    cbn [argmax_from map fst].
  - now left.
  - destruct (fltb best_val v).
    + right. apply IH.
    + destruct (IH best best_val) as [H|H]; [now left|right; now right].
Qed.

Lemma find_key (items : list (Z * F)) (k : Z) :
  In k (map fst items) ->
  exists v, find (fun iv => fst iv =? k) items = Some (k, v)
            /\ In (k, v) items.
Proof.
  induction items as [|(i & v) t IH]; cbn [map fst In find]; [contradiction|].
  intros H. destruct (Z.eqb_spec i k) as [->|Hne].
  - exists v. split; [reflexivity|now left].
  - destruct H as [H|H]; [contradiction|].
    destruct (IH H) as (v' & E & Hin). exists v'. split; [exact E|now right].
Qed.

Lemma find_no_key (items : list (Z * F)) (k : Z) :
  ~ In k (map fst items) -> find (fun iv => fst iv =? k) items = None.
Proof.
  induction items as [|(i & v) t IH]; cbn [map fst In find]; [reflexivity|].
  intros H. destruct (Z.eqb_spec i k) as [->|Hne]; [tauto|]. apply IH. tauto.
Qed.

(** A result has a key of the dictionary. *)
Lemma find_max_combinations_range (n : Z) (k : option Z) (k' v : Z) :
  find_max_combinations (F := F) n k = Ok (k', v) -> 1 <= k' <= n - 1.
Proof.
  unfold find_max_combinations. fold (sample_values n). intros E.
  destruct (match k with
            | Some k0 => find (fun iv => fst iv =? k0) (sample_values n)
            | None => None
            end) as [(k1 & v1)|] eqn:Ek.
  - injection E as <- _. destruct k as [k0|]; [|discriminate].
    apply find_some in Ek. destruct Ek as (Hin & Hk). cbn [fst] in Hk.
    apply sample_values_keys. apply in_map_iff. now exists (k1, v1).
  - destruct (sample_values n) as [|(i & x) t] eqn:Ev; [discriminate|].
    pose proof (argmax_from_in t i x) as Hin.
    destruct (find _ ((i, x) :: t)) as [(k1 & v1)|]; [|discriminate].
    injection E as <- _.
    apply sample_values_keys. now rewrite Ev.
Qed.


End MaxCombinationsAny.

(** *** The sample size in exact arithmetic *)

Section MaxCombinationsExact.

Local Open Scope R_scope.

(** The value of the key [i]: [n * C(n - 1, i) + 1e-6 * i]. *)
Definition sample_value (n i : Z) : R :=
  IZR n * IZR (comb (Z.to_nat (n - 1)) (Z.to_nat i))
  + 1 / IZR (10 ^ 6) * IZR i.

Lemma sample_values_exact (n : Z) :
  sample_values (F := xreal) n
  = map (fun i => (i, Fin (sample_value n i)))
        (map (fun i => (i + 1)%Z) (Py.range (n - 1))).
Proof. unfold sample_values. apply map_ext. reflexivity. Qed.

Lemma argmax_from_unique (kstar : Z) (rstar : R) (items : list (Z * xreal)) :
  forall best best_val,
    (forall i v, In (i, v) ((best, best_val) :: items) ->
       exists r, v = Fin r /\ (i = kstar -> r = rstar)
                 /\ (i <> kstar -> r < rstar)) ->
    In kstar (map fst ((best, best_val) :: items)) ->
    argmax_from best best_val items = kstar.
Proof.
  induction items as [|(i & v) t IH]; intros best bv Hall Hin.
  - destruct Hin as [H|[]]. exact H.
  - cbn [argmax_from].
    destruct (Hall best bv ltac:(now left)) as (rb & -> & Hb1 & Hb2).
    destruct (Hall i v ltac:(right; now left)) as (r & -> & Hr1 & Hr2).
    cbn [fltb Exact xltb]. destruct (Rlt_dec rb r) as [Hlt|Hge].
    + apply IH.
      * intros j w [E|Hj]; apply Hall; [right; now left|right; now right].
      * cbn [map fst In] in *. destruct Hin as [E|Hin]; [|exact Hin].
        exfalso. specialize (Hb1 E).
        destruct (Z.eq_dec i kstar) as [Ei|Ei];
          [specialize (Hr1 Ei)|specialize (Hr2 Ei)]; lra.
    + apply IH.
      * intros j w [E|Hj]; apply Hall; [now left|right; now right].
      * cbn [map fst In] in *. destruct Hin as [E|[E|Hin]]; auto.
        left. destruct (Z.eq_dec best kstar) as [Eb|Eb]; [exact Eb|].
        exfalso. specialize (Hb2 Eb). specialize (Hr1 E). lra.
Qed.

Lemma floor_int_exact (z : Z) (e : R) :
  0 <= e < 1 -> floor_int (Fin (IZR z + e)) = z.
Proof.
  intros He. unfold floor_int. cbn [ceil_int fsub fzero Exact xlift2 xceil].
  rewrite Z.opp_involutive. symmetry. apply Int_part_spec. lra.
Qed.

Lemma sample_value_below (n i : Z) :
  (2 <= n < 10 ^ 6)%Z -> (1 <= i <= n - 1)%Z -> i <> (n / 2)%Z ->
  sample_value n i < sample_value n (n / 2).
Proof.
  intros Hn Hi Hne. unfold sample_value.
  set (m := Z.to_nat (n - 1)).
  assert (Hhalf : (1 <= n / 2 <= n - 1)%Z).
  { split; [apply Z.div_le_lower_bound; lia|].
    assert (n / 2 < n)%Z by (apply Z.div_lt; lia). lia. }
  assert (H6 : IZR (10 ^ 6) = 1000000) by (simpl; lra).
  rewrite H6.
  assert (Hi6 : IZR i < 1000000)
    by (rewrite <- H6; apply IZR_lt; lia).
  assert (Hi0 : 1 <= IZR i) by (apply IZR_le; lia).
  assert (Hh0 : 1 <= IZR (n / 2)) by (apply IZR_le; lia).
  assert (Hn2 : 2 <= IZR n) by (apply IZR_le; lia).
  assert (Hmul : (2 * (n / 2) <= n < 2 * (n / 2) + 2)%Z).
  { pose proof (Z.div_mod n 2 ltac:(lia)).
    pose proof (Z.mod_pos_bound n 2 ltac:(lia)). lia. }
  destruct (Z.lt_ge_cases i (n / 2)) as [Hlt|Hge].
  - assert (Hc : (comb m (Z.to_nat i) <= comb m (Z.to_nat (n / 2)))%Z)
      by (apply comb_below_middle; unfold m; lia).
    apply IZR_le in Hc. apply IZR_lt in Hlt. nra.
  - assert (Hc : (comb m (Z.to_nat i) < comb m (Z.to_nat (n / 2)))%Z)
      by (apply comb_above_middle; unfold m; lia).
    assert (Hc1 : (comb m (Z.to_nat i) + 1 <= comb m (Z.to_nat (n / 2)))%Z)
      by lia.
    apply IZR_le in Hc1. rewrite plus_IZR in Hc1.
    assert (Hh6 : IZR (n / 2) < 1000000)
      by (rewrite <- H6; apply IZR_lt; lia).
    nra.
Qed.


End MaxCombinationsExact.


(** ** [stratified_sample] *)

(** *** The categories: [np.unique] and [np.where] *)

Lemma insert_unique_in (x z : Z) (l : list Z) :
  In z (insert_unique x l) <-> z = x \/ In z l.
Proof.
  induction l as [|y t IH]; cbn [insert_unique In]; [intuition congruence|].
  destruct (Z.ltb_spec x y); cbn [In]; [intuition congruence|].
  destruct (Z.eqb_spec x y); cbn [In]; [intuition congruence|].
  rewrite IH. intuition congruence.
Qed.

Lemma insert_unique_sorted (x : Z) (l : list Z) :
  StronglySorted Z.lt l -> StronglySorted Z.lt (insert_unique x l).
Proof.
  induction 1 as [|y t Ht IH Hy]; cbn [insert_unique].
  - repeat constructor.
  - destruct (Z.ltb_spec x y).
    + constructor; [now constructor|]. constructor; [exact H|].
      eapply Forall_impl; [|exact Hy]. intros a Ha. cbv beta in Ha. lia.
    + destruct (Z.eqb_spec x y); [now constructor|].
      constructor; [exact IH|]. apply Forall_forall. intros a Ha.
      apply insert_unique_in in Ha. destruct Ha as [->|Ha]; [lia|].
      rewrite Forall_forall in Hy. now apply Hy.
Qed.

Lemma np_unique_from (l : list Z) :
  forall acc,
    StronglySorted Z.lt acc ->
    StronglySorted Z.lt (fold_left (fun acc x => insert_unique x acc) l acc)
    /\ forall z, In z (fold_left (fun acc x => insert_unique x acc) l acc)
                 <-> In z l \/ In z acc.
Proof.
  induction l as [|x l IH]; intros acc Hacc; cbn [fold_left In].
  - split; [exact Hacc|tauto].
  - destruct (IH (insert_unique x acc) (insert_unique_sorted x Hacc))
      as (H1 & H2).
    split; [exact H1|]. intros z. rewrite H2, insert_unique_in.
    intuition congruence.
Qed.

Lemma np_unique_in (l : list Z) (z : Z) : In z (np_unique l) <-> In z l.
Proof.
  unfold np_unique. destruct (np_unique_from l (acc := [])) as (_ & H).
  - constructor.
  - rewrite H. cbn [In]. tauto.
Qed.

Lemma sorted_NoDup (l : list Z) : StronglySorted Z.lt l -> NoDup l.
Proof.
  induction 1 as [|y t Ht IH Hy]; constructor; [|exact IH].
  intros Hin. rewrite Forall_forall in Hy. specialize (Hy y Hin). lia.
Qed.

Lemma np_unique_NoDup (l : list Z) : NoDup (np_unique l).
Proof.
  apply sorted_NoDup. unfold np_unique.
  destruct (np_unique_from l (acc := [])) as (H & _); [constructor|exact H].
Qed.

(** The positions, from position [a] on, of the label [lab]. *)
Definition positions_from (a : nat) (l : list Z) (lab : Z) : list Z :=
  map fst (filter (fun il => snd il =? lab)
                  (combine (map Z.of_nat (seq a (length l))) l)).

Lemma positions_from_cons (a : nat) (x : Z) (t : list Z) (lab : Z) :
  positions_from a (x :: t) lab
  = (if x =? lab then [Z.of_nat a] else []) ++ positions_from (S a) t lab.
Proof.
  unfold positions_from. cbn [length seq map combine filter snd].
  now destruct (x =? lab).
Qed.

Lemma positions_from_in (l : list Z) (lab : Z) :
  forall (a : nat) (i : Z),
    In i (positions_from a l lab)
    <-> exists j : nat, i = Z.of_nat (a + j) /\ nth_error l j = Some lab.
Proof.
  induction l as [|x t IH]; intros a i.
  - split; [contradiction|]. intros (j & _ & E). now destruct j.
  - rewrite positions_from_cons, in_app_iff, IH. split.
    + intros [H|(j & -> & E)].
      * destruct (Z.eqb_spec x lab) as [->|]; [|contradiction].
        destruct H as [<-|[]]. exists 0%nat. split; [f_equal; lia|reflexivity].
      * exists (S j). split; [f_equal; lia|exact E].
    + intros ([|j] & -> & E).
      * left. cbn in E. injection E as ->. rewrite Z.eqb_refl. left.
        f_equal. lia.
      * right. exists j. split; [f_equal; lia|exact E].
Qed.

Lemma positions_from_NoDup (l : list Z) (lab : Z) :
  forall a, NoDup (positions_from a l lab).
Proof.
  induction l as [|x t IH]; intros a; [constructor|].
  rewrite positions_from_cons. destruct (x =? lab); [|apply IH].
  constructor; [|apply IH]. intros H. apply positions_from_in in H.
  destruct H as (j & E & _). lia.
Qed.

Lemma where_eq_in (labels : list Z) (lab i : Z) :
  In i (where_eq labels lab)
  <-> exists j : nat, i = Z.of_nat j /\ nth_error labels j = Some lab.
Proof.
  change (where_eq labels lab) with
    (map fst (filter (fun il => snd il =? lab)
                (combine (Py.range (Z.of_nat (length labels))) labels))).
  unfold Py.range. rewrite Nat2Z.id.
  apply (positions_from_in labels lab 0).
Qed.

Lemma where_eq_NoDup (labels : list Z) (lab : Z) : NoDup (where_eq labels lab).
Proof.
  change (where_eq labels lab) with
    (map fst (filter (fun il => snd il =? lab)
                (combine (Py.range (Z.of_nat (length labels))) labels))).
  unfold Py.range. rewrite Nat2Z.id.
  apply (positions_from_NoDup labels lab 0).
Qed.

(** The categories: the positions of each label, the labels in increasing
    order. *)
Definition categories (labels : list Z) : list (list Z) :=
  map (where_eq labels) (np_unique labels).

Lemma categories_in (labels : list Z) (i : Z) :
  In i (concat (categories labels))
  <-> 0 <= i < Z.of_nat (length labels).
Proof.
  unfold categories. rewrite in_concat. split.
  - intros (c & Hc & Hi). apply in_map_iff in Hc. destruct Hc as (lab & <- & _).
    apply where_eq_in in Hi. destruct Hi as (j & -> & E).
    assert (j < length labels)%nat by (apply nth_error_Some; congruence). lia.
  - intros Hi.
    destruct (nth_error labels (Z.to_nat i)) as [lab|] eqn:E.
    + exists (where_eq labels lab). split.
      * apply in_map. apply np_unique_in. eapply nth_error_In; eauto.
      * apply where_eq_in. exists (Z.to_nat i). split; [lia|exact E].
    + apply nth_error_None in E. lia.
Qed.

Lemma categories_NoDup (labels : list Z) : NoDup (concat (categories labels)).
Proof.
  unfold categories. apply NoDup_concat.
  - apply Forall_forall. intros c Hc. apply in_map_iff in Hc.
    destruct Hc as (lab & <- & _). apply where_eq_NoDup.
  - pose proof (np_unique_NoDup labels) as Hu.
    induction Hu as [|lab us Hlab _ IH]; cbn [map]; constructor; [|exact IH].
    apply Forall_forall. intros c Hc a Ha Ha'.
    apply in_map_iff in Hc. destruct Hc as (lab' & <- & Hlab').
    apply where_eq_in in Ha, Ha'.
    destruct Ha as (j & -> & E), Ha' as (j' & E' & E'').
    apply Nat2Z.inj in E'. subst j'. congruence.
Qed.

Lemma categories_length (labels : list Z) :
  length (concat (categories labels)) = length labels.
Proof.
  assert (H : Permutation (concat (categories labels))
                (map Z.of_nat (seq 0 (length labels)))).
  { apply NoDup_Permutation.
    - apply categories_NoDup.
    - apply NoDup_map_NoDup_ForallPairs; [|apply seq_NoDup].
      intros a b _ _. apply Nat2Z.inj.
    - intros i. rewrite categories_in, in_map_iff. split.
      + intros Hi. exists (Z.to_nat i). split; [lia|]. apply in_seq. lia.
      + intros (j & <- & Hj). apply in_seq in Hj. lia. }
  apply Permutation_length in H. now rewrite length_map, length_seq in H.
Qed.

Lemma categories_nonempty (labels : list Z) :
  Forall (fun c => c <> []) (categories labels).
Proof.
  apply Forall_forall. intros c Hc. apply in_map_iff in Hc.
  destruct Hc as (lab & <- & Hlab). rewrite np_unique_in in Hlab.
  apply In_nth_error in Hlab. destruct Hlab as (j & E).
  intros Hnil.
  assert (H : In (Z.of_nat j) (where_eq labels lab)).
  { apply where_eq_in. exists j. split; [reflexivity|exact E]. }
  rewrite Hnil in H. destruct H.
Qed.

(** *** The rounds of the sampler *)

Lemma map_nth_seq_from (x : list Z) :
  forall pre, map (fun k => nth k (pre ++ x) 0)
                  (seq (length pre) (length x)) = x.
Proof.
  induction x as [|a x IH]; intros pre; [reflexivity|].
  cbn [length seq map]. f_equal.
  - rewrite app_nth2 by lia. now rewrite Nat.sub_diag.
  - specialize (IH (pre ++ [a])). rewrite <- app_assoc in IH. cbn [app] in IH.
    rewrite length_app in IH. cbn [length] in IH.
    now rewrite Nat.add_1_r in IH.
Qed.

Lemma skipn_step (v : list Z) :
  forall i : nat,
    skipn i v
    = (if Z.of_nat i <? Z.of_nat (length v)
       then [Py.get 0 v (Z.of_nat i)] else [])
      ++ skipn (S i) v.
Proof.
  unfold Py.get. induction v as [|a v IH]; intros i.
  - now destruct i.
  - destruct i as [|i].
    + reflexivity.
    + cbn [skipn]. rewrite IH. cbn [length]. rewrite !Nat2Z.id.
      cbn [nth].
      replace (Z.of_nat (S i) <? Z.of_nat (S (length v)))
        with (Z.of_nat i <? Z.of_nat (length v)); [reflexivity|].
      destruct (Z.ltb_spec (Z.of_nat i) (Z.of_nat (length v)));
        destruct (Z.ltb_spec (Z.of_nat (S i)) (Z.of_nat (S (length v))));
        lia || reflexivity.
Qed.

(** What round [i] takes: element [i] of every category that has one. *)
Definition round_of (cats : list (list Z)) (i : Z) : list Z :=
  map (fun v => Py.get 0 v i)
      (filter (fun v => i <? Z.of_nat (length v)) cats).

(** What is left for the rounds [i], [i + 1], ... *)
Definition left_from (cats : list (list Z)) (i : nat) : list Z :=
  concat (map (skipn i) cats).

Lemma left_from_0 (cats : list (list Z)) : left_from cats 0 = concat cats.
Proof. unfold left_from. cbn [skipn]. now rewrite map_id. Qed.

Lemma left_from_step (cats : list (list Z)) (i : nat) :
  Permutation (left_from cats i)
              (round_of cats (Z.of_nat i) ++ left_from cats (S i)).
Proof.
  unfold left_from, round_of.
  induction cats as [|v cats IH]; [constructor|].
  cbn [map concat filter]. rewrite (skipn_step v i).
  destruct (Z.of_nat i <? Z.of_nat (length v)); cbn [map app].
  - constructor.
    eapply Permutation_trans; [apply Permutation_app_head, IH|].
    apply Permutation_app_swap_app.
  - eapply Permutation_trans; [apply Permutation_app_head, IH|].
    apply Permutation_app_swap_app.
Qed.

Lemma round_of_empty (cats : list (list Z)) (i : nat) :
  round_of cats (Z.of_nat i) = [] -> left_from cats i = [].
Proof.
  unfold left_from, round_of.
  induction cats as [|v cats IH]; [reflexivity|].
  cbn [map concat filter].
  destruct (Z.ltb_spec (Z.of_nat i) (Z.of_nat (length v))) as [Hlt|Hge];
    [discriminate|].
  intros E. rewrite (IH E), skipn_all2 by lia. reflexivity.
Qed.

Section Rounds.

Variable cats : list (list Z).
Variable k : Z.

(** The loop ends once the categories hold [k] positions, within [k - m]
    iterations; what it returns extends [index] by positions of the
    categories, each taken once, [k] or more in all. *)
Lemma stratified_rounds_returns (fuel : nat) :
  forall (i : nat) (index : list Z) (m : Z),
    m = Z.of_nat (length index) ->
    Permutation (index ++ left_from cats i) (concat cats) ->
    k <= Z.of_nat (length (concat cats)) ->
    (Z.to_nat (k - m) <= fuel)%nat ->
    exists r more left,
      stratified_rounds fuel cats k m (Z.of_nat i) index = Ok r
      /\ r = index ++ more
      /\ k <= Z.of_nat (length r)
      /\ Permutation (r ++ left) (concat cats)
      /\ (m < k -> exists more', more = round_of cats (Z.of_nat i) ++ more').
Proof.
  induction fuel as [|fuel IH]; intros i index m Hm Hperm Hk Hfuel;
    cbn [stratified_rounds]; destruct (Z.ltb_spec m k) as [Hlt|Hge];
    try lia.
  - exists index, [], (left_from cats i). rewrite app_nil_r.
    repeat split; auto; lia.
  - fold (round_of cats (Z.of_nat i)).
    set (arr := round_of cats (Z.of_nat i)).
    pose proof (left_from_step cats i) as Hstep. fold arr in Hstep.
    assert (Harr : arr <> []).
    { intros E. apply round_of_empty in E.
      apply Permutation_length in Hperm. rewrite length_app, E in Hperm.
      cbn [length] in Hperm. lia. }
    destruct (IH (S i) (index ++ arr) (m + Z.of_nat (length arr)))
      as (r & more & left & E & Hr & Hlen & Hp & _).
    + rewrite length_app. lia.
    + rewrite <- app_assoc.
      eapply Permutation_trans; [|exact Hperm].
      apply Permutation_app_head. now apply Permutation_sym.
    + exact Hk.
    + destruct arr; [congruence|]. cbn [length]. lia.
    + subst r. exists ((index ++ arr) ++ more), (arr ++ more), left.
      replace (Z.of_nat i + 1) with (Z.of_nat (S i)) by lia.
      rewrite E. split; [reflexivity|]. split; [now rewrite app_assoc|].
      split; [exact Hlen|]. split; [exact Hp|].
      intros _. now exists more.
  - exists index, [], (left_from cats i). rewrite app_nil_r.
    repeat split; auto; lia.
Qed.

(** With fewer than [k] positions in the categories the loop never ends. *)
Lemma stratified_rounds_diverges (fuel : nat) :
  forall (i : nat) (index : list Z) (m : Z),
    m = Z.of_nat (length index) ->
    Permutation (index ++ left_from cats i) (concat cats) ->
    Z.of_nat (length (concat cats)) < k ->
    stratified_rounds fuel cats k m (Z.of_nat i) index = OutOfFuel.
Proof.
  induction fuel as [|fuel IH]; intros i index m Hm Hperm Hk;
    cbn [stratified_rounds];
    pose proof (Permutation_length Hperm) as Hlen;
    rewrite length_app in Hlen;
    destruct (Z.ltb_spec m k) as [Hlt|Hge]; try lia; [reflexivity|].
  fold (round_of cats (Z.of_nat i)).
  replace (Z.of_nat i + 1) with (Z.of_nat (S i)) by lia.
  apply IH.
  - rewrite length_app. lia.
  - rewrite <- app_assoc.
    eapply Permutation_trans; [|exact Hperm].
    apply Permutation_app_head, Permutation_sym, left_from_step.
  - exact Hk.
Qed.

End Rounds.

(** *** The sample *)

Lemma concat_perm (ps sets : list (list Z)) :
  Forall2 (@Permutation Z) ps sets -> Permutation (concat ps) (concat sets).
Proof.
  induction 1 as [|p s ps sets Hp _ IH]; [constructor|].
  cbn [concat]. now apply Permutation_app.
Qed.

Lemma Forall2_In_right {A B : Type} (R : A -> B -> Prop) (l : list A)
  (l' : list B) (y : B) :
  Forall2 R l l' -> In y l' -> exists x, In x l /\ R x y.
Proof.
  induction 1 as [|x y' l l' Hxy _ IH]; [contradiction|].
  intros [<-|Hy].
  - exists x. split; [now left|exact Hxy].
  - destruct (IH Hy) as (x' & Hx' & HR). exists x'. split; [now right|exact HR].
Qed.

Section Sampler.

Context {rng : Type} {RS : RandomSource rng} {RSok : RandomSourceOk RS}.

Lemma permutation_of_perm (g : rng) (x : list Z) :
  Permutation (fst (permutation_of g x)) x.
Proof.
  unfold permutation_of. pose proof (permutation_law g (length x)) as Hp.
  destruct (np_permutation g (length x)) as (p & g'). cbn [fst] in *.
  pose proof (map_nth_seq_from x []) as E. cbn [app length] in E.
  eapply Permutation_trans; [apply Permutation_map, Hp|].
  rewrite E. apply Permutation_refl.
Qed.

Lemma shuffle_each_perm (sets : list (list Z)) :
  forall g : rng, Forall2 (@Permutation Z) (fst (shuffle_each g sets)) sets.
Proof.
  induction sets as [|x t IH]; intros g; cbn [shuffle_each].
  - constructor.
  - pose proof (permutation_of_perm g x) as Hx.
    destruct (permutation_of g x) as (p & g1). specialize (IH g1).
    destruct (shuffle_each g1 t) as (ps & g2). cbn [fst] in *.
    now constructor.
Qed.

(** What the sampler returns for [k < n]: the first [k] of the positions
    the rounds took, which start with one position of every category and
    are positions of the labels, each taken once. *)
Lemma stratified_sample_spec (fuel : nat) (g : rng) (labels : list Z)
  (n k : Z) :
  0 <= k < n -> k <= Z.of_nat (length labels) -> (Z.to_nat k <= fuel)%nat ->
  let cats := fst (shuffle_each g (categories labels)) in
  exists r left,
    stratified_sample fuel g labels n k
    = Ok (firstn (Z.to_nat k) r, snd (shuffle_each g (categories labels)))
    /\ k <= Z.of_nat (length r)
    /\ Permutation (r ++ left) (concat (categories labels))
    /\ (0 < k -> exists more, r = round_of cats 0 ++ more).
Proof.
  intros Hk Hlen Hfuel cats.
  pose proof (concat_perm (shuffle_each_perm (categories labels) g)) as Hperm.
  fold cats in Hperm.
  destruct (@stratified_rounds_returns cats k fuel 0 [] 0)
    as (r & more & left & E & Hr & Hkr & Hp & Hmore); try reflexivity.
  - cbn [app]. now rewrite left_from_0.
  - rewrite (Permutation_length Hperm), categories_length. exact Hlen.
  - now rewrite Z.sub_0_r.
  - exists r, left. cbn [app] in Hr. subst more. split; [|split; [|split]].
    + unfold stratified_sample.
      replace (k <? n) with true by lia. fold (categories labels).
      unfold cats in E. destruct (shuffle_each g (categories labels))
        as (index_labels & g'). cbn [fst snd] in *.
      change (Z.of_nat 0) with 0 in E. rewrite E. cbn [bind].
      unfold Py.slice_to. rewrite clip_nonneg by lia.
      do 3 f_equal. lia.
    + exact Hkr.
    + eapply Permutation_trans; [exact Hp|exact Hperm].
    + exact Hmore.
Qed.

(** For [0 <= k < n] and at least [k] labels, the sampler returns within
    [k] rounds: [k] positions of the labels, no position twice. *)
Theorem stratified_sample_distinct (fuel : nat) (g : rng) (labels : list Z)
  (n k : Z) :
  0 <= k < n -> k <= Z.of_nat (length labels) -> (Z.to_nat k <= fuel)%nat ->
  exists index g',
    stratified_sample fuel g labels n k = Ok (index, g')
    /\ Z.of_nat (length index) = k
    /\ NoDup index
    /\ Forall (fun i => 0 <= i < Z.of_nat (length labels)) index.
Proof.
  intros Hk Hlen Hfuel.
  destruct (stratified_sample_spec g labels Hk Hlen Hfuel)
    as (r & left & E & Hkr & Hp & _).
  do 2 eexists. split; [exact E|].
  assert (Hnd : NoDup (firstn (Z.to_nat k) r ++ skipn (Z.to_nat k) r ++ left)).
  { rewrite app_assoc, firstn_skipn.
    apply (Permutation_NoDup (Permutation_sym Hp)), categories_NoDup. }
  split; [rewrite length_firstn; lia|]. split.
  - now apply NoDup_app_remove_r in Hnd.
  - apply Forall_forall. intros i Hi. apply categories_in.
    apply (Permutation_in _ Hp). apply in_or_app. left.
    rewrite <- (firstn_skipn (Z.to_nat k) r). apply in_or_app. now left.
Qed.

(** With at least as many positions asked for as there are categories, every
    label of the input has a position in the sample. *)
Theorem stratified_sample_covers (fuel : nat) (g : rng) (labels : list Z)
  (n k : Z) :
  0 <= k < n -> k <= Z.of_nat (length labels) -> (Z.to_nat k <= fuel)%nat ->
  Z.of_nat (length (np_unique labels)) <= k ->
  exists index g',
    stratified_sample fuel g labels n k = Ok (index, g')
    /\ forall lab, In lab labels ->
         exists i, In i index /\ nth_error labels (Z.to_nat i) = Some lab.
Proof.
  intros Hk Hlen Hfuel Hcats.
  destruct (stratified_sample_spec g labels Hk Hlen Hfuel)
    as (r & left & E & Hkr & Hp & Hmore).
  do 2 eexists. split; [exact E|]. intros lab Hlab.
  pose proof (shuffle_each_perm (categories labels) g) as H2.
  set (cats := fst (shuffle_each g (categories labels))) in *.
  assert (Hu : In (where_eq labels lab) (categories labels))
    by (apply in_map; now apply np_unique_in).
  destruct (@Forall2_In_right _ _ _ _ _ _ H2 Hu) as (c & Hc & Hperm).
  assert (Hne : c <> []).
  { intros ->. apply Permutation_nil in Hperm.
    pose proof (categories_nonempty labels) as Hall.
    rewrite Forall_forall in Hall. now apply (Hall _ Hu). }
  assert (Hk0 : 0 < k).
  { destruct labels; [contradiction|]. destruct (np_unique (z :: labels)) eqn:En.
    - assert (In z []) by (rewrite <- En; apply np_unique_in; now left).
      contradiction.
    - cbn [length] in Hcats. lia. }
  destruct (Hmore Hk0) as (more & ->).
  assert (Hround : In (Py.get 0 c 0) (round_of cats 0)).
  { unfold round_of. apply in_map_iff. exists c. split; [reflexivity|].
    apply filter_In. split; [exact Hc|].
    destruct c; [congruence|]. apply Z.ltb_lt. cbn [length]. lia. }
  exists (Py.get 0 c 0). split.
  - rewrite firstn_app. apply in_or_app. left. rewrite firstn_all2; [exact Hround|].
    unfold round_of. rewrite length_map.
    pose proof (filter_length_le (fun v => 0 <? Z.of_nat (length v)) cats).
    pose proof (Forall2_length H2). unfold categories in *.
    rewrite length_map in *. unfold cats in *. lia.
  - assert (Hin : In (Py.get 0 c 0) (where_eq labels lab)).
    { apply (Permutation_in _ Hperm). destruct c; [congruence|]. now left. }
    apply where_eq_in in Hin. destruct Hin as (j & -> & Ej).
    now rewrite Nat2Z.id.
Qed.

(** With fewer labels than positions asked for (and [k < n]) the loop of
    the sampler never ends. *)
Theorem stratified_sample_never_returns (fuel : nat) (g : rng)
  (labels : list Z) (n k : Z) :
  k < n -> Z.of_nat (length labels) < k ->
  stratified_sample fuel g labels n k = OutOfFuel.
Proof.
  intros Hk Hlen. unfold stratified_sample.
  replace (k <? n) with true by lia. fold (categories labels).
  pose proof (concat_perm (shuffle_each_perm (categories labels) g)) as Hperm.
  destruct (shuffle_each g (categories labels)) as (cats & g').
  cbn [fst] in Hperm.
  assert (E : stratified_rounds fuel cats k 0 0 [] = OutOfFuel).
  { apply (@stratified_rounds_diverges cats k fuel 0 [] 0); try reflexivity.
    - cbn [app]. now rewrite left_from_0.
    - rewrite (Permutation_length Hperm), categories_length. exact Hlen. }
  now rewrite E.
Qed.

End Sampler.

Lemma stratified_sample_distinct_witness :
  exists index g',
    stratified_sample (RS := Scripted) 5 [[1; 0]%nat] [0; 0; 1; 1; 1] 5 3
    = Ok (index, g')
    /\ Z.of_nat (length index) = 3
    /\ NoDup index
    /\ Forall (fun i => 0 <= i < Z.of_nat (length [0; 0; 1; 1; 1])) index.
Proof.
  apply (@stratified_sample_distinct _ Scripted Scripted_ok 5 [[1; 0]%nat]
           [0; 0; 1; 1; 1] 5 3); simpl; lia.
Defined.

Lemma stratified_sample_covers_witness :
  exists index g',
    stratified_sample (RS := Scripted) 5 [[1; 0]%nat] [0; 0; 1; 1; 1] 5 3
    = Ok (index, g')
    /\ forall lab, In lab [0; 0; 1; 1; 1] ->
         exists i, In i index
                   /\ nth_error [0; 0; 1; 1; 1] (Z.to_nat i) = Some lab.
Proof.
  apply (@stratified_sample_covers _ Scripted Scripted_ok 5 [[1; 0]%nat]
           [0; 0; 1; 1; 1] 5 3); simpl; lia.
Defined.

Lemma stratified_sample_never_returns_witness :
  stratified_sample (RS := Scripted) 100 [] [0; 1] 4 3 = OutOfFuel.
Proof.
  apply (@stratified_sample_never_returns _ Scripted Scripted_ok 100 []
           [0; 1] 4 3); simpl; lia.
Defined.

(** ** What the calibration selects, and the samples it computes *)

Lemma mapM_ok {A B : Type} (f : A -> outcome B) (l : list A) (ys : list B) :
  mapM f l = Ok ys -> Forall2 (fun x y => f x = Ok y) l ys.
Proof.
  revert ys. induction l as [|x t IH]; intros ys E; cbn [mapM] in E.
  - injection E as <-. constructor.
  - apply bind_ok in E. destruct E as (y & Ey & E).
    apply bind_ok in E. destruct E as (ys' & Et & E).
    injection E as <-. constructor; auto.
Qed.

Lemma range_in (n i : Z) : In i (Py.range n) <-> 0 <= i < n.
Proof.
  unfold Py.range. rewrite in_map_iff. split.
  - intros (j & <- & Hj). apply in_seq in Hj. lia.
  - intros Hi. exists (Z.to_nat i). split; [lia|]. apply in_seq. lia.
Qed.

Lemma range_NoDup (n : Z) : NoDup (Py.range n).
Proof.
  unfold Py.range. apply NoDup_map_NoDup_ForallPairs; [|apply seq_NoDup].
  intros a b _ _ H. lia.
Qed.

Lemma range_length (n : Z) : length (Py.range n) = Z.to_nat n.
Proof. unfold Py.range. now rewrite length_map, length_seq. Qed.

(** A combination of a list without repeats has the asked length, no repeats
    and only members of the list. *)
Lemma combinations_spec {A : Type} (k : nat) :
  forall l c : list A,
    NoDup l -> In c (combinations l k) ->
    length c = k /\ NoDup c /\ incl c l.
Proof.
  induction k as [|k IHk]; intros l c Hl Hc.
  - assert (E : combinations l 0 = [[]]) by now destruct l.
    rewrite E in Hc. destruct Hc as [<-|[]].
    repeat split; [constructor|intros x []].
  - induction l as [|x t IHl]; cbn [combinations] in Hc; [contradiction|].
    inversion Hl as [|? ? Hx Ht]; subst.
    apply in_app_or in Hc. destruct Hc as [Hc|Hc].
    + apply in_map_iff in Hc. destruct Hc as (c' & <- & Hc').
      destruct (IHk _ _ Ht Hc') as (Hlen & Hnd & Hin).
      repeat split.
      * cbn [length]. now rewrite Hlen.
      * constructor; [|exact Hnd]. intros H. apply Hx. now apply Hin.
      * intros y [<-|Hy]; [now left|right; now apply Hin].
    + destruct (IHl Ht Hc) as (Hlen & Hnd & Hin).
      repeat split; try assumption. intros y Hy. right. now apply Hin.
Qed.

(** The combinations of a list without repeats are pairwise different. *)
Lemma combinations_NoDup {A : Type} (k : nat) :
  forall l : list A, NoDup l -> NoDup (combinations l k).
Proof.
  induction k as [|k IHk]; intros l Hl.
  - assert (E : combinations l 0 = [[]]) by now destruct l.
    rewrite E. repeat constructor. intros [].
  - induction l as [|x t IHl]; cbn [combinations]; [constructor|].
    inversion Hl as [|? ? Hx Ht]; subst.
    apply NoDup_app.
    + apply NoDup_map_NoDup_ForallPairs; [|now apply IHk].
      intros a b _ _ H. now injection H.
    + now apply IHl.
    + intros c Hc Hc'. apply in_map_iff in Hc. destruct Hc as (c' & <- & _).
      destruct (@combinations_spec _ _ _ _ Ht Hc') as (_ & _ & Hin).
      apply Hx, Hin. now left.
Qed.

(** There are [comb(len(l), k)] of them. *)
Lemma combinations_length {A : Type} (l : list A) :
  forall k, Z.of_nat (length (combinations l k)) = comb (length l) k.
Proof.
  induction l as [|x t IH]; intros [|k]; cbn [combinations comb length];
    try reflexivity.
  rewrite length_app, length_map, Nat2Z.inj_add, !IH. reflexivity.
Qed.

(** [ind[t]] for [ind = [jj for jj in range(n) if jj != j]]: the positions
    below [j] stay, the others move up by one. *)
Definition skip_over (j t : Z) : Z := if t <? j then t else t + 1.

Lemma skip_over_from (j : Z) (m a : nat) :
  j < Z.of_nat a ->
  filter (fun jj => negb (jj =? j)) (map Z.of_nat (seq a m))
  = map Z.of_nat (seq a m).
Proof.
  revert a. induction m as [|m IH]; intros a Ha; cbn [seq map filter];
    [reflexivity|].
  replace (Z.of_nat a =? j) with false by lia. cbn [negb].
  rewrite IH by lia. reflexivity.
Qed.

Lemma skip_over_shift (j : Z) (m a : nat) :
  j <= Z.of_nat a ->
  map (skip_over j) (map Z.of_nat (seq a m)) = map Z.of_nat (seq (S a) m).
Proof.
  revert a. induction m as [|m IH]; intros a Ha; cbn [seq map];
    [reflexivity|].
  rewrite IH by lia. unfold skip_over at 1.
  replace (Z.of_nat a <? j) with false by lia. f_equal. lia.
Qed.

Lemma others_from (j : Z) (m a : nat) :
  Z.of_nat a <= j < Z.of_nat a + Z.of_nat m ->
  filter (fun jj => negb (jj =? j)) (map Z.of_nat (seq a m))
  = map (skip_over j) (map Z.of_nat (seq a (m - 1))).
Proof.
  revert a. induction m as [|m IH]; intros a Ha; [lia|].
  cbn [seq map filter]. replace (S m - 1)%nat with m by lia.
  destruct (Z.of_nat a =? j) eqn:E; cbn [negb].
  - apply Z.eqb_eq in E.
    rewrite skip_over_from, skip_over_shift by lia. reflexivity.
  - apply Z.eqb_neq in E. rewrite IH by lia. destruct m as [|m]; [lia|].
    replace (S m - 1)%nat with m by lia. cbn [seq map].
    unfold skip_over at 2. replace (Z.of_nat a <? j) with true by lia.
    reflexivity.
Qed.

Lemma others_of (n j : Z) :
  0 <= j < n ->
  filter (fun jj => negb (jj =? j)) (Py.range n)
  = map (skip_over j) (Py.range (n - 1)).
Proof.
  intros Hj. unfold Py.range. rewrite others_from by lia.
  now replace (Z.to_nat n - 1)%nat with (Z.to_nat (n - 1)) by lia.
Qed.

Lemma get_others (n j t : Z) :
  0 <= j < n -> 0 <= t < n - 1 ->
  Py.get 0 (filter (fun jj => negb (jj =? j)) (Py.range n)) t = skip_over j t.
Proof.
  intros Hj Ht. rewrite others_of by exact Hj. unfold Py.get, Py.range.
  rewrite map_map.
  rewrite nth_indep with (d' := skip_over j (Z.of_nat 0))
    by (rewrite length_map, length_seq; lia).
  rewrite (map_nth (fun x => skip_over j (Z.of_nat x))).
  rewrite seq_nth by lia. f_equal. lia.
Qed.

(** A task of the held-out template [j]: [j] first, then as many positions
    of the group as the subset has, all different and none of them [j]. *)
Definition leaves_out (n k : Z) (indices : list Z) : Prop :=
  exists j others,
    indices = j :: others
    /\ 0 <= j < n
    /\ Z.of_nat (length others) = k
    /\ NoDup (j :: others)
    /\ Forall (fun i => 0 <= i < n) others.

Lemma holdout_indices_leave_out (n j : Z) (k : nat)
  (comb_list : list (list Z)) :
  0 <= j < n ->
  incl comb_list (combinations (Py.range (n - 1)) k) ->
  Forall (leaves_out n (Z.of_nat k)) (holdout_indices n j comb_list).
Proof.
  intros Hj Hincl. unfold holdout_indices. apply Forall_forall.
  intros indices Hin. apply in_map_iff in Hin.
  destruct Hin as (tup & <- & Htup). apply Hincl in Htup.
  destruct (@combinations_spec _ _ _ _ (range_NoDup (n - 1)) Htup)
    as (Hlen & Hnd & Hsub).
  assert (E : map (Py.get 0 (filter (fun jj => negb (jj =? j)) (Py.range n)))
                tup
              = map (skip_over j) tup).
  { apply map_ext_in. intros t Ht. apply get_others; [exact Hj|].
    apply range_in. now apply Hsub. }
  rewrite E. exists j, (map (skip_over j) tup).
  split; [reflexivity|]. split; [exact Hj|].
  split; [now rewrite length_map, Hlen|]. split.
  - constructor.
    + rewrite in_map_iff. intros (t & Et & _). unfold skip_over in Et.
      destruct (t <? j) eqn:Etj; lia.
    + apply NoDup_map_NoDup_ForallPairs; [|exact Hnd].
      intros a b _ _ H. unfold skip_over in H.
      destruct (a <? j) eqn:Ea; destruct (b <? j) eqn:Eb; lia.
  - apply Forall_forall. intros i Hi. apply in_map_iff in Hi.
    destruct Hi as (t & <- & Ht). apply Hsub, range_in in Ht.
    unfold skip_over. destruct (t <? j) eqn:Etj; lia.
Qed.

Lemma concat_map_length {A B : Type} (h : A -> list B) (c : nat) (L : list A) :
  (forall a, length (h a) = c) ->
  length (concat (map h L)) = (length L * c)%nat.
Proof.
  intros Hc. induction L as [|a L IH]; cbn [map concat length]; [reflexivity|].
  rewrite length_app, IH, Hc. lia.
Qed.

Section CalibrationStructure.

Context {F : Type} {AR : Arith F}.
Context {rng : Type} {RS : RandomSource rng} {RSok : RandomSourceOk RS}.

(** The tasks of a group, in the order of the loops. *)
Definition group_tasks (n : Z) (comb_list : list (list Z)) : list (list Z) :=
  concat (map (fun j => holdout_indices n j comb_list) (Py.range n)).

Lemma group_tasks_length (n : Z) (comb_list : list (list Z)) :
  0 <= n ->
  Z.of_nat (length (group_tasks n comb_list))
  = n * Z.of_nat (length comb_list).
Proof.
  intros Hn. unfold group_tasks.
  rewrite concat_map_length with (c := length comb_list).
  - rewrite range_length. lia.
  - intros j. unfold holdout_indices. now rewrite length_map.
Qed.

Lemma group_tasks_leave_out (n : Z) (k : nat) (comb_list : list (list Z)) :
  incl comb_list (combinations (Py.range (n - 1)) k) ->
  Forall (leaves_out n (Z.of_nat k)) (group_tasks n comb_list).
Proof.
  intros Hincl. unfold group_tasks. apply Forall_concat, Forall_map.
  apply Forall_forall. intros j Hj. apply range_in in Hj.
  now apply holdout_indices_leave_out.
Qed.

(** Samples, when there are some, are the distances of the tasks, in their
    order, whatever the number of processes. *)
Lemma group_distances_tasks (num_proc : Z) (t : list (series F))
  (warping_window : option F) (n : Z) (comb_list : list (list Z))
  (distances : list F) :
  group_distances num_proc t warping_window n comb_list = Ok distances ->
  distances <> [] ->
  mapM (helper_average_dtw_distance t warping_window)
       (group_tasks n comb_list) = Ok distances.
Proof.
  unfold group_distances, group_tasks. rewrite mapM_concat.
  destruct (mapM _ (Py.range n)) as [per| |]; cbn [bind];
    destruct (num_proc >? 1); intros E Hne; try discriminate; try exact E.
  injection E as <-. now contradiction Hne.
Qed.

(** How many subsets a group is given. *)
Lemma sampled_combinations_count (g g' : rng) (n k max_num_samples : Z)
  (comb_list : list (list Z)) :
  sampled_combinations (F := F) g n k max_num_samples = Ok (comb_list, g') ->
  let a := ceil_int (fdiv (of_int max_num_samples) (of_int n)) in
  let total := comb (Z.to_nat (n - 1)) (Z.to_nat k) in
  NoDup comb_list
  /\ (total <= a -> comb_list = combinations (Py.range (n - 1)) (Z.to_nat k))
  /\ (0 <= a < total -> Z.of_nat (length comb_list) = a).
Proof.
  unfold sampled_combinations. destruct (n =? 0); [discriminate|].
  set (all := combinations (Py.range (n - 1)) (Z.to_nat k)).
  assert (Hall : NoDup all) by apply combinations_NoDup, range_NoDup.
  assert (Hlen : Z.of_nat (length all)
                 = comb (Z.to_nat (n - 1)) (Z.to_nat k)).
  { unfold all. now rewrite combinations_length, range_length. }
  rewrite Hlen. cbv zeta.
  set (a := ceil_int (fdiv (of_int max_num_samples) (of_int n))).
  destruct (_ >? a) eqn:Ea.
  - pose proof (permutation_law g (length all)) as Hp.
    destruct (np_permutation g (length all)) as (p & g1). cbn [fst] in Hp.
    intros E. injection E as <- <-. split; [|split].
    + assert (Hnd : NoDup (Py.slice_to p a)).
      { pose proof (Permutation_NoDup (Permutation_sym Hp)
                      (seq_NoDup (length all) 0)) as Hn.
        rewrite <- (slice_to_from p a) in Hn.
        now apply NoDup_app_remove_r in Hn. }
      apply NoDup_map_NoDup_ForallPairs; [|exact Hnd].
      intros i j Hi Hj H. apply in_slice_to in Hi, Hj.
      apply (Permutation_in _ Hp), in_seq in Hi.
      apply (Permutation_in _ Hp), in_seq in Hj.
      rewrite NoDup_nth in Hall. apply Hall; [lia|lia|exact H].
    + intros H. lia.
    + intros H. rewrite length_map, slice_to_length by lia.
      rewrite (Permutation_length Hp), length_seq. lia.
  - intros E. injection E as <- <-. split; [exact Hall|]. split.
    + reflexivity.
    + intros H. lia.
Qed.

(** What the sampler gives the calibration of a group: positions of the
    group, each once, at least one and not all. *)
Lemma calibrate_group_selected (num_proc : Z) (g g' : rng)
  (t : list (series F)) (labels_t : list (Z * Z))
  (infos_t : list (template_info_tuple F)) (warping_window : option F)
  (max_num_samples : Z) (r : group_result F) :
  calibrate_group num_proc g t labels_t infos_t warping_window
    max_num_samples = Ok (r, g') ->
  length labels_t = length t ->
  exists ind,
    NoDup ind
    /\ Forall (fun i => 0 <= i < Z.of_nat (length t)) ind
    /\ (1 <= length ind < length t)%nat
    /\ selected r = map (Py.get [] t) ind
    /\ labels_selected r = map (Py.get (0, 0) labels_t) ind
    /\ info_selected r = map (Py.get (template_info_of []) infos_t) ind.
Proof.
  unfold calibrate_group. intros E Hlab.
  apply bind_ok in E. destruct E as ((k & ns) & Ek & E).
  apply bind_ok in E. destruct E as ((ind & g1) & Ei & E).
  apply bind_ok in E. destruct E as ((comb_list & g2) & _ & E).
  apply bind_ok in E. destruct E as (distances & _ & E).
  apply bind_ok in E. destruct E as (th & _ & E).
  injection E as <- <-. cbn [selected labels_selected info_selected].
  unfold num_templates_to_sample in Ek.
  apply find_max_combinations_range in Ek.
  assert (Hlen : length (map snd labels_t) = length t)
    by now rewrite length_map.
  destruct (@stratified_sample_spec _ _ RSok (S (length t)) g
              (map snd labels_t) (Z.of_nat (length t)) k)
    as (rr & left & E & Hkr & Hp & _); try lia.
  rewrite E in Ei. injection Ei as <- _.
  assert (Hnd : NoDup (firstn (Z.to_nat k) rr ++ skipn (Z.to_nat k) rr
                       ++ left)).
  { rewrite app_assoc, firstn_skipn.
    apply (Permutation_NoDup (Permutation_sym Hp)), categories_NoDup. }
  exists (firstn (Z.to_nat k) rr). split; [|split; [|split]].
  - now apply NoDup_app_remove_r in Hnd.
  - apply Forall_forall. intros i Hi. rewrite <- Hlen. apply categories_in.
    apply (Permutation_in _ Hp). apply in_or_app. left.
    rewrite <- (firstn_skipn (Z.to_nat k) rr). apply in_or_app. now left.
  - rewrite length_firstn. lia.
  - repeat split.
Qed.

(** [templates_info[i][j]] of the summaries is the summary of
    [templates[i][j]]. *)
Lemma select_info (t : list (series F)) (ind : list Z) :
  map (Py.get (template_info_of []) (map template_info_of t)) ind
  = map template_info_of (map (Py.get [] t) ind).
Proof.
  rewrite map_map. apply map_ext. intros i. unfold Py.get.
  apply (map_nth template_info_of).
Qed.

Lemma calibrate_groups_selected (num_proc : Z)
  (templates : list (list (series F))) :
  forall (g g' : rng) (template_labels : list (list (Z * Z)))
    (templates_info : list (list (template_info_tuple F)))
    (warping_window : option F) (max_num_samples : Z)
    (rs : list (group_result F)),
    calibrate_groups num_proc g templates template_labels templates_info
      warping_window max_num_samples = Ok (rs, g') ->
    Forall2 (fun t l => length l = length t) templates template_labels ->
    Forall2 (fun t l => length l = length t) templates templates_info ->
    exists inds,
      Forall2 (fun t ind =>
                 NoDup ind
                 /\ Forall (fun i => 0 <= i < Z.of_nat (length t)) ind
                 /\ (1 <= length ind < length t)%nat)
              templates inds
      /\ length rs = length templates
      /\ map selected rs
         = Py.zip_with (fun t ind => map (Py.get [] t) ind) templates inds
      /\ map labels_selected rs
         = Py.zip_with (fun l ind => map (Py.get (0, 0) l) ind)
             template_labels inds
      /\ map info_selected rs
         = Py.zip_with
             (fun l ind => map (Py.get (template_info_of []) l) ind)
             templates_info inds.
Proof.
  induction templates as [|t rest IH];
    intros g g' template_labels templates_info warping_window
      max_num_samples rs E Hl Hi; cbn [calibrate_groups] in E.
  - injection E as <- _. exists []. inversion Hl; inversion Hi; subst.
    repeat split. constructor.
  - apply bind_ok in E. destruct E as ((r & g1) & Eg & E).
    apply bind_ok in E. destruct E as ((rs' & g2) & Erest & E).
    injection E as <- _.
    inversion Hl as [|? labels_t ? labels_rest Hlt Hlrest]; subst.
    inversion Hi as [|? infos_t ? infos_rest Hit Hirest]; subst.
    cbn [hd tl] in *.
    destruct (calibrate_group_selected _ _ _ _ _ _ _ Eg Hlt)
      as (ind & Hnd & Hin & Hlen & Es & El & Ei).
    destruct (IH _ _ _ _ _ _ _ Erest Hlrest Hirest)
      as (inds & Hall & Hn & Ess & Els & Eis).
    exists (ind :: inds). cbn [map Py.zip_with length].
    rewrite Es, El, Ei, Ess, Els, Eis, Hn.
    repeat split. constructor; auto.
Qed.

(** When the calibration returns for groups that have a label and a summary
    for every template, each action keeps at least one and not all of its
    templates, no template twice, with the labels and the summaries at the
    same positions, and gets one threshold.  So no selected group is empty,
    and from the summaries of the templates the calibration returns the
    summaries of the selected templates. *)
Theorem calibration_selects_templates (num_proc : Z) (g g' : rng)
  (templates : list (list (series F))) (template_labels : list (list (Z * Z)))
  (templates_info : list (list (template_info_tuple F)))
  (warping_window : option F) (max_num_samples seed : Z)
  (distance_thresholds : list F) (templates_selected : list (list (series F)))
  (template_labels_selected : list (list (Z * Z)))
  (templates_info_selected : list (list (template_info_tuple F))) :
  find_distance_thresholds num_proc g templates template_labels templates_info
    warping_window max_num_samples seed
  = Ok (distance_thresholds, templates_selected, template_labels_selected,
        templates_info_selected, g') ->
  Forall2 (fun t l => length l = length t) templates template_labels ->
  Forall2 (fun t l => length l = length t) templates templates_info ->
  (exists inds,
     Forall2 (fun t ind =>
                NoDup ind
                /\ Forall (fun i => 0 <= i < Z.of_nat (length t)) ind
                /\ (1 <= length ind < length t)%nat)
             templates inds
     /\ templates_selected
        = Py.zip_with (fun t ind => map (Py.get [] t) ind) templates inds
     /\ template_labels_selected
        = Py.zip_with (fun l ind => map (Py.get (0, 0) l) ind)
            template_labels inds
     /\ templates_info_selected
        = Py.zip_with
            (fun l ind => map (Py.get (template_info_of []) l) ind)
            templates_info inds)
  /\ length distance_thresholds = length templates
  /\ length templates_selected = length templates
  /\ Forall (fun s => s <> []) templates_selected
  /\ (templates_info = templates_info_of templates ->
      templates_info_selected = templates_info_of templates_selected).
Proof.
  unfold find_distance_thresholds. intros E Hl Hi.
  apply bind_ok in E. destruct E as ((rs & g1) & Er & E).
  injection E as <- <- <- <- _.
  destruct (calibrate_groups_selected _ _ _ _ Er Hl Hi)
    as (inds & Hall & Hn & Es & El & Ei).
  split; [|split; [|split; [|split]]].
  - exists inds. auto.
  - now rewrite length_map.
  - now rewrite length_map.
  - rewrite Es. clear - Hall.
    induction Hall as [|t ind ts inds (_ & _ & Hlen) _ IH];
      cbn [Py.zip_with]; constructor; [|exact IH].
    destruct ind; cbn [length] in Hlen; [lia|discriminate].
  - intros ->. rewrite Ei, Es. clear - Hall. unfold templates_info_of.
    induction Hall as [|t ind ts inds _ _ IH]; cbn [Py.zip_with map];
      [reflexivity|].
    now rewrite IH, select_info.
Qed.

(** When the calibration of a group of [n] templates returns, every sample
    its threshold is computed from is the average warped distance between
    one template of the group and [k] others, all different; there are [n]
    times the number of subsets of samples: [n * comb(n - 1, k)] when that
    number of subsets is at most [a = ceil(max_num_samples / n)], and
    [n * a] when it is larger (and [a] is not negative). *)
Theorem samples_leave_one_out (num_proc : Z) (g g' : rng)
  (t : list (series F)) (labels_t : list (Z * Z))
  (infos_t : list (template_info_tuple F)) (warping_window : option F)
  (max_num_samples : Z) (r : group_result F) :
  calibrate_group num_proc g t labels_t infos_t warping_window
    max_num_samples = Ok (r, g') ->
  let n := Z.of_nat (length t) in
  let a := ceil_int (fdiv (of_int max_num_samples) (of_int n)) in
  exists k ns distances,
    num_templates_to_sample (F := F) n = Ok (k, ns)
    /\ tukey_threshold distances = Ok (threshold r)
    /\ Forall (fun d =>
                 exists j others label,
                   0 <= j < n
                   /\ Z.of_nat (length others) = k
                   /\ NoDup (j :: others)
                   /\ Forall (fun i => 0 <= i < n) others
                   /\ average_distance_to_templates (Py.get [] t j)
                        [map (Py.get [] t) others] warping_window
                      = Ok (d, label))
              distances
    /\ (comb (Z.to_nat (n - 1)) (Z.to_nat k) <= a ->
        Z.of_nat (length distances)
        = n * comb (Z.to_nat (n - 1)) (Z.to_nat k))
    /\ (0 <= a < comb (Z.to_nat (n - 1)) (Z.to_nat k) ->
        Z.of_nat (length distances) = n * a).
Proof.
  intros E n a. unfold calibrate_group in E. fold n in E.
  apply bind_ok in E. destruct E as ((k & ns) & Ek & E).
  apply bind_ok in E. destruct E as ((ind & g1) & _ & E).
  apply bind_ok in E. destruct E as ((comb_list & g2) & Ec & E).
  apply bind_ok in E. destruct E as (distances & Ed & E).
  apply bind_ok in E. destruct E as (th & Eth & E).
  injection E as <- <-. cbn [threshold].
  exists k, ns, distances. split; [exact Ek|]. split; [exact Eth|].
  pose proof Ek as Hk. unfold num_templates_to_sample in Hk.
  apply find_max_combinations_range in Hk.
  assert (Hne : distances <> []).
  { intros ->. unfold tukey_threshold in Eth. discriminate. }
  pose proof (group_distances_tasks _ _ _ _ _ Ed Hne) as Em.
  apply mapM_ok in Em.
  pose proof (sampled_combinations_incl _ _ _ _ Ec) as Hincl.
  pose proof (@group_tasks_leave_out _ _ _ Hincl) as Htasks.
  rewrite Z2Nat.id in Htasks by lia.
  destruct (sampled_combinations_count _ _ _ _ Ec) as (_ & Hall & Hcap).
  fold n a in Hall, Hcap.
  assert (Hcount : Z.of_nat (length distances)
                   = n * Z.of_nat (length comb_list)).
  { rewrite <- (Forall2_length Em). apply group_tasks_length. lia. }
  split; [|split].
  - clear - Em Htasks. fold n in Htasks.
    induction Em as [|indices d tasks ds Ed _ IH]; constructor.
    + inversion Htasks as [|? ? (j & others & -> & Hj & Hlen & Hnd & Hin) _];
        subst.
      unfold helper_average_dtw_distance in Ed. cbn [hd tl] in Ed.
      apply bind_ok in Ed. destruct Ed as ((d' & label) & Ea & Ed).
      injection Ed as <-. exists j, others, label. auto.
    + apply IH. now inversion Htasks.
  - intros H. rewrite Hcount, (Hall H), combinations_length, range_length.
    reflexivity.
  - intros H. now rewrite Hcount, (Hcap H).
Qed.

End CalibrationStructure.

Lemma calibration_selects_templates_witness :
  exists ths sel labs infos g',
    find_distance_thresholds (RS := Scripted) 1 [] Example.quartet
      Example.quartet_labels (templates_info_of Example.quartet) None
      10000 1234
    = Ok (ths, sel, labs, infos, g')
    /\ (exists inds,
          Forall2 (fun t ind =>
                     NoDup ind
                     /\ Forall (fun i => 0 <= i < Z.of_nat (length t)) ind
                     /\ (1 <= length ind < length t)%nat)
                  Example.quartet inds
          /\ sel = Py.zip_with (fun t ind => map (Py.get [] t) ind)
                     Example.quartet inds
          /\ labs = Py.zip_with (fun l ind => map (Py.get (0, 0) l) ind)
                      Example.quartet_labels inds
          /\ infos
             = Py.zip_with
                 (fun l ind => map (Py.get (template_info_of []) l) ind)
                 (templates_info_of Example.quartet) inds)
    /\ length ths = length Example.quartet
    /\ length sel = length Example.quartet
    /\ Forall (fun s => s <> []) sel
    /\ (templates_info_of Example.quartet = templates_info_of Example.quartet
        -> infos = templates_info_of sel).
Proof.
  do 5 eexists. split; [vm_compute; reflexivity|].
  apply (@calibration_selects_templates _ Float64 _ Scripted Scripted_ok 1 []
           [] Example.quartet Example.quartet_labels
           (templates_info_of Example.quartet) None 10000 1234).
  - vm_compute. reflexivity.
  - repeat constructor.
  - repeat constructor.
Defined.

Lemma samples_leave_one_out_witness :
  exists r g' distances,
    calibrate_group (RS := Scripted) 1 [] (hd [] Example.quartet)
      (hd [] Example.quartet_labels)
      (map template_info_of (hd [] Example.quartet)) None 10000
    = Ok (r, g')
    /\ tukey_threshold distances = Ok (threshold r)
    /\ Z.of_nat (length distances) = 12.
Proof.
  assert (E : exists r g',
             calibrate_group (RS := Scripted) 1 [] (hd [] Example.quartet)
               (hd [] Example.quartet_labels)
               (map template_info_of (hd [] Example.quartet)) None 10000
             = Ok (r, g'))
    by (vm_compute; do 2 eexists; reflexivity).
  destruct E as (r & g' & E). exists r, g'.
  destruct (@samples_leave_one_out _ Float64 _ Scripted Scripted_ok 1 [] g' _ _ _ None
              10000 r E)
    as (k & ns & distances & Ek & Eth & _ & Hcount & _).
  exists distances. split; [exact E|]. split; [exact Eth|].
  vm_compute in Ek. injection Ek as <- _.
  apply Hcount. vm_compute. discriminate.
Defined.

(** ** The whole search, in exact arithmetic *)

(** The candidate of length [m] the search scores: the first [m] points of
    the series cut at [max_length], normalized by the rolling mean and
    deviation at [m - 1] when [normalize] is set. *)
Definition candidate {F : Type} {AR : Arith F} (sequence : series F)
  (max_length : Z) (normalize : bool) (m : Z) : series F :=
  let s := truncated sequence max_length in
  normalized_prefix normalize s
    (if normalize then rolling_mean s else s)
    (if normalize then rolling_stdev s else s) m.

(** The lengths the search visits: [mid_length], then those of
    [np.arange(min_length, max_length + 1, length_step)] in some order. *)
Definition visited_lengths {F : Type} (sequence : series F)
  (min_length max_length length_step : Z) : outcome (list Z) :=
  let '(a, b) :=
    clamp_lengths (Z.of_nat (length sequence)) min_length max_length in
  lengths <- Py.arange a (b + 1) length_step ;;
  Ok (mid_length_of sequence min_length max_length :: lengths).

Lemma foldM_ext_in {A B : Type} (f f' : B -> A -> outcome B) (l : list A) :
  (forall b x, In x l -> f b x = f' b x) ->
  forall b, foldM f l b = foldM f' l b.
Proof.
  induction l as [|x t IH]; intros H b; cbn [foldM]; [reflexivity|].
  rewrite (H b x (or_introl eq_refl)). destruct (f' b x); cbn [bind]; auto.
  apply IH. intros b' y Hy. apply H. now right.
Qed.

Lemma arange_bounds (a b step : Z) (l : list Z) :
  Py.arange a b step = Ok l -> Forall (fun x => a <= x < b) l.
Proof.
  unfold Py.arange. destruct (step =? 0) eqn:E0; [discriminate|].
  destruct (step <? 0) eqn:E1; intros E; injection E as <-; [constructor|].
  apply Z.eqb_neq in E0. apply Z.ltb_ge in E1.
  apply Forall_forall. intros x Hx. apply in_map_iff in Hx.
  destruct Hx as (i & <- & Hi). apply in_seq in Hi.
  set (q := (b - a + step - 1) / step) in *.
  assert (Hq : step * q <= b - a + step - 1)
    by (apply Z.mul_div_le; lia).
  assert (Hiq : Z.of_nat i + 1 <= q) by lia.
  nia.
Qed.

Lemma round_half_between (a b : Z) :
  a <= b -> a <= Py.round_half (a + b) <= b.
Proof.
  intros H. unfold Py.round_half.
  pose proof (Z.div_mod (a + b) 2 ltac:(lia)) as Hd.
  pose proof (Z.mod_pos_bound (a + b) 2 ltac:(lia)) as Hm.
  destruct (Z.even (a + b)) eqn:Ev.
  - lia.
  - rewrite <- Z.negb_odd in Ev. apply negb_false_iff in Ev.
    apply Z.odd_spec in Ev. destruct Ev as (k & Ek).
    destruct (Z.even ((a + b) / 2)); lia.
Qed.

Lemma clamp_lengths_ordered (N min_length max_length : Z) :
  1 <= N -> 1 <= min_length -> 1 <= max_length ->
  let '(a, b) := clamp_lengths N min_length max_length in
  1 <= a <= b /\ b <= N /\ b = Z.min N max_length.
Proof.
  intros HN Hmin Hmax. unfold clamp_lengths.
  destruct (N >? max_length) eqn:E1;
    match goal with |- context [?a >=? ?b] => destruct (a >=? b) eqn:E2 end;
    lia.
Qed.

(** *** Series of finite values *)

Definition real_of (x : xreal) : R :=
  match x with
  | Fin r => r
  | Inf => 0%R
  end.

Definition real_series (s : series xreal) : list (list R) :=
  map (map real_of) s.

(** A row of [dim] finite values. *)
Definition finite_row (dim : nat) (p : point xreal) : Prop :=
  length p = dim /\ Forall (fun c => xisfinite c = true) p.

Lemma exact_real_point (p : point xreal) :
  Forall (fun c => xisfinite c = true) p -> exact_point (map real_of p) = p.
Proof.
  induction 1 as [|c p Hc _ IH]; [reflexivity|].
  cbn [map exact_point] in *. unfold exact_point in IH. rewrite IH.
  destruct c; [reflexivity|discriminate].
Qed.

Lemma exact_real_series (dim : nat) (s : series xreal) :
  Forall (finite_row dim) s ->
  exact_series (real_series s) = s
  /\ Forall (fun p => length p = dim) (real_series s).
Proof.
  induction 1 as [|p s (Hl & Hp) _ (IH1 & IH2)]; [split; constructor|].
  unfold exact_series, real_series in *. cbn [map]. split.
  - now rewrite exact_real_point, IH1.
  - constructor; [now rewrite length_map|exact IH2].
Qed.

Lemma exact_series_finite (dim : nat) (X : list (list R)) :
  Forall (fun p => length p = dim) X ->
  Forall (finite_row dim) (exact_series X).
Proof.
  intros H. unfold exact_series. apply Forall_map.
  apply Forall_forall. intros p Hp. rewrite Forall_forall in H. split.
  - unfold exact_point. rewrite length_map. now apply H.
  - unfold exact_point. apply Forall_map. apply Forall_forall. reflexivity.
Qed.

Lemma zip_with_finite (dim : nat) (f : xreal -> xreal -> xreal)
  (a b : point xreal) :
  (forall x y, xisfinite x = true -> xisfinite y = true ->
               xisfinite (f x y) = true) ->
  finite_row dim a -> finite_row dim b -> finite_row dim (Py.zip_with f a b).
Proof.
  intros Hf (La & Fa) (Lb & Fb). subst dim. revert b Lb Fb.
  induction Fa as [|x a Hx _ IH]; intros b Lb Fb.
  - destruct b; [split; constructor|discriminate].
  - destruct b as [|y b]; [discriminate|]. inversion Fb; subst.
    cbn [length] in Lb. injection Lb as Lb.
    destruct (IH b Lb) as (L & Hall); [assumption|].
    cbn [Py.zip_with]. split; [cbn [length]; now rewrite L|].
    constructor; auto.
Qed.

Lemma map_finite (dim : nat) (h : xreal -> xreal) (a : point xreal) :
  (forall x, xisfinite x = true -> xisfinite (h x) = true) ->
  finite_row dim a -> finite_row dim (map h a).
Proof.
  intros Hh (La & Fa). split; [now rewrite length_map|].
  apply Forall_map. revert Fa. apply Forall_impl. exact Hh.
Qed.

Lemma lift_finite (f : R -> R -> R) (x y : xreal) :
  xisfinite x = true -> xisfinite y = true ->
  xisfinite (xlift2 f x y) = true.
Proof. destruct x, y; simpl; congruence. Qed.

Lemma div_finite (x y : xreal) :
  xisfinite x = true -> xisfinite (xdiv x y) = true.
Proof. destruct x, y; simpl; congruence. Qed.

Lemma cumsum_from_finite (dim : nat) (x : series xreal) :
  Forall (finite_row dim) x ->
  forall acc, finite_row dim acc ->
    Forall (finite_row dim) (cumsum_from acc x)
    /\ length (cumsum_from acc x) = length x.
Proof.
  induction 1 as [|r x Hr _ IH]; intros acc Hacc; cbn [cumsum_from].
  - split; [constructor|reflexivity].
  - assert (H : finite_row dim (Py.zip_with fadd acc r))
      by (apply zip_with_finite; auto; apply lift_finite).
    destruct (IH _ H) as (H1 & H2). split; [now constructor|].
    cbn [length]. now rewrite H2.
Qed.

Lemma cumsum_rows_finite (dim : nat) (x : series xreal) :
  Forall (finite_row dim) x ->
  Forall (finite_row dim) (cumsum_rows x)
  /\ length (cumsum_rows x) = length x.
Proof.
  intros H. destruct H as [|r x Hr Hx]; cbn [cumsum_rows].
  - split; [constructor|reflexivity].
  - destruct (cumsum_from_finite Hx Hr) as (H1 & H2).
    split; [now constructor|]. cbn [length]. now rewrite H2.
Qed.

Lemma mapi_from_Forall {A B : Type} (P : A -> Prop) (Q : B -> Prop)
  (f : nat -> A -> B) (l : list A) :
  (forall i x, P x -> Q (f i x)) ->
  Forall P l -> forall k, Forall Q (Py.mapi_from k f l).
Proof.
  intros Hf. induction 1 as [|x l Hx _ IH]; intros k; cbn [Py.mapi_from];
    constructor; auto.
Qed.

Lemma div_by_den_finite (dim : nat) (x : series xreal) :
  Forall (finite_row dim) x ->
  Forall (finite_row dim) (div_by_den x)
  /\ length (div_by_den x) = length x.
Proof.
  intros H. unfold div_by_den. split; [|apply mapi_length].
  unfold Py.mapi. apply mapi_from_Forall with (P := finite_row dim);
    [|exact H].
  intros i row Hrow. apply map_finite; [|exact Hrow].
  intros c Hc. now apply div_finite.
Qed.

Lemma rolling_mean_finite (dim : nat) (s : series xreal) :
  Forall (finite_row dim) s ->
  Forall (finite_row dim) (rolling_mean s)
  /\ length (rolling_mean s) = length s.
Proof.
  intros H. unfold rolling_mean.
  destruct (cumsum_rows_finite H) as (H1 & H2).
  destruct (div_by_den_finite H1) as (H3 & H4). split; [exact H3|congruence].
Qed.

Lemma zip_with_rows {A B C : Type} (P : A -> Prop) (P' : B -> Prop)
  (Q : C -> Prop) (f : A -> B -> C) (a : list A) (b : list B) :
  (forall x y, P x -> P' y -> Q (f x y)) ->
  Forall P a -> Forall P' b -> length a = length b ->
  Forall Q (Py.zip_with f a b) /\ length (Py.zip_with f a b) = length a.
Proof.
  intros Hf Ha. revert b. induction Ha as [|x a Hx _ IH]; intros b Hb Hl.
  - destruct b; [split; constructor|discriminate].
  - destruct b as [|y b]; [discriminate|]. inversion Hb; subst.
    cbn [length] in Hl. injection Hl as Hl.
    destruct (IH b) as (Hall & Hlen); auto. cbn [Py.zip_with length].
    split; [constructor; auto|now rewrite Hlen].
Qed.

Lemma rolling_stdev_finite (dim : nat) (s : series xreal) :
  Forall (finite_row dim) s ->
  Forall (finite_row dim) (rolling_stdev s)
  /\ length (rolling_stdev s) = length s.
Proof.
  intros H. unfold rolling_stdev.
  destruct (rolling_mean_finite H) as (Hm & Lm).
  destruct (@zip_with_rows _ _ _ (finite_row dim) (finite_row dim)
              (finite_row dim)
              (Py.zip_with (fun x mu : xreal => sq (fsub x mu)))
              s (rolling_mean s)) as (H1 & H2); auto.
  { intros x y Hx Hy. apply zip_with_finite; auto.
    intros u v Hu Hv. unfold sq. apply lift_finite; now apply lift_finite. }
  destruct (cumsum_rows_finite H1) as (H3 & H4).
  destruct (div_by_den_finite H3) as (H5 & H6).
  split; [|rewrite length_map; etransitivity; [exact H6|];
            etransitivity; [exact H4|exact H2]].
  apply Forall_map. revert H5. apply Forall_impl. intros row Hrow.
  apply map_finite; [|exact Hrow].
  intros c Hc. destruct c; [reflexivity|discriminate].
Qed.

Lemma row_at_finite (dim : nat) (s : series xreal) (i : Z) :
  Forall (finite_row dim) s -> 0 <= i < Z.of_nat (length s) ->
  finite_row dim (row_at s i).
Proof.
  intros H Hi. unfold row_at, Py.get. replace (i <? 0) with false by lia.
  rewrite Forall_forall in H. apply H, nth_In.
  unfold series, point in *. lia.
Qed.

(** The candidates of a series of finite values are series of finite
    values, of the same dimension. *)
Lemma normalized_prefix_finite (dim : nat) (normalize : bool)
  (s : series xreal) (m : Z) :
  Forall (finite_row dim) s -> 1 <= m <= Z.of_nat (length s) ->
  Forall (finite_row dim)
    (normalized_prefix normalize s
       (if normalize then rolling_mean s else s)
       (if normalize then rolling_stdev s else s) m).
Proof.
  intros H Hm. unfold normalized_prefix.
  assert (Hs : Forall (finite_row dim) (Py.slice_to s m)).
  { apply Forall_forall. intros row Hrow. rewrite Forall_forall in H.
    apply H. now apply in_slice_to in Hrow. }
  destruct normalize; [|exact Hs].
  destruct (rolling_mean_finite H) as (Hmean & Lmean).
  destruct (rolling_stdev_finite H) as (Hdev & Ldev).
  apply Forall_map. revert Hs. apply Forall_impl. intros row Hrow.
  apply zip_with_finite.
  - intros x y Hx _. now apply div_finite.
  - apply zip_with_finite; [apply lift_finite|exact Hrow|].
    apply row_at_finite; [exact Hmean|lia].
  - apply row_at_finite; [exact Hdev|lia].
Qed.

(** The running best of the search over the lengths seen so far: not above
    the distance of any of them, and either the initial state or the
    distance and the label of the length it names. *)
Definition best_so_far (tpl : list (list (series xreal)))
  (warping_window : option xreal) (cand : Z -> series xreal) (mid : Z)
  (seen : list Z) (st : Z * xreal * Z) : Prop :=
  (forall m, In m seen ->
     exists d label,
       average_distance_to_templates (cand m) tpl warping_window
       = Ok (d, label)
       /\ xle (snd (fst st)) d)
  /\ (st = (mid, Inf, 0)
      \/ (In (fst (fst st)) seen
          /\ average_distance_to_templates (cand (fst (fst st))) tpl
               warping_window
             = Ok (snd (fst st), snd st))).

Lemma search_fold_min (tpl : list (list (series xreal)))
  (infos : list (list (template_info_tuple xreal)))
  (warping_window : option xreal) (cand : Z -> series xreal) (mid : Z)
  (l : list Z) :
  (forall m, In m l ->
     exists d label,
       average_distance_to_templates (cand m) tpl warping_window
       = Ok (d, label)) ->
  forall seen st,
    best_so_far tpl warping_window cand mid seen st ->
    exists st',
      foldM (fun st m => search_body tpl infos warping_window false (cand m)
                           m st) l st = Ok st'
      /\ best_so_far tpl warping_window cand mid (seen ++ l) st'.
Proof.
  induction l as [|m l IH]; intros Hret seen st Hst; cbn [foldM].
  - exists st. now rewrite app_nil_r.
  - destruct (Hret m (or_introl eq_refl)) as (d & label & Ed).
    destruct st as ((len_best & d_min) & label_best).
    unfold search_body at 1. rewrite Ed. cbn [bind].
    change (@fltb xreal Exact) with xltb.
    destruct Hst as (Hall & Hbest). cbn [fst snd] in Hall, Hbest.
    replace (seen ++ m :: l) with ((seen ++ [m]) ++ l)
      by (rewrite <- app_assoc; reflexivity).
    destruct (xltb d d_min) eqn:L; cbn [bind]; apply IH;
      try (intros m' Hm'; apply Hret; now right).
    + split; cbn [fst snd].
      * intros m' Hm'. apply in_app_or in Hm'. destruct Hm' as [Hm'|[<-|[]]].
        -- destruct (Hall m' Hm') as (d' & label' & E' & H').
           exists d', label'. split; [exact E'|].
           apply xle_trans with d_min; [now apply xltb_true|exact H'].
        -- exists d, label. split; [exact Ed|apply xle_refl].
      * right. split; [apply in_or_app; right; now left|exact Ed].
    + split; cbn [fst snd].
      * intros m' Hm'. apply in_app_or in Hm'. destruct Hm' as [Hm'|[<-|[]]].
        -- exact (Hall m' Hm').
        -- exists d, label. split; [exact Ed|now apply xltb_false].
      * destruct Hbest as [E|(Hin & E)]; [now left|right].
        split; [apply in_or_app; now left|exact E].
Qed.

Section ExactSearch.

Context {rng : Type} {RS : RandomSource rng} {RSok : RandomSourceOk RS}.

Variable X : list (list R).
Variable templates : list (list (list (list R))).
Variable dim : nat.
Variable warping_window : option xreal.
Variables min_length max_length length_step : Z.
Variable normalize : bool.

Hypothesis X_nonempty : X <> [].
Hypothesis X_dim : Forall (fun p => length p = dim) X.
Hypothesis groups_nonempty : Forall (fun G => G <> []) templates.
Hypothesis templates_ok :
  Forall (Forall (fun T : list (list R) =>
                    (2 <= length T)%nat
                    /\ Forall (fun p => length p = dim) T))
         templates.
Hypothesis min_length_pos : 1 <= min_length.
Hypothesis max_length_pos : 1 <= max_length.

(** On a candidate of finite values the bounds and the distance return, and
    the bounds do not change the step. *)
Lemma finite_candidate_step (Y : series xreal) :
  Y <> [] -> Forall (finite_row dim) Y ->
  let tpl := map (map exact_series) templates in
  (exists d label,
     average_distance_to_templates Y tpl warping_window = Ok (d, label))
  /\ forall m st,
       search_body tpl (templates_info_of tpl) warping_window true Y m st
       = search_body tpl (templates_info_of tpl) warping_window false Y m st.
Proof.
  intros HY Hfin tpl. destruct (exact_real_series Hfin) as (E & Hdim).
  assert (Hne : real_series Y <> []).
  { intros H. apply HY. rewrite <- E, H. reflexivity. }
  assert (Hok : Forall (Forall (fun T : list (list R) =>
                   T <> [] /\ Forall (fun p => length p = dim) T))
                  templates).
  { revert templates_ok. apply Forall_impl. intros G. apply Forall_impl.
    intros T (H2 & HT). split; [|exact HT]. destruct T; [simpl in H2; lia|].
    discriminate. }
  assert (Htwo : (2 <= length (real_series Y))%nat
                 \/ Forall (Forall (fun T : list (list R) =>
                                      (2 <= length T)%nat)) templates).
  { right. revert templates_ok. apply Forall_impl. intros G.
    apply Forall_impl. tauto. }
  destruct (@bounds_return_below_distance (real_series Y) templates dim
              warping_window Hne Hdim groups_nonempty Hok Htwo)
    as (lb1 & lb2 & d & label & E1 & E2 & Ed & H1 & H2).
  rewrite E in E1, E2, Ed. fold tpl in E1, E2, Ed. split.
  - now exists d, label.
  - intros m st. unfold search_body.
    destruct st as ((len_best & d_min) & label_best).
    rewrite E1, E2, Ed. cbn [bind]. change (@fltb xreal Exact) with xltb.
    destruct (xltb d_min lb1) eqn:L1.
    + now rewrite (xltb_beyond _ _ _ L1 H1).
    + destruct (xltb d_min lb2) eqn:L2; [|reflexivity].
      now rewrite (xltb_beyond _ _ _ L2 H2).
Qed.

(** The truncated series and the candidates of the lengths [1 ..
    min(N, max_length)] are non-empty series of finite values. *)
Lemma truncated_finite :
  let s := truncated (exact_series X) max_length in
  Forall (finite_row dim) s
  /\ Z.of_nat (length s) = Z.min (Z.of_nat (length X)) max_length.
Proof.
  intros s. unfold s, truncated.
  pose proof (exact_series_finite X_dim) as H.
  assert (L : length (exact_series X) = length X)
    by (unfold exact_series; now rewrite length_map).
  rewrite L. destruct (_ >? max_length) eqn:E.
  - split.
    + apply Forall_forall. intros row Hrow. rewrite Forall_forall in H.
      apply H. now apply in_slice_to in Hrow.
    + rewrite slice_to_length, L by lia. lia.
  - rewrite L. split; [exact H|lia].
Qed.

Lemma candidate_finite (m : Z) :
  1 <= m <= Z.min (Z.of_nat (length X)) max_length ->
  candidate (exact_series X) max_length normalize m <> []
  /\ Forall (finite_row dim)
       (candidate (exact_series X) max_length normalize m).
Proof.
  intros Hm. destruct truncated_finite as (Hfin & Hlen). unfold candidate.
  split.
  - apply normalized_prefix_nonempty; [|lia].
    intros E. rewrite E in Hlen. cbn [length] in Hlen.
    destruct X; [congruence|]. cbn [length] in Hlen. lia.
  - apply normalized_prefix_finite; [exact Hfin|lia].
Qed.

(** The lengths the search visits are lengths of candidates. *)
Lemma visited_in_range (lengths : list Z) (m : Z) :
  visited_lengths (exact_series X) min_length max_length length_step
  = Ok lengths ->
  In m lengths -> 1 <= m <= Z.min (Z.of_nat (length X)) max_length.
Proof.
  unfold visited_lengths, mid_length_of.
  assert (L : length (exact_series X) = length X)
    by (unfold exact_series; now rewrite length_map).
  rewrite L.
  assert (HN : 1 <= Z.of_nat (length X))
    by (destruct X; [congruence|cbn [length]; lia]).
  pose proof (clamp_lengths_ordered HN min_length_pos max_length_pos) as Hc.
  destruct (clamp_lengths _ min_length max_length) as (a & b).
  destruct Hc as (Hab & HbN & Hb).
  intros E Hm. apply bind_ok in E. destruct E as (ls & Ea & E).
  injection E as <-. apply arange_bounds in Ea.
  destruct Hm as [<-|Hm].
  - pose proof (round_half_between (proj2 Hab)). lia.
  - rewrite Forall_forall in Ea. specialize (Ea _ Hm). lia.
Qed.

(** The search with the bounds is the search without them. *)
Lemma search_unpruned (g : rng) :
  let tpl := map (map exact_series) templates in
  search_subsequence g (exact_series X) tpl (templates_info_of tpl)
    min_length max_length normalize warping_window true length_step
  = search_subsequence g (exact_series X) tpl (templates_info_of tpl)
      min_length max_length normalize warping_window false length_step.
Proof.
  intros tpl.
  pose proof (fun ls m => @visited_in_range ls m) as Hvis.
  unfold visited_lengths, mid_length_of in Hvis.
  unfold search_subsequence.
  destruct (clamp_lengths _ min_length max_length) as (a & b).
  destruct (Py.arange a (b + 1) length_step) as [lengths| |] eqn:Ea;
    cbn [bind] in *; try reflexivity.
  pose proof (fun m => Hvis (Py.round_half (a + b) :: lengths) m eq_refl)
    as Hvis'.
  pose proof (@permutation_of_in _ _ RSok g lengths) as Hperm.
  destruct (permutation_of g lengths) as (v & g'). cbn [fst] in Hperm.
  match goal with
  | |- bind (foldM ?f ?l ?b0) _ = bind (foldM ?f' _ _) _ =>
      rewrite (@foldM_ext_in _ _ f f' l); [reflexivity|]
  end.
  intros st m Hm.
  assert (Hin : In m (Py.round_half (a + b) :: lengths)).
  { destruct Hm as [<-|Hm]; [now left|right].
    apply filter_In in Hm. apply Hperm, Hm. }
  destruct (candidate_finite (Hvis' m Hin)) as (Hne & Hfin).
  exact (proj2 (finite_candidate_step Hne Hfin) m st).
Qed.

(** In exact arithmetic, for a real-valued series and real-valued templates
    of one dimension, every group holding a template and every template at
    least two points, and length bounds of at least 1: the search with the
    lower bounds in use has the outcome of the search without them, whatever
    the order in which the lengths are visited, with and without
    normalization. *)
Theorem search_with_bounds_is_search_without (g : rng) :
  let tpl := map (map exact_series) templates in
  search_subsequence g (exact_series X) tpl (templates_info_of tpl)
    min_length max_length normalize warping_window true length_step
  = search_subsequence g (exact_series X) tpl (templates_info_of tpl)
      min_length max_length normalize warping_window false length_step.
Proof. exact (search_unpruned g). Qed.

(** Under the same conditions and for a step that is not 0, the search
    returns, with or without the lower bounds, and what it returns is the
    minimum: [d_min] is not above the average warped distance of the
    candidate of any visited length, and unless the result is the initial
    [(mid_length, inf, 0)] (every distance being [inf]), [len_best] is a
    visited length, [d_min] the distance of its candidate and [label_best]
    the label found for it. *)
Theorem search_returns_minimum (g : rng) (use_lower_bounds : bool) :
  length_step <> 0 ->
  let tpl := map (map exact_series) templates in
  let cand := candidate (exact_series X) max_length normalize in
  exists lengths len_best d_min label_best g',
    visited_lengths (exact_series X) min_length max_length length_step
    = Ok lengths
    /\ search_subsequence g (exact_series X) tpl (templates_info_of tpl)
         min_length max_length normalize warping_window use_lower_bounds
         length_step
       = Ok (len_best, d_min, label_best, g')
    /\ (forall m, In m lengths ->
          exists d label,
            average_distance_to_templates (cand m) tpl warping_window
            = Ok (d, label)
            /\ xle d_min d)
    /\ ((len_best, d_min, label_best)
        = (mid_length_of (exact_series X) min_length max_length, Inf, 0)
        \/ (In len_best lengths
            /\ average_distance_to_templates (cand len_best) tpl
                 warping_window
               = Ok (d_min, label_best))).
Proof.
  intros Hstep tpl cand.
  assert (E : search_subsequence g (exact_series X) tpl (templates_info_of tpl)
                min_length max_length normalize warping_window
                use_lower_bounds length_step
              = search_subsequence g (exact_series X) tpl
                  (templates_info_of tpl) min_length max_length normalize
                  warping_window false length_step)
    by (destruct use_lower_bounds; [apply search_unpruned|reflexivity]).
  rewrite E. clear E.
  pose proof (fun ls m => @visited_in_range ls m) as Hvis.
  unfold visited_lengths, mid_length_of in *.
  unfold search_subsequence.
  destruct (clamp_lengths _ min_length max_length) as (a & b).
  assert (Ea : exists lengths, Py.arange a (b + 1) length_step = Ok lengths).
  { unfold Py.arange. apply Z.eqb_neq in Hstep. rewrite Hstep.
    destruct (length_step <? 0); eexists; reflexivity. }
  destruct Ea as (lengths & Ea). rewrite Ea in *. cbn [bind] in *.
  pose proof (fun m => Hvis (Py.round_half (a + b) :: lengths) m eq_refl)
    as Hvis'.
  pose proof (@permutation_of_perm _ _ RSok g lengths) as Hperm.
  destruct (permutation_of g lengths) as (v & g'). cbn [fst] in Hperm.
  set (mid := Py.round_half (a + b)) in *.
  assert (Hsame : forall m, In m (mid :: lengths)
                            <-> In m (length_range_of mid v)).
  { intros m. unfold length_range_of. cbn [In]. rewrite filter_In. split.
    - intros [H|H]; [now left|].
      destruct (Z.eq_dec mid m) as [Hm|Hm]; [now left|right].
      split; [exact (Permutation_in _ (Permutation_sym Hperm) H)|].
      apply negb_true_iff. apply Z.eqb_neq. congruence.
    - intros [H|(H & _)]; [now left|right].
      exact (Permutation_in _ Hperm H). }
  destruct (@search_fold_min tpl (templates_info_of tpl) warping_window cand
              mid (length_range_of mid v)) with (seen := @nil Z)
    (st := (mid, @finf xreal Exact, 0))
    as (((len_best & d_min) & label_best) & Ef & Hall & Hbest).
  { intros m Hm. apply Hsame in Hm.
    destruct (candidate_finite (Hvis' m Hm)) as (Hne & Hfin).
    exact (proj1 (finite_candidate_step Hne Hfin)). }
  { split; [intros m []|now left]. }
  cbn [app fst snd] in Hall, Hbest.
  exists (mid :: lengths), len_best, d_min, label_best, g'.
  split; [reflexivity|]. split; [|split].
  - match goal with
    | |- bind ?fold _ = _ =>
        assert (Ef' : fold = Ok (len_best, d_min, label_best)) by exact Ef;
        rewrite Ef'
    end.
    reflexivity.
  - intros m Hm. apply Hall. now apply Hsame.
  - destruct Hbest as [H|(H1 & H2)]; [now left|right].
    split; [now apply Hsame|exact H2].
Qed.

End ExactSearch.

(** The two statements on a series of four points, one action with a
    template of three points and one of two, lengths from 2 to 3, with
    normalization. *)
Lemma search_with_bounds_is_search_without_witness :
  let tpl := map (map exact_series) [[[[0]; [2]; [0]]; [[1]; [0]]]]%R in
  search_subsequence (RS := Scripted) [] (exact_series [[0]; [1]; [0]; [2]]%R)
    tpl (templates_info_of tpl) 2 3 true None true 1
  = search_subsequence (RS := Scripted) []
      (exact_series [[0]; [1]; [0]; [2]]%R) tpl (templates_info_of tpl) 2 3
      true None false 1.
Proof.
  apply (@search_with_bounds_is_search_without _ Scripted Scripted_ok
           [[0]; [1]; [0]; [2]]%R [[[[0]; [2]; [0]]; [[1]; [0]]]]%R 1%nat
           None 2 3 1 true).
  - discriminate.
  - repeat constructor.
  - repeat constructor; discriminate.
  - repeat (constructor; try (simpl; lia)).
  - lia.
  - lia.
Defined.

Lemma search_returns_minimum_witness :
  let tpl := map (map exact_series) [[[[0]; [2]; [0]]; [[1]; [0]]]]%R in
  let cand := candidate (exact_series [[0]; [1]; [0]; [2]]%R) 3 true in
  exists lengths len_best d_min label_best g',
    visited_lengths (exact_series [[0]; [1]; [0]; [2]]%R) 2 3 1 = Ok lengths
    /\ search_subsequence (RS := Scripted) []
         (exact_series [[0]; [1]; [0]; [2]]%R) tpl (templates_info_of tpl)
         2 3 true None true 1
       = Ok (len_best, d_min, label_best, g')
    /\ (forall m, In m lengths ->
          exists d label,
            average_distance_to_templates (cand m) tpl None = Ok (d, label)
            /\ xle d_min d)
    /\ ((len_best, d_min, label_best)
        = (mid_length_of (exact_series [[0]; [1]; [0]; [2]]%R) 2 3, Inf, 0)
        \/ (In len_best lengths
            /\ average_distance_to_templates (cand len_best) tpl None
               = Ok (d_min, label_best))).
Proof.
  apply (@search_returns_minimum _ Scripted Scripted_ok
           [[0]; [1]; [0]; [2]]%R [[[[0]; [2]; [0]]; [[1]; [0]]]]%R 1%nat
           None 2 3 1 true).
  - discriminate.
  - repeat constructor.
  - repeat constructor; discriminate.
  - repeat (constructor; try (simpl; lia)).
  - lia.
  - lia.
  - lia.
Defined.

(** ** The rolling deviation is positive *)

Lemma zip_with_Forall {A B C : Type} (P : A -> Prop) (P' : B -> Prop)
  (Q : C -> Prop) (f : A -> B -> C) (a : list A) :
  (forall x y, P x -> P' y -> Q (f x y)) ->
  Forall P a -> forall b, Forall P' b -> Forall Q (Py.zip_with f a b).
Proof.
  intros Hf. induction 1 as [|x a Hx _ IH]; intros b Hb;
    [destruct b; constructor|].
  destruct Hb as [|y b Hy Hb]; cbn [Py.zip_with]; constructor; auto.
Qed.

Section RunningSums.

(** A property of values that sums and divisions by a positive integer
    keep. *)
Variable P : xreal -> Prop.
Hypothesis P_add : forall x y, P x -> P y -> P (fadd x y).
Hypothesis P_div : forall x (n : Z), 0 < n -> P x -> P (fdiv x (of_int n)).

Lemma cumsum_from_all (x : series xreal) :
  Forall (Forall P) x ->
  forall acc, Forall P acc -> Forall (Forall P) (cumsum_from acc x).
Proof.
  induction 1 as [|r x Hr _ IH]; intros acc Hacc; cbn [cumsum_from];
    constructor.
  - now apply zip_with_Forall with (P := P) (P' := P).
  - apply IH. now apply zip_with_Forall with (P := P) (P' := P).
Qed.

Lemma cumsum_rows_all (x : series xreal) :
  Forall (Forall P) x -> Forall (Forall P) (cumsum_rows x).
Proof.
  intros H. destruct H as [|r x Hr Hx]; cbn [cumsum_rows]; constructor;
    [exact Hr|]. now apply cumsum_from_all.
Qed.

Lemma div_by_den_all (x : series xreal) :
  Forall (Forall P) x -> Forall (Forall P) (div_by_den x).
Proof.
  intros H. unfold div_by_den, Py.mapi.
  apply mapi_from_Forall with (P := Forall P); [|exact H].
  intros i row Hrow. apply Forall_map. revert Hrow. apply Forall_impl.
  intros c Hc. apply P_div; [lia|exact Hc].
Qed.

End RunningSums.

(** In exact arithmetic every entry of [sequence_stdev] is a positive real:
    the guard [1e-16] under the square root keeps the normalization of the
    candidates, which divides by these entries, away from a division by
    zero. *)
Theorem rolling_stdev_positive (X : list (list R)) :
  Forall (Forall (fun c => exists r, c = Fin r /\ (0 < r)%R))
         (rolling_stdev (exact_series X)).
Proof.
  set (fin := fun c : xreal => xisfinite c = true).
  set (nonneg := fun c : xreal => exists r, c = Fin r /\ (0 <= r)%R).
  assert (Hfin : Forall (Forall fin) (exact_series X)).
  { unfold exact_series, exact_point. apply Forall_map, Forall_forall.
    intros p _. apply Forall_map, Forall_forall. reflexivity. }
  assert (Hmean : Forall (Forall fin) (rolling_mean (exact_series X))).
  { unfold rolling_mean. apply div_by_den_all.
    - intros x n _. apply div_finite.
    - apply cumsum_rows_all; [|exact Hfin].
      intros x y. apply lift_finite. }
  unfold rolling_stdev. apply Forall_map.
  assert (Hsq : Forall (Forall nonneg)
                  (Py.zip_with
                     (Py.zip_with (fun x mu : xreal => sq (fsub x mu)))
                     (exact_series X) (rolling_mean (exact_series X)))).
  { apply zip_with_Forall with (P := Forall fin) (P' := Forall fin);
      [|exact Hfin|exact Hmean].
    intros a b Ha Hb.
    apply zip_with_Forall with (P := fin) (P' := fin); [|exact Ha|exact Hb].
    intros x y Hx Hy. destruct x as [u|], y as [v|]; try discriminate.
    exists ((u - v) * (u - v))%R. split; [reflexivity|].
    apply Rle_0_sqr. }
  assert (Hsum : Forall (Forall nonneg)
                   (div_by_den
                      (cumsum_rows
                         (Py.zip_with
                            (Py.zip_with
                               (fun x mu : xreal => sq (fsub x mu)))
                            (exact_series X)
                            (rolling_mean (exact_series X)))))).
  { apply div_by_den_all; [|apply cumsum_rows_all; [|exact Hsq]].
    - intros x n Hn (r & -> & Hr). exists (r / IZR n)%R.
      split; [reflexivity|]. apply Rle_mult_inv_pos; [exact Hr|].
      now apply IZR_lt.
    - intros x y (r & -> & Hr) (r' & -> & Hr'). exists (r + r')%R.
      split; [reflexivity|lra]. }
  revert Hsum. apply Forall_impl. intros row Hrow.
  apply Forall_map. revert Hrow. apply Forall_impl.
  intros c (r & -> & Hr).
  exists (sqrt (1 / IZR (10 ^ 16) + r)). split; [reflexivity|].
  apply sqrt_lt_R0.
  assert (0 < 1 / IZR (10 ^ 16))%R.
  { apply Rdiv_lt_0_compat; [lra|]. apply IZR_lt. reflexivity. }
  lra.
Qed.

(** ** The segments the driver returns *)

Lemma foldM_ok_invariant {A B : Type} (P : B -> Prop)
  (f : B -> A -> outcome B) (l : list A) :
  (forall b x b', In x l -> P b -> f b x = Ok b' -> P b') ->
  forall b b', P b -> foldM f l b = Ok b' -> P b'.
Proof.
  induction l as [|x t IH]; intros Hf b b' Hb E; cbn [foldM] in E.
  - now injection E as <-.
  - apply bind_ok in E. destruct E as (b1 & E1 & E).
    apply IH with (b := b1); [|eauto using in_eq|exact E].
    intros b2 y b3 Hy. apply Hf. now right.
Qed.

Lemma clamp_lengths_upper (N min_length max_length : Z) :
  0 <= N -> 1 <= min_length -> 1 <= max_length ->
  let '(a, b) := clamp_lengths N min_length max_length in
  Py.round_half (a + b) <= b /\ b <= N /\ b <= max_length.
Proof.
  intros HN Hmin Hmax. destruct (Z.eq_dec N 0) as [->|HN0].
  - unfold clamp_lengths. replace (0 >? max_length) with false by lia.
    replace (min_length >=? 0) with true by lia.
    split; [vm_compute; discriminate|lia].
  - pose proof (@clamp_lengths_ordered N min_length max_length) as H.
    destruct (clamp_lengths N min_length max_length) as (a & b).
    destruct H as (Hab & HbN & Hb); try lia.
    pose proof (round_half_between (proj2 Hab)). lia.
Qed.

Section SearchLength.

Context {F : Type} {AR : Arith F}.
Context {rng : Type} {RS : RandomSource rng} {RSok : RandomSourceOk RS}.

(** One step of the search keeps the best length or sets it to the length
    of the step. *)
Lemma search_body_length (templates : list (list (series F)))
  (templates_info : list (list (template_info_tuple F)))
  (warping_window : option F) (use_lower_bounds : bool)
  (sequence_norm : series F) (m : Z) (st st' : Z * F * Z) :
  search_body templates templates_info warping_window use_lower_bounds
    sequence_norm m st = Ok st' ->
  fst (fst st') = fst (fst st) \/ fst (fst st') = m.
Proof.
  unfold search_body. destruct st as ((len_best & d_min) & label_best).
  assert (Hscore :
    ('(d, label) <- average_distance_to_templates sequence_norm templates
                      warping_window ;;
     if fltb d d_min then Ok (m, d, label)
     else Ok (len_best, d_min, label_best)) = Ok st' ->
    fst (fst st') = len_best \/ fst (fst st') = m).
  { intros E. apply bind_ok in E. destruct E as ((d & label) & _ & E).
    destruct (fltb d d_min); injection E as <-; auto. }
  cbn [fst]. destruct use_lower_bounds; [|exact Hscore].
  intros E. apply bind_ok in E. destruct E as (lb1 & _ & E).
  destruct (fltb d_min lb1); [injection E as <-; auto|].
  apply bind_ok in E. destruct E as (lb2 & _ & E).
  destruct (fltb d_min lb2); [injection E as <-; auto|].
  now apply Hscore.
Qed.

(** The length the search returns is at most the number of points of the
    sequence and at most [max_length]. *)
Lemma search_subsequence_length (g g' : rng) (sequence : series F)
  (templates : list (list (series F)))
  (templates_info : list (list (template_info_tuple F)))
  (min_length max_length : Z) (normalize : bool) (warping_window : option F)
  (use_lower_bounds : bool) (length_step : Z) (m : Z) (d : F) (label : Z) :
  1 <= min_length -> 1 <= max_length ->
  search_subsequence g sequence templates templates_info min_length
    max_length normalize warping_window use_lower_bounds length_step
  = Ok (m, d, label, g') ->
  m <= Z.of_nat (length sequence) /\ m <= max_length.
Proof.
  intros Hmin Hmax. unfold search_subsequence.
  pose proof (@clamp_lengths_upper (Z.of_nat (length sequence)) min_length
                max_length ltac:(lia) Hmin Hmax) as Hc.
  destruct (clamp_lengths _ min_length max_length) as (a & b).
  destruct Hc as (Hmid & HbN & Hb).
  intros E. apply bind_ok in E. destruct E as (lengths & Ea & E).
  apply arange_bounds in Ea.
  pose proof (@permutation_of_in _ _ RSok g lengths) as Hperm.
  destruct (permutation_of g lengths) as (v & g1). cbn [fst] in Hperm.
  apply bind_ok in E.
  destruct E as (((len_best & d_min) & label_best) & Ef & E).
  injection E as <- _ _ _.
  apply foldM_ok_invariant
    with (P := fun st : Z * F * Z => fst (fst st) <= b) in Ef;
    [cbn [fst] in Ef; lia| |exact Hmid].
  intros st x st' Hx Hst Eb. apply search_body_length in Eb.
  destruct Eb as [->| ->]; [exact Hst|].
  destruct Hx as [<-|Hx]; [exact Hmid|].
  apply filter_In in Hx. destruct Hx as (Hx & _). apply Hperm in Hx.
  rewrite Forall_forall in Ea. specialize (Ea _ Hx). lia.
Qed.

End SearchLength.

Section DriverSegments.

Context {F : Type} {AR : Arith F} {rng : Type}.

Variable search : rng -> series F -> outcome (Z * F * Z * rng).
Variable distance_thresholds : list F.
Variables min_length max_length offset_step : Z.
Variable approx : bool.
Variable K : Z.

Hypothesis min_length_pos : 1 <= min_length.
Hypothesis offset_step_pos : 1 <= offset_step.
Hypothesis thresholds_cover : 1 <= K <= Z.of_nat (length distance_thresholds).
Hypothesis search_total :
  forall g s, s <> [] ->
  exists m d label g',
    search g s = Ok (m, d, label, g') /\ 1 <= m /\ 0 <= label <= K.
Hypothesis search_bounded :
  forall g s m d label g',
    search g s = Ok (m, d, label, g') ->
    m <= Z.of_nat (length s) /\ m <= max_length.

(** A returned segment has a point; one the driver matched has at most
    [max_length] points. *)
Definition segment_ok (seg : series F) (label : Z) : Prop :=
  seg <> [] /\ (label <> 0 -> Z.of_nat (length seg) <= max_length).

Lemma nonempty_of_length (s : series F) : 1 <= Z.of_nat (length s) -> s <> [].
Proof. intros H ->. cbn [length] in H. lia. Qed.

Lemma segment_loop_segments :
  forall (fuel : nat) (data_rem : series F) (g : rng),
    (length data_rem <= fuel)%nat ->
    exists segs labels g',
      segment_loop search distance_thresholds min_length offset_step approx
        fuel data_rem g = Ok (segs, labels, g')
      /\ Forall2 segment_ok segs labels.
Proof.
  induction fuel as [|fuel IH]; intros data_rem g Hfuel.
  - destruct data_rem; [|simpl in Hfuel; lia].
    simpl. replace (0 >? min_length) with false by lia.
    exists [], [], g. split; [reflexivity|constructor].
  - simpl.
    destruct (Z.of_nat (length data_rem) >? min_length) eqn:Elen.
    + destruct (@scan_loop_spec F AR rng search distance_thresholds
                  min_length offset_step approx K min_length_pos
                  offset_step_pos thresholds_cover search_total data_rem fuel
                  scan_start g
                  (scan_start_invariant search distance_thresholds K
                     data_rem)) as (st & g' & Es & Hinv).
      { simpl. lia. }
      rewrite Es. simpl. destruct (matched st) eqn:Em.
      * destruct Hinv as (Hoff & Hbest).
        destruct (Hbest Em) as ((Ho1 & Ho2) & Hm & Hlab & Hacc).
        set (o := best_offset (info_best st)) in *.
        set (m := best_length (info_best st)) in *.
        set (label := best_label (info_best st)) in *.
        destruct Hacc as (g0 & g0' & m' & d & th & Esearch & _ & _ & Hm'
                          & Eseg).
        destruct (search_bounded Esearch) as (Hlen' & Hmax').
        assert (Hseg : Z.of_nat (length (Py.slice data_rem o (o + m))) = m').
        { rewrite (@slice_of_suffix F distance_thresholds) by lia. rewrite Eseg.
          rewrite slice_to_length by lia. lia. }
        assert (Hsuffix : 1 <= Z.of_nat (length data_rem) - o).
        { rewrite slice_from_length in Hlen' by lia. lia. }
        destruct (IH (Py.slice_from data_rem (o + m)) g')
          as (segs & labels & g'' & Er & Hall).
        { apply Nat2Z.inj_le. rewrite slice_from_length by lia. lia. }
        rewrite Er. simpl.
        assert (Hmatched : segment_ok (Py.slice data_rem o (o + m)) label).
        { split; [apply nonempty_of_length; lia|intros _; lia]. }
        destruct (o >? 0) eqn:Eo.
        -- eexists _, _, g''. split; [reflexivity|].
           constructor; [|constructor; assumption].
           split; [|congruence]. apply nonempty_of_length.
           rewrite slice_to_length by lia. lia.
        -- eexists _, _, g''. split; [reflexivity|].
           constructor; assumption.
      * exists [data_rem], [0], g'. split; [reflexivity|].
        constructor; [|constructor]. split; [|congruence].
        apply nonempty_of_length. lia.
    + destruct (Z.of_nat (length data_rem) >? 0) eqn:E0.
      * exists [data_rem], [0], g. split; [reflexivity|].
        constructor; [|constructor]. split; [|congruence].
        apply nonempty_of_length. lia.
      * exists [], [], g. split; [reflexivity|constructor].
Qed.

End DriverSegments.

Section Segments.

Context {F : Type} {AR : Arith F}.
Context {rng : Type} {RS : RandomSource rng} {RSok : RandomSourceOk RS}.


End Segments.


(** ** The preprocessing of the templates *)

Lemma bind_result_ok {A B : Type} (m : py_result A) (k : A -> py_result B)
  (b : B) :
  bind_result m k = Outcome (Ok b) ->
  exists a, m = Outcome (Ok a) /\ k a = Outcome (Ok b).
Proof.
  destruct m as [[a|e|]|]; cbn [bind_result]; intros E; try discriminate.
  now exists a.
Qed.

Section PreprocessingStructure.

Context {F : Type} {AR : Arith F}.

Variable zscore : series F -> series F.

(** The array [normalize_templates] stores for a template. *)
Definition stored_template (normalize : bool) (a : series F) : series F :=
  if normalize then zscore a else a.

Lemma normalize_template_ok (normalize : bool) (a arr : series F)
  (info : template_info_tuple F) :
  normalize_template zscore normalize a = Ok (arr, info) ->
  arr = stored_template normalize a /\ arr <> []
  /\ info = template_info_of arr.
Proof.
  unfold normalize_template. fold (stored_template normalize a).
  destruct (stored_template normalize a) as [|p s]; [discriminate|].
  intros E. injection E as <- <-. repeat split. discriminate.
Qed.

Lemma normalize_template_returns (normalize : bool) (a : series F) :
  stored_template normalize a <> [] ->
  normalize_template zscore normalize a
  = Ok (stored_template normalize a,
        template_info_of (stored_template normalize a)).
Proof.
  unfold normalize_template. fold (stored_template normalize a).
  destruct (stored_template normalize a); [congruence|reflexivity].
Qed.

Lemma normalize_group_ok (normalize : bool) (t : list (series F)) :
  forall pairs,
    mapM (normalize_template zscore normalize) t = Ok pairs ->
    map fst pairs = map (stored_template normalize) t
    /\ map snd pairs
       = map template_info_of (map (stored_template normalize) t)
    /\ Forall (fun a => stored_template normalize a <> []) t.
Proof.
  induction t as [|a t IH]; intros pairs E; cbn [mapM] in E.
  - injection E as <-. repeat split. constructor.
  - apply bind_ok in E. destruct E as ((arr & info) & Ea & E).
    apply bind_ok in E. destruct E as (rest & Er & E). injection E as <-.
    apply normalize_template_ok in Ea. destruct Ea as (-> & Hne & ->).
    destruct (IH _ Er) as (H1 & H2 & H3). cbn [map fst snd].
    rewrite H1, H2. repeat split. now constructor.
Qed.

Lemma normalize_group_returns (normalize : bool) (t : list (series F)) :
  Forall (fun a => stored_template normalize a <> []) t ->
  exists pairs, mapM (normalize_template zscore normalize) t = Ok pairs.
Proof.
  induction 1 as [|a t Ha _ (rest & IH)]; cbn [mapM]; [now eexists|].
  rewrite (@normalize_template_returns normalize a Ha). cbn [bind]. rewrite IH.
  cbn [bind]. now eexists.
Qed.

(** What the loop over the actions appends to its lists. *)
Lemma normalize_fold_structure (alpha : F) (normalize : bool)
  (templates : list (list (series F))) :
  forall st st' : normalize_state,
    foldM (normalize_step zscore alpha normalize) templates st = Ok st' ->
    snd (fst (fst st'))
    = snd (fst (fst st)) ++ map (map (stored_template normalize)) templates
    /\ snd (fst st')
       = snd (fst st)
         ++ templates_info_of (map (map (stored_template normalize)) templates)
    /\ snd st'
       = snd st
         ++ concat (map (map (fun a => Z.of_nat (length a))) templates)
    /\ Forall (Forall (fun a => stored_template normalize a <> []))
              templates.
Proof.
  induction templates as [|t rest IH]; intros st st' E; cbn [foldM] in E.
  - injection E as <-. cbn [map concat templates_info_of].
    rewrite !app_nil_r. repeat split. constructor.
  - apply bind_ok in E. destruct E as (st1 & E1 & E).
    destruct (IH _ _ E) as (H1 & H2 & H3 & H4). clear IH E.
    destruct st as ((((mn & mx) & norm) & info) & lens).
    unfold normalize_step in E1.
    apply bind_ok in E1. destruct E1 as ((v_min & v_max) & _ & E1).
    apply bind_ok in E1. destruct E1 as (pairs & Ep & E1).
    injection E1 as <-. cbn [fst snd] in *.
    destruct (normalize_group_ok _ _ Ep) as (P1 & P2 & P3).
    rewrite H1, H2, H3, P1, P2. unfold templates_info_of.
    cbn [map concat]. rewrite <- !app_assoc. cbn [app].
    repeat split. now constructor.
Qed.

(** When [normalize_templates] returns, its templates are the stored
    arrays, none of them empty, and its summaries are their summaries. *)
Lemma normalize_templates_structure (templates : list (list (series F)))
  (alpha : F) (normalize : bool) (tn : list (list (series F)))
  (ti : list (list (template_info_tuple F))) (ls : Z * Z * Z) :
  normalize_templates zscore templates alpha normalize
  = Outcome (Ok (tn, ti, ls)) ->
  tn = map (map (stored_template normalize)) templates
  /\ ti = templates_info_of tn
  /\ Forall (Forall (fun arr => arr <> [])) tn.
Proof.
  unfold normalize_templates. intros E.
  apply bind_result_ok in E.
  destruct E as (((((mn & mx) & norm) & info) & lens) & Ef & E).
  injection Ef as Ef. apply normalize_fold_structure in Ef.
  cbn [fst snd app] in Ef. destruct Ef as (-> & -> & _ & Hne).
  apply bind_result_ok in E. destruct E as (a1 & _ & E).
  apply bind_result_ok in E. destruct E as (a2 & _ & E).
  apply bind_result_ok in E. destruct E as (a3 & _ & E).
  apply bind_result_ok in E. destruct E as (a4 & _ & E).
  injection E as <- <- _. repeat split.
  apply Forall_map. revert Hne. apply Forall_impl. intros t Ht.
  apply Forall_map. exact Ht.
Qed.

(** The errors of the first action: a zero [alpha] makes [1.0 / alpha]
    raise, an array without rows makes [np.min] raise. *)
Lemma normalize_templates_zero_alpha (t : list (series F))
  (rest : list (list (series F))) (alpha : F) (normalize : bool) :
  t <> [] -> fleb alpha fzero = true -> fleb fzero alpha = true ->
  normalize_templates zscore (t :: rest) alpha normalize
  = Outcome (Raise ZeroDivisionError).
Proof.
  intros Ht H1 H2. unfold normalize_templates. cbn [foldM].
  unfold normalize_step at 1, group_length_bounds.
  destruct t as [|a t]; [congruence|]. cbn [map np_percentile bind].
  unfold py_float_div. rewrite H1, H2. reflexivity.
Qed.

Lemma normalize_group_raises (normalize : bool) (t : list (series F)) :
  Exists (fun a => stored_template normalize a = []) t ->
  mapM (normalize_template zscore normalize) t = Raise ValueError.
Proof.
  induction 1 as [a t Ha|a t _ IH]; cbn [mapM].
  - unfold normalize_template. fold (stored_template normalize a).
    now rewrite Ha.
  - unfold normalize_template at 1. fold (stored_template normalize a).
    destruct (stored_template normalize a); [reflexivity|].
    cbn [bind]. now rewrite IH.
Qed.

Lemma normalize_templates_empty_array (t : list (series F))
  (rest : list (list (series F))) (alpha : F) (normalize : bool) :
  fleb alpha fzero && fleb fzero alpha = false ->
  Exists (fun a => stored_template normalize a = []) t ->
  normalize_templates zscore (t :: rest) alpha normalize
  = Outcome (Raise ValueError).
Proof.
  intros Ha Ht. unfold normalize_templates. cbn [foldM].
  unfold normalize_step at 1, group_length_bounds.
  assert (Hne : t <> []) by (intros ->; inversion Ht).
  destruct t as [|a t]; [congruence|]. cbn [map np_percentile bind].
  unfold py_float_div. rewrite Ha. cbn [bind].
  rewrite (@normalize_group_raises normalize (a :: t) Ht). reflexivity.
Qed.

End PreprocessingStructure.

(** *** The length statistics, in exact arithmetic *)

Lemma floor_int_real (r : R) : floor_int (Fin r) = Int_part r.
Proof.
  unfold floor_int. cbn [ceil_int fsub fzero Exact xlift2 xceil].
  rewrite Z.opp_involutive. f_equal. lra.
Qed.

Lemma Int_part_le (r : R) (z : Z) : (r <= IZR z)%R -> Int_part r <= z.
Proof.
  intros H. destruct (base_Int_part r) as (H1 & _).
  apply le_IZR. lra.
Qed.

Lemma Int_part_ge (r : R) (z : Z) : (IZR z <= r)%R -> z <= Int_part r.
Proof.
  intros H. destruct (base_Int_part r) as (_ & H2).
  assert (IZR z < IZR (Int_part r + 1))%R by (rewrite plus_IZR; lra).
  apply lt_IZR in H0. lia.
Qed.

Lemma Int_part_mono (r s : R) : (r <= s)%R -> Int_part r <= Int_part s.
Proof.
  intros H. apply Int_part_ge. destruct (base_Int_part r) as (H1 & _). lra.
Qed.

Lemma py_int_exact (r : R) :
  (0 <= r)%R -> py_int (Fin r) = Outcome (Ok (Int_part r)).
Proof.
  intros H. unfold py_int. cbn [isfinite fltb fzero Exact xisfinite xltb].
  destruct (Rlt_dec r 0); [lra|]. now rewrite floor_int_real.
Qed.

(** A value between two reals. *)
Definition within (lo hi : R) (d : xreal) : Prop :=
  exists r, d = Fin r /\ (lo <= r <= hi)%R.

Lemma sorted_nth_in (a : list xreal) (i : Z) :
  0 <= i < Z.of_nat (length a) -> In (Py.get fzero (np_sort a) i) a.
Proof.
  intros Hi. apply np_sort_in. unfold Py.get. apply nth_In.
  rewrite np_sort_length. lia.
Qed.

(** A percentile of values between two reals lies between them. *)
Lemma percentile_within (a : list xreal) (q : Z) (p : xreal) (lo hi : R) :
  0 <= q <= 100 -> Forall (within lo hi) a ->
  np_percentile a q = Ok p -> within lo hi p.
Proof.
  intros Hq Ha E. apply np_percentile_ok in E. destruct E as (Hne & ->).
  cbv zeta.
  assert (Hn : 1 <= Z.of_nat (length a)) by (apply length_pos; exact Hne).
  set (n := Z.of_nat (length a)) in *.
  set (pos := (n - 1) * q).
  assert (Hlo : 0 <= pos / 100 <= n - 1).
  { split; [apply Z.div_pos; unfold pos; nia|].
    apply Z.div_le_upper_bound; unfold pos; nia. }
  pose proof (Z.mod_pos_bound pos 100 ltac:(lia)) as Hmod.
  rewrite Forall_forall in Ha.
  destruct (Ha _ (@sorted_nth_in a (pos / 100) ltac:(unfold n in *; lia)))
    as (x & -> & Hx).
  destruct (Ha _ (@sorted_nth_in a (Z.min (pos / 100 + 1) (n - 1))
                    ltac:(unfold n in *; lia)))
    as (y & -> & Hy).
  cbn [fadd fmul fsub fdiv of_int Exact xlift2 xdiv].
  eexists. split; [reflexivity|].
  assert (Ht : (0 <= IZR (pos mod 100) / IZR 100 < 1)%R).
  { assert (0 <= IZR (pos mod 100))%R by (apply IZR_le; lia).
    assert (IZR (pos mod 100) < IZR 100)%R by (apply IZR_lt; lia).
    split; [apply Rle_mult_inv_pos; lra|].
    apply (Rmult_lt_reg_r 100); [lra|]. unfold Rdiv.
    rewrite Rmult_assoc, Rinv_l by lra. lra. }
  set (t := (IZR (pos mod 100) / IZR 100)%R) in *. nra.
Qed.

(** The percentile 0 is not above any value. *)
Lemma percentile_0_min (a : list xreal) (p : xreal) (lo hi : R) :
  Forall (within lo hi) a ->
  np_percentile a 0 = Ok p -> forall d, In d a -> xle p d.
Proof.
  intros Ha E d Hd. apply np_percentile_ok in E. destruct E as (Hne & ->).
  cbv zeta.
  assert (Hn : 1 <= Z.of_nat (length a)) by (apply length_pos; exact Hne).
  rewrite Z.mul_0_r. change (0 / 100) with 0. change (0 mod 100) with 0.
  rewrite Forall_forall in Ha.
  destruct (Ha _ (@sorted_nth_in a (Z.min (0 + 1) (Z.of_nat (length a) - 1))
                    ltac:(lia)))
    as (y & Ey & Hy).
  destruct (Ha _ (@sorted_nth_in a 0 ltac:(lia))) as (x & Ex & Hx).
  assert (Hxd : xle (Py.get fzero (np_sort a) 0) d).
  { pose proof (np_sort_sorted a) as Hs. apply np_sort_in in Hd.
    unfold Py.get. cbn [Z.to_nat].
    destruct (np_sort a) as [|x0 t]; [contradiction|]. cbn [nth].
    destruct Hd as [<-|Hd]; [apply xle_refl|].
    inversion Hs as [|? ? _ Hall]; subst. rewrite Forall_forall in Hall.
    now apply Hall. }
  rewrite Ey, Ex in *.
  cbn [fadd fmul fsub fdiv of_int Exact xlift2 xdiv].
  destruct d as [rd|]; [|exact I]. cbn [xle] in *.
  unfold Rdiv. rewrite Rmult_0_l, Rmult_0_r. lra.
Qed.

Section LengthStatistics.

Variable zscore : series xreal -> series xreal.
Variable a : R.
Variable normalize : bool.

Hypothesis alpha_nonzero : a <> 0%R.

(** The lengths of the templates of an action, as the floats the
    percentiles are taken of. *)
Definition float_lengths (t : list (series xreal)) : list xreal :=
  map (fun s => of_int (Z.of_nat (length s))) t.

Lemma float_lengths_within (t : list (series xreal)) (lo hi : R) :
  Forall (fun s => (lo <= IZR (Z.of_nat (length s)) <= hi)%R) t ->
  Forall (within lo hi) (float_lengths t).
Proof.
  intros H. unfold float_lengths. apply Forall_map. revert H.
  apply Forall_impl. intros s Hs. eexists. split; [reflexivity|exact Hs].
Qed.

Lemma lengths_bounded (t : list (series xreal)) :
  Forall (fun s => s <> []) t ->
  exists hi,
    Forall (fun s => (1 <= IZR (Z.of_nat (length s)) <= hi)%R) t.
Proof.
  induction 1 as [|s t Hs _ (hi & IH)]; [exists 1%R; constructor|].
  exists (Rmax hi (IZR (Z.of_nat (length s)))). constructor.
  - split; [|apply Rmax_r]. apply IZR_le. destruct s; [congruence|].
    cbn [length]. lia.
  - revert IH. apply Forall_impl. intros s' (H1 & H2). split; [exact H1|].
    pose proof (Rmax_l hi (IZR (Z.of_nat (length s)))). lra.
Qed.

(** The two values of an action: the first is at least 1 and at most every
    length, the second at least every length. *)
Lemma group_length_bounds_exact (t : list (series xreal)) :
  t <> [] -> Forall (fun s => s <> []) t ->
  exists v_min v_max,
    group_length_bounds (Fin a) t = Ok (Fin v_min, Fin v_max)
    /\ (1 <= v_min)%R
    /\ Forall (fun s => (v_min <= IZR (Z.of_nat (length s)) <= v_max)%R) t.
Proof.
  intros Hne Hall. destruct (lengths_bounded Hall) as (hi & Hb).
  pose proof (float_lengths_within Hb) as Hw.
  unfold group_length_bounds. fold (float_lengths t).
  assert (Hlen : float_lengths t <> []).
  { unfold float_lengths. destruct t; [congruence|discriminate]. }
  destruct (float_lengths t) as [|l0 ls] eqn:El; [congruence|].
  rewrite <- El in *.
  assert (E0 : exists p, np_percentile (float_lengths t) 0 = Ok p)
    by (rewrite El; cbn [np_percentile]; eauto).
  assert (E50 : exists p, np_percentile (float_lengths t) 50 = Ok p)
    by (rewrite El; cbn [np_percentile]; eauto).
  assert (E100 : exists p, np_percentile (float_lengths t) 100 = Ok p)
    by (rewrite El; cbn [np_percentile]; eauto).
  destruct E0 as (p0 & E0). destruct E50 as (p50 & E50).
  destruct E100 as (p100 & E100).
  rewrite E0, E50, E100. cbn [bind].
  destruct (@percentile_within _ 0 _ _ _ ltac:(lia) Hw E0) as (r0 & -> & H0).
  destruct (@percentile_within _ 50 _ _ _ ltac:(lia) Hw E50)
    as (r50 & -> & H50).
  destruct (@percentile_within _ 100 _ _ _ ltac:(lia) Hw E100)
    as (r100 & -> & H100).
  pose proof (percentile_0_min Hw E0) as Hmin.
  pose proof (percentile_100_max _ E100) as Hmax.
  unfold py_float_div.
  cbn [fleb fzero Exact xleb]. destruct (Rle_dec a 0) as [Ha0|Ha0];
    destruct (Rle_dec 0 a) as [H0a|H0a]; try (exfalso; lra);
    cbn [andb bind];
    unfold pymin, pymax, np_floor, np_ceil, fone;
    cbn [fmul fdiv of_int isfinite fltb ceil_int Exact xlift2 xdiv xisfinite
         xltb];
    rewrite floor_int_real;
    repeat match goal with
           | |- context [Rlt_dec ?x ?y] => destruct (Rlt_dec x y)
           end;
    cbn [xltb];
    repeat match goal with
           | |- context [Rlt_dec ?x ?y] => destruct (Rlt_dec x y)
           end;
    (do 2 eexists; split; [reflexivity|]);
    (split; [try lra|
             apply Forall_forall; intros s Hs;
             assert (Hin : In (Fin (IZR (Z.of_nat (length s))))
                             (float_lengths t))
               by (unfold float_lengths; apply in_map_iff; exists s;
                   split; [reflexivity|exact Hs]);
             pose proof (Hmin _ Hin) as Hlo; pose proof (Hmax _ Hin) as Hhi;
             cbn [xle] in Hlo, Hhi; lra]).
Qed.

(** What the loop keeps true of [min_length], [max_length] and the lengths
    seen so far. *)
Definition lengths_covered (st : normalize_state (F := xreal)) : Prop :=
  let '(min_length, max_length, _, _, templates_length) := st in
  (templates_length = [] /\ min_length = Inf /\ max_length = None)
  \/ (templates_length <> []
      /\ exists lo hi,
           min_length = Fin lo /\ max_length = Some (Fin hi)
           /\ (1 <= lo)%R
           /\ Forall (fun l => (lo <= IZR l <= hi)%R) templates_length).

Lemma normalize_step_exact (st : normalize_state (F := xreal))
  (t : list (series xreal)) :
  lengths_covered st ->
  t <> [] ->
  Forall (fun s => s <> [] /\ stored_template zscore normalize s <> []) t ->
  exists st',
    normalize_step zscore (Fin a) normalize st t = Ok st'
    /\ lengths_covered st'.
Proof.
  intros Hst Hne Hall.
  assert (H1 : Forall (fun s : series xreal => s <> []) t)
    by (revert Hall; apply Forall_impl; tauto).
  assert (H2 : Forall (fun s => stored_template zscore normalize s <> []) t)
    by (revert Hall; apply Forall_impl; tauto).
  destruct (group_length_bounds_exact Hne H1)
    as (v_min & v_max & Eg & Hv & Hcover).
  destruct (normalize_group_returns zscore normalize H2) as (pairs & Ep).
  destruct st as ((((mn & mx) & norm) & info) & lens).
  unfold normalize_step. rewrite Eg. cbn [bind]. rewrite Ep. cbn [bind].
  eexists. split; [reflexivity|]. right.
  assert (Hnew : Forall (fun l => (v_min <= IZR l <= v_max)%R)
                   (map (fun s : series xreal => Z.of_nat (length s)) t))
    by (apply Forall_map; exact Hcover).
  split.
  { destruct t; [congruence|]. destruct lens; discriminate. }
  destruct Hst as [(-> & -> & ->)|(_ & lo & hi & -> & -> & Hlo & Hold)];
    unfold above_running, fisnan;
    cbn [fltb fleb isfinite fzero Exact xisfinite xleb xltb].
  - exists v_min, v_max. cbn [app].
    destruct (Rle_dec v_max v_max); [|exfalso; lra].
    destruct (Rlt_dec v_max 0); cbn [negb andb];
      repeat split; try assumption.
  - destruct (Rlt_dec v_min lo); destruct (Rlt_dec hi v_max);
      eexists _, _; (split; [reflexivity|]); (split; [reflexivity|]);
      (split; [lra|]);
      apply Forall_app; split;
      [ revert Hold | revert Hnew | revert Hold | revert Hnew
      | revert Hold | revert Hnew | revert Hold | revert Hnew ];
      apply Forall_impl; intros l Hl; lra.
Qed.

(** With a non-zero [alpha], at least one action, at least one template per
    action and at least one point per template (also after the
    normalization), [normalize_templates] returns the stored templates with
    their summaries, and length statistics that cover the templates:
    [min_length] is at least 1 and at most the length of every template,
    [max_length] at least the length of every template, and the median
    length lies between the two. *)
Theorem length_stats_cover_templates (templates : list (list (series xreal))) :
  templates <> [] ->
  Forall (fun t => t <> []) templates ->
  Forall (Forall (fun s => s <> []
                           /\ stored_template zscore normalize s <> []))
         templates ->
  let templates_norm :=
    map (map (stored_template zscore normalize)) templates in
  exists min_length median_length max_length,
    normalize_templates zscore templates (Fin a) normalize
    = Outcome (Ok (templates_norm, templates_info_of templates_norm,
                   (min_length, median_length, max_length)))
    /\ 1 <= min_length
    /\ min_length <= median_length <= max_length
    /\ Forall (Forall (fun s => min_length <= Z.of_nat (length s)
                                <= max_length))
              templates.
Proof.
  intros Hne Hgroups Hall templates_norm.
  destruct (@foldM_invariant _ _ lengths_covered
              (normalize_step zscore (Fin a) normalize) templates)
    with (b := (@finf xreal Exact, @None xreal, @nil (list (series xreal)),
                @nil (list (template_info_tuple xreal)), @nil Z))
    as (st' & Ef & Hst').
  { intros st t Ht Hst. rewrite Forall_forall in Hgroups, Hall.
    apply normalize_step_exact; auto. }
  { left. repeat split. }
  destruct (normalize_fold_structure _ _ _ _ _ Ef) as (E1 & E2 & E3 & _).
  destruct st' as ((((mn & mx) & norm) & info) & lens).
  cbn [fst snd app] in E1, E2, E3. subst norm info.
  assert (Hlens : lens <> []).
  { rewrite E3. destruct templates as [|t rest]; [congruence|].
    inversion Hgroups; subst. destruct t; [congruence|]. discriminate. }
  destruct Hst' as [(-> & _)|(_ & lo & hi & -> & -> & Hlo & Hcover)];
    [congruence|].
  assert (Hhi : (lo <= hi)%R).
  { destruct lens as [|l lens']; [congruence|].
    inversion Hcover; subst. lra. }
  assert (Hw : Forall (within lo hi) (map (@of_int xreal Exact) lens)).
  { apply Forall_map. revert Hcover. apply Forall_impl. intros l Hl.
    eexists. split; [reflexivity|exact Hl]. }
  assert (Em : exists p, np_percentile (map (@of_int xreal Exact) lens) 50
                         = Ok p).
  { destruct lens; [congruence|]. cbn [map np_percentile]. eauto. }
  destruct Em as (p & Em).
  destruct (@percentile_within _ 50 _ _ _ ltac:(lia) Hw Em)
    as (med & -> & Hmed).
  exists (Int_part lo), (Int_part med), (Int_part hi).
  split; [|split; [|split]].
  - unfold normalize_templates. rewrite Ef. cbn [bind_result].
    rewrite (@py_int_exact lo) by lra. cbn [bind_result].
    rewrite Em. cbn [bind_result].
    rewrite (@py_int_exact med) by lra. cbn [bind_result].
    rewrite (@py_int_exact hi) by lra. cbn [bind_result]. reflexivity.
  - apply Int_part_ge. exact Hlo.
  - split; apply Int_part_mono; lra.
  - rewrite Forall_forall in Hcover.
    apply Forall_forall. intros t Ht. apply Forall_forall. intros s Hs.
    assert (Hin : In (Z.of_nat (length s)) lens).
    { rewrite E3. apply in_concat. eexists. split.
      - apply in_map_iff. exists t. split; [reflexivity|exact Ht].
      - apply in_map_iff. exists s. split; [reflexivity|exact Hs]. }
    specialize (Hcover _ Hin). split.
    + apply Int_part_le. lra.
    + apply Int_part_ge. lra.
Qed.

End LengthStatistics.

(** The errors of [normalize_templates]: without any action [min_length]
    is still [inf] at the end and [int(min_length)] raises [OverflowError],
    in binary64 as in exact arithmetic; in every arithmetic, a zero [alpha]
    makes [1.0 / alpha] raise [ZeroDivisionError] at the first action (which
    has a template), and with another [alpha] a template whose stored array
    has no row makes [np.min] raise [ValueError] at the first action. *)
Theorem normalize_templates_errors :
  (forall zscore alpha normalize,
     normalize_templates (F := PrimFloat.float) zscore [] alpha normalize
     = RaiseOverflowError)
  /\ (forall zscore alpha normalize,
        normalize_templates (F := xreal) zscore [] alpha normalize
        = RaiseOverflowError)
  /\ (forall (F : Type) (AR : Arith F) (zscore : series F -> series F)
        (t : list (series F)) (rest : list (list (series F))) (alpha : F)
        (normalize : bool),
        t <> [] -> fleb alpha fzero = true -> fleb fzero alpha = true ->
        normalize_templates zscore (t :: rest) alpha normalize
        = Outcome (Raise ZeroDivisionError))
  /\ (forall (F : Type) (AR : Arith F) (zscore : series F -> series F)
        (t : list (series F)) (rest : list (list (series F))) (alpha : F)
        (normalize : bool),
        fleb alpha fzero && fleb fzero alpha = false ->
        Exists (fun a => stored_template zscore normalize a = []) t ->
        normalize_templates zscore (t :: rest) alpha normalize
        = Outcome (Raise ValueError)).
Proof.
  split; [|split; [|split]].
  - intros zscore alpha normalize. reflexivity.
  - intros zscore alpha normalize. reflexivity.
  - intros F AR zscore t rest alpha normalize.
    apply normalize_templates_zero_alpha.
  - intros F AR zscore t rest alpha normalize.
    apply normalize_templates_empty_array.
Qed.

Lemma length_stats_cover_templates_witness :
  let templates :=
    [[exact_series [[0]; [1]; [0]]%R; exact_series [[0]; [2]]%R]] in
  let templates_norm :=
    map (map (stored_template (fun s => s) true)) templates in
  exists min_length median_length max_length,
    normalize_templates (fun s => s) templates (Fin (3 / 4)) true
    = Outcome (Ok (templates_norm, templates_info_of templates_norm,
                   (min_length, median_length, max_length)))
    /\ 1 <= min_length
    /\ min_length <= median_length <= max_length
    /\ Forall (Forall (fun s => min_length <= Z.of_nat (length s)
                                <= max_length))
              templates.
Proof.
  apply (@length_stats_cover_templates (fun s => s) (3 / 4)%R true).
  - lra.
  - discriminate.
  - repeat constructor; discriminate.
  - repeat constructor; discriminate.
Defined.

(** ** From the preprocessing to the segmentation *)

Section Pipeline.

Context {F : Type} {AR : Arith F}.
Context {rng : Type} {RS : RandomSource rng} {RSok : RandomSourceOk RS}.

Variable zscore : series F -> series F.

Lemma Forall2_map_lengths {A B C : Type} (f : list A -> list B)
  (l : list (list A)) (l' : list (list C)) :
  (forall t, length (f t) = length t) ->
  Forall2 (fun t x => length x = length t) l l' ->
  Forall2 (fun t x => length x = length t) (map f l) l'.
Proof.
  intros Hf. induction 1 as [|t x l l' H _ IH]; cbn [map]; constructor;
    [now rewrite Hf|exact IH].
Qed.


End Pipeline.

